(** * osmpp: OSM data pre-processing (main.go, release v0.2.0)

    A shallow embedding of the node_network synthesis and of the
    turning_circle/loop correlation of [main.go], and the properties of
    the specification that were checked against it.

    Modelling decisions:
    - [osm.Node] objects live on a heap and are addressed by pointer
      (the index into [heap]); the map [turningCircleLoop] stores such
      pointers, as in the source ([map[osm.NodeID]*osm.Node]).
    - [osm.Tags] is a Go slice: a header (backing array, length,
      capacity) over a store of backing arrays.  [append] writes in
      place when there is spare capacity and allocates a new array
      otherwise; the new capacity is a parameter of the runtime.
    - [int] and [int64] are 64 bit two's complement; arithmetic that
      can leave the range is wrapped with [wrap64].
    - The output sink receives, per write, the element that
      [xml.MarshalIndent] sees at that moment (the struct fields and the
      contents of the tag slice).  Serializing a node and writing into
      the buffered writer are taken to succeed; opening, scanning,
      flushing and closing can fail ([environment]).  What the writer
      was given is in the file for certain only after a successful
      [Flush] ([outputFile]).
    - The statistics can end the run with a panic: [stats.Add] at the
      head of each case of the scanner loop, when the [osm.ElementID]
      of the object has none of the three types (an identifier that it
      does not hold, the library's answer being the parameter
      [elementID]), and the report, when no object had a tag.  The
      cases of the loop ([processNode], [processWay], [processObject],
      and with them [reach]) are the cases after that call;
      [processObjectStats], [scanLoopStats] and [main] include it.
    - The statistics of [main] do not influence the records written;
      [turningCircleLoopModified] is part of the program state, the
      counters, the reference maxima, the coordinate bounds,
      [elementStats] and [turningStatistic] are folds of their own
      over the objects scanned ([report], [bounds]).  The timestamp
      bounds are left out.
    - Module [V010] holds the junction point duplication of release
      v0.1.0 (unnamed/part_001), which works on the node of the
      scanner itself. *)

From Stdlib Require Import ZArith String List Lia.
From Stdlib Require Import Floats.SpecFloat.
From stdpp Require Import base gmap strings list fin_maps.

Local Open Scope string_scope.
Local Open Scope list_scope.
Local Open Scope nat_scope.

(** ** Data model (github.com/paulmach/osm) *)

Definition float64 := spec_float.

(** [osm.Tag] *)
Record Tag := mkTag { Key : string; Value : string }.

(** Header of a slice of tags: [sl_base] names the backing array. *)
Record slice := mkSlice { sl_base : nat; sl_len : nat; sl_cap : nat }.

(** [osm.Node].  The parameter is the representation of the field
    [Tags]: a [slice] for nodes on the heap, a [list Tag] for the value
    that the decoder read or that the serializer sees. *)
Record NodeOf (T : Type) := mkNode {
  ID : Z;
  Lat : float64;
  Lon : float64;
  User : string;
  UserID : Z;
  Visible : bool;
  Version : Z;
  ChangesetID : Z;
  Timestamp : Z;
  Tags : T;
  Committed : option Z;
}.
Arguments mkNode {T}.
Arguments ID {T}.
Arguments Lat {T}.
Arguments Lon {T}.
Arguments User {T}.
Arguments UserID {T}.
Arguments Visible {T}.
Arguments Version {T}.
Arguments ChangesetID {T}.
Arguments Timestamp {T}.
Arguments Tags {T}.
Arguments Committed {T}.

Abbreviation Node := (NodeOf slice).
Abbreviation NodeValue := (NodeOf (list Tag)).

Definition set_ID {T} (i : Z) (n : NodeOf T) : NodeOf T :=
  mkNode i (Lat n) (Lon n) (User n) (UserID n) (Visible n) (Version n)
         (ChangesetID n) (Timestamp n) (Tags n) (Committed n).

Definition set_Tags {T U} (t : U) (n : NodeOf T) : NodeOf U :=
  mkNode (ID n) (Lat n) (Lon n) (User n) (UserID n) (Visible n) (Version n)
         (ChangesetID n) (Timestamp n) t (Committed n).

(** [osm.WayNode], [osm.Way], [osm.Relation]; only the fields that
    [main.go] reads. *)
Record WayNode := mkWayNode { wn_ID : Z }.
Record Way := mkWay { WayID : Z; WayTags : list Tag; Nodes : list WayNode }.
Record Relation := mkRelation { RelationID : Z; RelationTags : list Tag; Members : list Z }.

(** One object of the scanner.  A node comes with the tags that the
    decoder read and with the spare capacity that the decoder left in
    the backing array of the tag slice. *)
Inductive object :=
| ObjNode (n : NodeValue) (spare : nat)
| ObjWay (w : Way)
| ObjRelation (r : Relation).

(** [Tags.Map]: later duplicates of a key overwrite earlier ones. *)
Definition Tags_Map (ts : list Tag) : gmap string string :=
  foldl (fun m t => <[Key t := Value t]> m) ∅ ts.

(** 64 bit two's complement *)
Definition wrap64 (z : Z) : Z := ((z + 2 ^ 63) mod 2 ^ 64 - 2 ^ 63)%Z.

Definition zeroTag : Tag := mkTag "" "".

Definition zeroNode : Node :=
  mkNode 0%Z (S754_zero false) (S754_zero false) "" 0%Z false 0%Z 0%Z 0%Z (mkSlice 0 0 0) None.

(** ** Program state *)

(** What the buffered writer has been given. *)
Inductive item :=
| XmlDecl
| OsmOpen
| NodeElem (n : NodeValue)
| OsmClose.

Record state := mkState {
  arrays : list (list Tag);            (* backing arrays of tag slices *)
  heap : list Node;                    (* allocated osm.Node objects *)
  newNodeID : Z;                       (* var newNodeID osm.NodeID *)
  writer : list item;                  (* writer *bufio.Writer *)
  turningCircleLoop : gmap Z nat;      (* map[osm.NodeID]*osm.Node *)
  turningCircleLoopModified : Z;
}.

Definition set_arrays (a : list (list Tag)) (st : state) : state :=
  mkState a (heap st) (newNodeID st) (writer st) (turningCircleLoop st)
          (turningCircleLoopModified st).
Definition set_heap (h : list Node) (st : state) : state :=
  mkState (arrays st) h (newNodeID st) (writer st) (turningCircleLoop st)
          (turningCircleLoopModified st).
Definition set_newNodeID (i : Z) (st : state) : state :=
  mkState (arrays st) (heap st) i (writer st) (turningCircleLoop st)
          (turningCircleLoopModified st).
Definition set_writer (w : list item) (st : state) : state :=
  mkState (arrays st) (heap st) (newNodeID st) w (turningCircleLoop st)
          (turningCircleLoopModified st).
Definition set_turningCircleLoop (m : gmap Z nat) (st : state) : state :=
  mkState (arrays st) (heap st) (newNodeID st) (writer st) m
          (turningCircleLoopModified st).
Definition set_turningCircleLoopModified (c : Z) (st : state) : state :=
  mkState (arrays st) (heap st) (newNodeID st) (writer st) (turningCircleLoop st) c.

(** State monad of the program. *)
Definition M (A : Type) : Type := state -> A * state.
Definition ret {A} (a : A) : M A := fun st => (a, st).
Definition bind {A B} (c : M A) (k : A -> M B) : M B :=
  fun st => let (a, st') := c st in k a st'.
Definition gets {A} (f : state -> A) : M A := fun st => (f st, st).
Definition modify (f : state -> state) : M unit := fun st => (tt, f st).
Definition exec {A} (c : M A) (st : state) : state := snd (c st).

Notation "x <~ c1 ;; c2" := (bind c1 (fun x => c2))
  (at level 100, c1 at next level, right associativity).
Notation "c1 ;;; c2" := (bind c1 (fun _ => c2))
  (at level 100, right associativity).

(** ** Slices and pointers *)

(** The elements that a slice shows. *)
Definition slice_read (a : list (list Tag)) (s : slice) : list Tag :=
  take (sl_len s) (default [] (a !! sl_base s)).

Definition readTags (s : slice) : M (list Tag) :=
  gets (fun st => slice_read (arrays st) s).

(** [*p] *)
Definition deref (p : nat) : M Node :=
  gets (fun st => default zeroNode (heap st !! p)).

(** [p.Tags = s] *)
Definition storeTags (p : nat) (s : slice) : M unit :=
  modify (fun st =>
    set_heap (<[p := set_Tags s (default zeroNode (heap st !! p))]> (heap st)) st).

(** [[]osm.Tag{}]: length and capacity 0, no allocation. *)
Definition emptySlice : slice := mkSlice 0 0 0.

(** [n.TagMap()] *)
Definition TagMap (n : Node) : M (gmap string string) :=
  ts <~ readTags (Tags n) ;; ret (Tags_Map ts).

(** What [xml.MarshalIndent] sees of a node. *)
Definition marshal (n : Node) : M NodeValue :=
  ts <~ readTags (Tags n) ;; ret (set_Tags ts n).

(** [fmt.Fprintf(writer, ...)] *)
Definition write (i : item) : M unit :=
  modify (fun st => set_writer (writer st ++ [i]) st).

(** The loop that looks for the key "fzk_turning" and breaks. *)
Fixpoint fzkTagFound (ts : list Tag) : bool :=
  match ts with
  | [] => false
  | tag :: rest => if String.eqb (Key tag) "fzk_turning" then true else fzkTagFound rest
  end.

Section Program.

(** Runtime of Go: the capacity that [append] asks for when it has to
    grow (from the old capacity and the needed length), and the order
    in which [range] visits a map. *)
Variable growslice : nat -> nat -> nat.
Variable range_order : gmap Z nat -> list (Z * nat).

(** [append(s, t)] *)
Definition append (s : slice) (t : Tag) : M slice := fun st =>
  let a := default [] (arrays st !! sl_base s) in
  if sl_len s <? sl_cap s then
    (mkSlice (sl_base s) (S (sl_len s)) (sl_cap s),
     set_arrays (<[sl_base s := <[sl_len s := t]> a]> (arrays st)) st)
  else
    let newcap := S (sl_len s) `max` growslice (sl_cap s) (S (sl_len s)) in
    (mkSlice (length (arrays st)) (S (sl_len s)) newcap,
     set_arrays (arrays st ++
       [take (sl_len s) a ++ t :: replicate (newcap - S (sl_len s)) zeroTag]) st).

(** The scanner hands out a new node object with its own tag array. *)
Definition scanNode (v : NodeValue) (spare : nat) : M nat := fun st =>
  let s := mkSlice (length (arrays st)) (length (Tags v)) (length (Tags v) + spare) in
  (length (heap st),
   set_heap (heap st ++ [set_Tags s v])
     (set_arrays (arrays st ++ [Tags v ++ replicate spare zeroTag]) st)).

(** ** writeNewNodeObject (main.go 583-595)
    The argument is the local variable of the caller; its new content
    is returned. *)
Definition writeNewNodeObject (newOsmNode : Node) : M Node :=
  id <~ gets newNodeID ;;
  let newOsmNode := set_ID id newOsmNode in
  modify (fun st => set_newNodeID (wrap64 (newNodeID st + 1)) st) ;;;
  data <~ marshal newOsmNode ;;
  write (NodeElem data) ;;;
  ret newOsmNode.

(** The four statements that every branch of
    [createNewNodeNetworkObject] repeats: append the two tags to the
    local node and write it. *)
Definition appendTagsAndWrite (label refValue : string) (newOsmNode : Node) : M unit :=
  s <~ append (Tags newOsmNode) (mkTag "node_network" label) ;;
  let newOsmNode := set_Tags s newOsmNode in
  s <~ append (Tags newOsmNode) (mkTag "name" refValue) ;;
  let newOsmNode := set_Tags s newOsmNode in
  writeNewNodeObject newOsmNode ;;;
  ret tt.

(** ** createNewNodeNetworkObject (main.go 444-578) *)
Definition createNewNodeNetworkObject (sourceOsmNode : nat) : M unit :=
  src <~ deref sourceOsmNode ;;
  tags <~ TagMap src ;;
  (* Punktnetzwerk 'Fahrrad' *)
  let newOsmNode := set_Tags emptySlice (set_ID 0%Z src) in
  match tags !! "icn_ref" with
  | Some refValue => appendTagsAndWrite "node_bicycle" refValue newOsmNode
  | None =>
    match tags !! "ncn_ref" with
    | Some refValue => appendTagsAndWrite "node_bicycle" refValue newOsmNode
    | None =>
      match tags !! "rcn_ref" with
      | Some refValue => appendTagsAndWrite "node_bicycle" refValue newOsmNode
      | None =>
        match tags !! "lcn_ref" with
        | Some refValue => appendTagsAndWrite "node_bicycle" refValue newOsmNode
        | None => ret tt
        end
      end
    end
  end ;;;
  (* Punktnetzwerk 'Wandern' *)
  let newOsmNode := set_Tags emptySlice (set_ID 0%Z src) in
  match tags !! "iwn_ref" with
  | Some refValue => appendTagsAndWrite "node_hiking" refValue newOsmNode
  | None =>
    match tags !! "nwn_ref" with
    | Some refValue => appendTagsAndWrite "node_hiking" refValue newOsmNode
    | None =>
      match tags !! "rwn_ref" with
      | Some refValue => appendTagsAndWrite "node_hiking" refValue newOsmNode
      | None =>
        match tags !! "lwn_ref" with
        | Some refValue => appendTagsAndWrite "node_hiking" refValue newOsmNode
        | None => ret tt
        end
      end
    end
  end ;;;
  (* Punktnetzwerk 'Inline-Skaten' *)
  let newOsmNode := set_Tags emptySlice (set_ID 0%Z src) in
  match tags !! "rin_ref" with
  | Some refValue => appendTagsAndWrite "node_inline_skates" refValue newOsmNode
  | None => ret tt
  end ;;;
  (* Punktnetzwerk 'Reiten' *)
  let newOsmNode := set_Tags emptySlice (set_ID 0%Z src) in
  match tags !! "rhn_ref" with
  | Some refValue => appendTagsAndWrite "node_horse" refValue newOsmNode
  | None => ret tt
  end ;;;
  (* Punktnetzwerk 'Kanu' *)
  let newOsmNode := set_Tags emptySlice (set_ID 0%Z src) in
  match tags !! "rpn_ref" with
  | Some refValue => appendTagsAndWrite "node_canoe" refValue newOsmNode
  | None => ret tt
  end ;;;
  (* Punktnetzwerk 'Motorboot' *)
  let newOsmNode := set_Tags emptySlice (set_ID 0%Z src) in
  match tags !! "rmn_ref" with
  | Some refValue => appendTagsAndWrite "node_motorboat" refValue newOsmNode
  | None => ret tt
  end.

(** [value.Tags = append(value.Tags, t)] on the node behind [value]. *)
Definition appendTag (value : nat) (t : Tag) : M unit :=
  n <~ deref value ;;
  s <~ append (Tags n) t ;;
  storeTags value s.

(** ** addHighwayTypeToTurningCircleLoop (main.go 600-631) *)

(** Body of the loop over [e.Nodes], for one node reference. *)
Definition annotateNode (highwayType : string) (found : Z) (node : WayNode) : M Z :=
  tbl <~ gets turningCircleLoop ;;
  match tbl !! wn_ID node with
  | Some value =>
    n <~ deref value ;;
    ts <~ readTags (Tags n) ;;
    if fzkTagFound ts then ret found
    else
      appendTag value (mkTag "fzk_turning" highwayType) ;;;
      ret (wrap64 (found + 1))
  | None => ret found
  end.

Fixpoint annotateLoop (highwayType : string) (found : Z) (nodes : list WayNode) : M Z :=
  match nodes with
  | [] => ret found
  | node :: rest =>
    found <~ annotateNode highwayType found node ;;
    annotateLoop highwayType found rest
  end.

Definition addHighwayTypeToTurningCircleLoop
    (e : Way) (tags : gmap string string) (highwayType : string) : M Z :=
  annotateLoop highwayType 0%Z (Nodes e).

(** ** main (main.go 97-371) *)

(** [turningCircleLoop[id] = e] *)
Definition register (id : Z) (e : nat) : M unit :=
  modify (fun st => set_turningCircleLoop (<[id := e]> (turningCircleLoop st)) st).

(** The highway values of line 240. *)
Definition qualifyingHighway (tagValue : string) : bool :=
  String.eqb tagValue "residential" || String.eqb tagValue "living_street" ||
  String.eqb tagValue "unclassified" || String.eqb tagValue "service" ||
  String.eqb tagValue "track".

(** Body of the scanner loop (main.go 170-263), case by case.  Each
    case opens with the counter and the statistics of the report
    ([nodes++], [stats.Add], the coordinate bounds); the definitions
    here are the cases from there on, for an object whose [stats.Add]
    has returned.  The call itself, which can panic, is part of
    [processObjectStats] below, and the statistics are [report],
    [bounds] and [elementStats]. *)

(** "process node_network objects" (main.go 195-200) *)
Definition processNodeNetwork (e : nat) (tags : gmap string string) : M unit :=
  match tags !! "network:type" with
  | Some tagValue =>
    if String.eqb tagValue "node_network" then createNewNodeNetworkObject e else ret tt
  | None => ret tt
  end.

(** "process turning_circle/loop objects" (main.go 202-223) *)
Definition processTurningCircleLoop (e : nat) (tags : gmap string string) : M unit :=
  match tags !! "highway" with
  | Some tagValue =>
    (if String.eqb tagValue "turning_circle"
     then n <~ deref e ;; register (ID n) e else ret tt) ;;;
    (if String.eqb tagValue "turning_loop"
     then n <~ deref e ;; register (ID n) e else ret tt)
  | None => ret tt
  end.

(** [case *osm.Node] *)
Definition processNode (v : NodeValue) (spare : nat) : M unit :=
  e <~ scanNode v spare ;;
  n <~ deref e ;;
  tags <~ TagMap n ;;
  if 0 <? size tags then
    processNodeNetwork e tags ;;;
    processTurningCircleLoop e tags
  else ret tt.

(** [case *osm.Way] *)
Definition processWay (e : Way) : M unit :=
  let tags := Tags_Map (WayTags e) in
  if 0 <? size tags then
    match tags !! "highway" with
    | Some tagValue =>
      if qualifyingHighway tagValue then
        found <~ addHighwayTypeToTurningCircleLoop e tags tagValue ;;
        modify (fun st =>
          set_turningCircleLoopModified
            (wrap64 (turningCircleLoopModified st + found)) st)
      else ret tt
    | None => ret tt
    end
  else ret tt.

Definition processObject (o : object) : M unit :=
  match o with
  | ObjNode v spare => processNode v spare
  | ObjWay e => processWay e
  | ObjRelation _ => ret tt
  end.

Fixpoint scanLoop (objs : list object) : M unit :=
  match objs with
  | [] => ret tt
  | o :: rest => processObject o ;;; scanLoop rest
  end.

(** Body of the loop that writes the turning_circle/loop objects
    (main.go 326-350). *)
Definition drainEntry (value : nat) : M unit :=
  n <~ deref value ;;
  ts <~ readTags (Tags n) ;;
  (if fzkTagFound ts then ret tt
   else appendTag value (mkTag "fzk_turning" "not_set")) ;;;
  n <~ deref value ;;
  data <~ marshal n ;;
  write (NodeElem data).

Fixpoint drainLoop (entries : list (Z * nat)) : M unit :=
  match entries with
  | [] => ret tt
  | (_, value) :: rest => drainEntry value ;;; drainLoop rest
  end.

Definition drain : M unit :=
  tbl <~ gets turningCircleLoop ;;
  drainLoop (range_order tbl).

End Program.

(** ** The statistics that can end the run

    [elementStats] is fed by every case of the scanner loop
    ([stats.Add(e.ElementID(), e.Tags)], main.go 177, 229, 248) and
    read by the report (main.go 312-319). *)

(** [math.MaxInt64] *)
Definition MaxInt64 : Z := (2 ^ 63 - 1)%Z.

(** [osm.Type], the three kinds that [main] counts. *)
Inductive osmType := TypeNode | TypeWay | TypeRelation.

(** What the methods [Type], [Ref] and [Version] of an [osm.ElementID]
    answer. *)
Record ElementID := mkElementID { eType : osmType; eRef : Z; eVersion : Z }.

(** [idRange] *)
Record idRange := mkIdRange { Min : Z; Max : Z }.

(** [(r *idRange) Add] (main.go 416-423) *)
Definition idRange_Add (r : idRange) (ref : Z) : idRange :=
  let r := if (Max r <? ref)%Z then mkIdRange (Min r) ref else r in
  if (ref <? Min r)%Z then mkIdRange ref (Max r) else r.

(** [elementStats].  [Ranges] has the three keys of [newElementStats];
    [MaxTagsID] is [None] for the zero value. *)
Record elementStats := mkElementStats {
  Ranges : osmType -> idRange;
  MaxVersion : Z;
  MaxTags : Z;
  MaxTagsID : option ElementID;
}.

(** [newElementStats] (main.go 389-397) *)
Definition newElementStats : elementStats :=
  mkElementStats (fun _ => mkIdRange MaxInt64 0) 0 0 None.

Definition sameType (a b : osmType) : bool :=
  match a, b with
  | TypeNode, TypeNode | TypeWay, TypeWay | TypeRelation, TypeRelation => true
  | _, _ => false
  end.

(** [(s *elementStats) Add] (main.go 402-411) *)
Definition elementStats_Add (s : elementStats) (id : ElementID) (tags : list Tag)
  : elementStats :=
  let ranges := fun t => if sameType t (eType id)
                         then idRange_Add (Ranges s t) (eRef id) else Ranges s t in
  let maxVersion := if (MaxVersion s <? eVersion id)%Z then eVersion id else MaxVersion s in
  let l := Z.of_nat (length tags) in
  if (MaxTags s <? l)%Z
  then mkElementStats ranges maxVersion l (Some id)
  else mkElementStats ranges maxVersion (MaxTags s) (MaxTagsID s).

(** [e.Tags] of an object. *)
Definition objectTags (o : object) : list Tag :=
  match o with
  | ObjNode v _ => Tags v
  | ObjWay e => WayTags e
  | ObjRelation e => RelationTags e
  end.

(** Command line flags after [flag.Parse] (a flag that is not given
    has its default: the empty string, 0). *)
Record flags := mkFlags { inputOSM : string; outputNodes : string; startNode : Z }.

(** What the operating system and the scanner answer. *)
Record environment := mkEnv {
  openInput_ok : bool;
  openOutput_ok : bool;
  scanner_ok : bool;     (* scanner.Err() == nil after the loop *)
  flush_ok : bool;
  closeOutput_ok : bool;
  closeInput_ok : bool;
}.

(** How the process ends. *)
Inductive outcome :=
| Usage          (* printProgUsage: help text, os.Exit(1) *)
| OpenFailed     (* log.Fatalf, a file cannot be opened: os.Exit(1) *)
| ScannerError   (* os.Exit(1) *)
| Panic          (* a panic of the statistics: exit status 2 *)
| FlushFailed    (* log.Fatalf after writer.Flush: os.Exit(1) *)
| CloseFailed    (* log.Fatalf after a Close, the writer flushed: os.Exit(1) *)
| Done.          (* os.Exit(0) *)


(** State at program start: no node, the zero-size array, counter 0. *)
Definition initState : state := mkState [[]] [] 0%Z [] ∅ 0%Z.

Section Main.

Variable growslice : nat -> nat -> nat.
Variable range_order : gmap Z nat -> list (Z * nat).

(** Library (github.com/paulmach/osm): what [e.ElementID()] of an
    object answers to [Type], [Ref] and [Version].  An [ElementID]
    packs type, identifier and version into an int64; [None] stands
    for an identifier that leaves it without one of the three types,
    for which [Type] panics. *)
Variable elementID : object -> option ElementID.

(** From the header of the output file to the end of the scanner loop;
    [objs] are the objects that the scanner delivers.  The cases of
    the loop are taken after their statistics call. *)
Definition scanPhase (start : Z) (objs : list object) : M unit :=
  write XmlDecl ;;;
  write OsmOpen ;;;
  modify (set_newNodeID start) ;;;
  scanLoop growslice objs.

(** One round of the scanner loop with the statistics call that opens
    its case, [stats.Add(e.ElementID(), e.Tags)] (main.go 177, 229,
    248).  [None]: the call panics in its first statement,
    [s.Ranges[id.Type()]], and the case is not entered. *)
Definition processObjectStats (o : object) (stats : elementStats)
  : M (option elementStats) :=
  match elementID o with
  | Some id =>
    let stats := elementStats_Add stats id (objectTags o) in
    processObject growslice o ;;;
    ret (Some stats)
  | None => ret None
  end.

Fixpoint scanLoopStats (objs : list object) (stats : elementStats)
  : M (option elementStats) :=
  match objs with
  | [] => ret (Some stats)
  | o :: rest =>
    r <~ processObjectStats o stats ;;
    match r with
    | Some stats => scanLoopStats rest stats
    | None => ret None
    end
  end.

Definition scanPhaseStats (start : Z) (objs : list object) : M (option elementStats) :=
  write XmlDecl ;;;
  write OsmOpen ;;;
  modify (set_newNodeID start) ;;;
  scanLoopStats objs newElementStats.

Definition drainPhase : M unit :=
  drain growslice range_order ;;;
  write OsmClose.

(** [main].  The report (main.go 270-323) prints
    [stats.MaxTagsID.Type()] (line 319): [Type] panics on the zero
    value, which [MaxTagsID] still has when no object had a tag. *)
Definition main (args : flags) (env : environment) (objs : list object)
  : outcome * state :=
  if String.eqb (inputOSM args) "" || String.eqb (outputNodes args) "" ||
     (startNode args =? 0)%Z
  then (Usage, initState)
  else if negb (openInput_ok env) then (OpenFailed, initState)
  else if negb (openOutput_ok env) then (OpenFailed, initState)
  else
    let r := scanPhaseStats (startNode args) objs initState in
    match r.1 with
    | None => (Panic, r.2)
    | Some stats =>
      if negb (scanner_ok env) then (ScannerError, r.2)
      else
        match MaxTagsID stats with
        | None => (Panic, r.2)
        | Some _ =>
          let st := exec drainPhase r.2 in
          if negb (flush_ok env) then (FlushFailed, st)
          else if negb (closeOutput_ok env) then (CloseFailed, st)
          else if negb (closeInput_ok env) then (CloseFailed, st)
          else (Done, st)
        end
    end.

End Main.

(** What has been written to the output file when the process has
    ended.  The writer is a [bufio.Writer]: what it is given is written
    to the file for certain only when [writer.Flush] has returned
    without error (main.go 356); before, the file holds what the
    buffer passed on by itself, some initial part of the bytes
    written. *)
Inductive fileState :=
| NotOpened                       (* [os.OpenFile] was not reached or failed *)
| Unflushed                       (* opened and truncated, not flushed *)
| Flushed (content : list item).  (* [Flush] returned: all that the writer was given *)

Definition outputFile (r : outcome * state) : fileState :=
  match r.1 with
  | Usage | OpenFailed => NotOpened
  | ScannerError | Panic | FlushFailed => Unflushed
  | CloseFailed | Done => Flushed (writer r.2)
  end.

(** ** The store as the serializer sees it *)

(** The node behind every pointer, with the elements of its tag slice. *)
Definition values (st : state) : list NodeValue :=
  (fun n => set_Tags (slice_read (arrays st) (Tags n)) n) <$> heap st.

(** The tags of the node behind [p]. *)
Definition tagsAt (st : state) (p : nat) : list Tag :=
  slice_read (arrays st) (Tags (default zeroNode (heap st !! p))).

(** A slice header that fits its backing array. *)
Definition wf_slice (a : list (list Tag)) (s : slice) : Prop :=
  exists arr, a !! sl_base s = Some arr /\ length arr = sl_cap s /\ sl_len s <= sl_cap s.

(** Invariant of the store: every node owns a backing array that fits
    its slice header, and the table maps an identifier to a node that
    carries it. *)
Record Inv (st : state) : Prop := mkInv {
  inv_wf : forall p n, heap st !! p = Some n -> wf_slice (arrays st) (Tags n);
  inv_sep : forall p q n m, heap st !! p = Some n -> heap st !! q = Some m ->
            sl_base (Tags n) = sl_base (Tags m) -> p = q;
  inv_tbl : forall k p, turningCircleLoop st !! k = Some p ->
            exists n, heap st !! p = Some n /\ ID n = k;
}.

(** The fields of the state outside the store of nodes and arrays. *)
Definition sameRest (st st' : state) : Prop :=
  newNodeID st' = newNodeID st /\ writer st' = writer st /\
  turningCircleLoop st' = turningCircleLoop st /\
  turningCircleLoopModified st' = turningCircleLoopModified st.

(** ** The rule table of the classifier, in the words of the specification

    These definitions follow the specification (section 4.1), not the
    code; the theorems below compare the code with them. *)

(** Priority chain: the value of the first key, in the given order,
    that is present. *)
Fixpoint spec_firstPresent (keys : list string) (tags : gmap string string)
  : option string :=
  match keys with
  | [] => None
  | k :: rest =>
    match tags !! k with
    | Some v => Some v
    | None => spec_firstPresent rest tags
    end
  end.

Definition spec_bicycleKeys : list string := ["icn_ref"; "ncn_ref"; "rcn_ref"; "lcn_ref"].
Definition spec_hikingKeys : list string := ["iwn_ref"; "nwn_ref"; "rwn_ref"; "lwn_ref"].

(** The six categories: label and reference keys. *)
Definition spec_categories : list (string * list string) :=
  [ ("node_bicycle", spec_bicycleKeys);
    ("node_hiking", spec_hikingKeys);
    ("node_inline_skates", ["rin_ref"]);
    ("node_horse", ["rhn_ref"]);
    ("node_canoe", ["rpn_ref"]);
    ("node_motorboat", ["rmn_ref"]) ].

(** The synthesis request of one category, if any. *)
Definition spec_request (tags : gmap string string) (c : string * list string)
  : list (string * string) :=
  match spec_firstPresent (snd c) tags with
  | Some v => [(fst c, v)]
  | None => []
  end.

(** The synthesis requests of a tag map: label and reference value of
    every category that has a reference key. *)
Definition spec_requests (tags : gmap string string) : list (string * string) :=
  concat (spec_request tags <$> spec_categories).

(** The derived node of a request. *)
Definition spec_derived {T} (src : NodeOf T) (id : Z) (r : string * string) : NodeValue :=
  set_Tags [mkTag "node_network" (fst r); mkTag "name" (snd r)] (set_ID id src).

(** Derived nodes for a list of requests, the identifiers taken from a
    counter that is incremented in 64 bit arithmetic. *)
Fixpoint derivedItems {T} (src : NodeOf T) (id : Z) (rs : list (string * string))
  : list item :=
  match rs with
  | [] => []
  | r :: rest => NodeElem (spec_derived src id r) :: derivedItems src (wrap64 (id + 1)) rest
  end.

(** The counter after [k] increments. *)
Definition bump (k : nat) (id : Z) : Z := Nat.iter k (fun x => wrap64 (x + 1)) id.

(** ** Annotation of a node value *)

Definition fzkTag (v : string) : Tag := mkTag "fzk_turning" v.

(** The node carries a tag with key "fzk_turning". *)
Definition annotated (v : NodeValue) : bool := fzkTagFound (Tags v).

(** The node with one more tag at the end. *)
Definition withTag (t : Tag) (v : NodeValue) : NodeValue := set_Tags (Tags v ++ [t]) v.

(** Some node reference of the list leads, through the table, to [p]. *)
Definition referenced (tbl : gmap Z nat) (nodes : list WayNode) (p : nat) : bool :=
  existsb (fun node => bool_decide (tbl !! wn_ID node = Some p)) nodes.

(** Number of tags with key "fzk_turning". *)
Definition countFzk (ts : list Tag) : nat :=
  length (filter (fun t => Key t = "fzk_turning") ts).

(** Number of nodes on the heap that carry a tag "fzk_turning". *)
Definition annotatedCount (st : state) : nat :=
  length (filter (fun v => annotated v = true) (values st)).

(** The node as [main] writes it at the end: with "fzk_turning=not_set"
    if it carries no tag "fzk_turning". *)
Definition finalValue (v : NodeValue) : NodeValue :=
  if annotated v then v else withTag (fzkTag "not_set") v.

Definition zeroValue : NodeValue := set_Tags [] zeroNode.

(** The value behind a pointer. *)
Definition valueAt (st : state) (p : nat) : NodeValue :=
  default zeroValue (values st !! p).

(** Way nodes without the later repetitions of an identifier ([seen]
    are the identifiers met so far). *)
Fixpoint firstOccurrences (seen : list Z) (nodes : list WayNode) : list WayNode :=
  match nodes with
  | [] => []
  | node :: rest =>
    if bool_decide (wn_ID node ∈ seen) then firstOccurrences seen rest
    else node :: firstOccurrences (wn_ID node :: seen) rest
  end.

(** The conditions of the classifier on a tag map. *)
Definition isNodeNetwork (tags : gmap string string) : bool :=
  bool_decide (tags !! "network:type" = Some "node_network").

Definition isTurning (tags : gmap string string) : bool :=
  bool_decide (tags !! "highway" = Some "turning_circle" \/
               tags !! "highway" = Some "turning_loop").

(** The identifier of a node element. *)
Definition itemID (i : item) : option Z :=
  match i with NodeElem n => Some (ID n) | _ => None end.

(** The identifiers of the node elements given to the writer. *)
Definition nodeIDs (w : list item) : list Z := omap itemID w.

(** A way that the scanner loop submits to the annotation. *)
Definition isQualifyingWay (w : Way) : bool :=
  match Tags_Map (WayTags w) !! "highway" with
  | Some tagValue => qualifyingHighway tagValue
  | None => false
  end.

(** The tags of an element (none for the envelope). *)
Definition itemTags (i : item) : list Tag :=
  match i with NodeElem n => Tags n | _ => [] end.

(** The value of the tag "node_network" at the head of a derived node. *)
Definition itemLabel (i : item) : option string :=
  match itemTags i with
  | t :: _ => if String.eqb (Key t) "node_network" then Some (Value t) else None
  | [] => None
  end.

(** The elements whose label is [l]. *)
Definition labelled (l : string) (out : list item) : list item :=
  filter (fun i => itemLabel i = Some l) out.

(** The states that the scanner loop can reach: the state after the
    objects [objs], from program start with [-startNode=start]. *)
Definition reach (growslice : nat -> nat -> nat) (start : Z) (objs : list object) : state :=
  exec (scanPhase growslice start objs) initState.

Definition int64_range (z : Z) : Prop := (- 2 ^ 63 <= z < 2 ^ 63)%Z.

(** A computation that writes the derived nodes of the requests [rs],
    touches no node and no existing backing array. *)
Definition emits (c : M unit) (src : Node) (rs : list (string * string)) : Prop :=
  forall st,
    let st' := exec c st in
    heap st' = heap st /\
    turningCircleLoop st' = turningCircleLoop st /\
    turningCircleLoopModified st' = turningCircleLoopModified st /\
    (exists ext, arrays st' = arrays st ++ ext) /\
    newNodeID st' = bump (length rs) (newNodeID st) /\
    writer st' = writer st ++ derivedItems src (newNodeID st) rs.

(** Every pointer that the table gives for [id] leads to an annotated node. *)
Definition settled (st : state) (id : Z) : Prop :=
  forall p, turningCircleLoop st !! id = Some p -> fzkTagFound (tagsAt st p) = true.

(** ** Example inputs *)

(** A growth policy: double the capacity (at least the needed length). *)
Definition growDouble (old needed : nat) : nat := 2 * old.

Definition exampleNode (i : Z) (ts : list Tag) : NodeValue :=
  mkNode i (S754_zero false) (S754_zero false) "user" 1%Z true 8%Z 0%Z 0%Z ts None.

(** The junction point of the comment of [createNewNodeNetworkObject]. *)
Definition junction53 : NodeValue :=
  exampleNode 355939532
    [ mkTag "expected_rcn_route_relations" "3";
      mkTag "network:type" "node_network";
      mkTag "rcn:name" "Spechtholtshook";
      mkTag "rcn_ref" "53" ].

Definition junction53X32 : NodeValue :=
  exampleNode 355939532
    [ mkTag "network:type" "node_network";
      mkTag "rcn_ref" "53";
      mkTag "rwn_ref" "X32" ].

Definition turning77 : NodeValue := exampleNode 77 [mkTag "highway" "turning_circle"].

Definition serviceWay : Way :=
  mkWay 9 [mkTag "highway" "service"] [mkWayNode 77; mkWayNode 77; mkWayNode 3].

(** A stand-in for the library in the examples.  An [osm.ElementID]
    holds an identifier in 40 bits: for an identifier from 0 below
    2^40 it answers the type of the object, the identifier and the
    version in 16 bits.  No other identifier gets an answer here; so
    the identifier -1, for which [Type] panics.  The ways and
    relations of the model carry no version: 0. *)
Definition exampleElementID (o : object) : option ElementID :=
  let held (t : osmType) (id version : Z) :=
    if (0 <=? id)%Z && (id <? 2 ^ 40)%Z
    then Some (mkElementID t id (Z.land version 65535)) else None in
  match o with
  | ObjNode v _ => held TypeNode (ID v) (Version v)
  | ObjWay e => held TypeWay (WayID e) 0%Z
  | ObjRelation e => held TypeRelation (RelationID e) 0%Z
  end.

Definition exampleRun : list object :=
  [ ObjNode junction53X32 0; ObjNode turning77 1;
    ObjNode (exampleNode 78 [mkTag "highway" "turning_loop"]) 0;
    ObjWay serviceWay ].

(** ** The statistics of [main] *)

(** The nodes that the scanner has delivered, as they were read. *)
Definition decodedNodes (objs : list object) : list NodeValue :=
  omap (fun o => match o with ObjNode v _ => Some v | _ => None end) objs.

(** "Nodes written": [int(newNodeID) - *startNode] (main.go 274). *)
Definition nodesWritten (st : state) (startNode : Z) : Z :=
  wrap64 (newNodeID st - startNode).

(** The counters and maxima of the scanner loop that depend on the
    objects only (main.go 141-165, 175, 198, 207, 220, 227-234,
    246-253). *)
Record report := mkReport {
  nodes : Z;
  ways : Z;
  relations : Z;
  junctionPointsFound : Z;
  turningCirclePointsFound : Z;
  turningLoopPointsFound : Z;
  maxNodeRefs : Z;
  maxNodeRefsID : Z;
  maxRelRefs : Z;
  maxRelRefsID : Z;
}.

Definition initReport : report := mkReport 0 0 0 0 0 0 0 0 0 0.

Definition reportObject (r : report) (o : object) : report :=
  match o with
  | ObjNode v _ =>
    let tags := Tags_Map (Tags v) in
    let junction :=
      if 0 <? size tags then
        match tags !! "network:type" with
        | Some tagValue =>
          if String.eqb tagValue "node_network"
          then wrap64 (junctionPointsFound r + 1) else junctionPointsFound r
        | None => junctionPointsFound r
        end
      else junctionPointsFound r in
    let circle :=
      if 0 <? size tags then
        match tags !! "highway" with
        | Some tagValue =>
          if String.eqb tagValue "turning_circle"
          then wrap64 (turningCirclePointsFound r + 1) else turningCirclePointsFound r
        | None => turningCirclePointsFound r
        end
      else turningCirclePointsFound r in
    let loop :=
      if 0 <? size tags then
        match tags !! "highway" with
        | Some tagValue =>
          if String.eqb tagValue "turning_loop"
          then wrap64 (turningLoopPointsFound r + 1) else turningLoopPointsFound r
        | None => turningLoopPointsFound r
        end
      else turningLoopPointsFound r in
    mkReport (wrap64 (nodes r + 1)) (ways r) (relations r) junction circle loop
             (maxNodeRefs r) (maxNodeRefsID r) (maxRelRefs r) (maxRelRefsID r)
  | ObjWay e =>
    let l := Z.of_nat (length (Nodes e)) in
    if (maxNodeRefs r <? l)%Z
    then mkReport (nodes r) (wrap64 (ways r + 1)) (relations r) (junctionPointsFound r)
                  (turningCirclePointsFound r) (turningLoopPointsFound r)
                  l (WayID e) (maxRelRefs r) (maxRelRefsID r)
    else mkReport (nodes r) (wrap64 (ways r + 1)) (relations r) (junctionPointsFound r)
                  (turningCirclePointsFound r) (turningLoopPointsFound r)
                  (maxNodeRefs r) (maxNodeRefsID r) (maxRelRefs r) (maxRelRefsID r)
  | ObjRelation e =>
    let l := Z.of_nat (length (Members e)) in
    if (maxRelRefs r <? l)%Z
    then mkReport (nodes r) (ways r) (wrap64 (relations r + 1)) (junctionPointsFound r)
                  (turningCirclePointsFound r) (turningLoopPointsFound r)
                  (maxNodeRefs r) (maxNodeRefsID r) l (RelationID e)
    else mkReport (nodes r) (ways r) (wrap64 (relations r + 1)) (junctionPointsFound r)
                  (turningCirclePointsFound r) (turningLoopPointsFound r)
                  (maxNodeRefs r) (maxNodeRefsID r) (maxRelRefs r) (maxRelRefsID r)
  end.

Definition scanReport (objs : list object) : report := foldl reportObject initReport objs.

(** The loop that builds [turningStatistic] (main.go 282-296): the
    value of the first tag with key "fzk_turning", found by the inner
    loop that breaks. *)
Fixpoint firstFzkValue (ts : list Tag) : option string :=
  match ts with
  | [] => None
  | tag :: rest =>
    if String.eqb (Key tag) "fzk_turning" then Some (Value tag) else firstFzkValue rest
  end.

(** [turningStatistic[k]++] *)
Definition increment (k : string) (stat : gmap string Z) : gmap string Z :=
  <[k := wrap64 (default 0%Z (stat !! k) + 1)]> stat.

Definition statisticEntry (st : state) (stat : gmap string Z) (entry : Z * nat)
  : gmap string Z :=
  match firstFzkValue (tagsAt st entry.2) with
  | Some v => increment v stat
  | None => increment "not_set" stat
  end.

Definition turningStatistic (range_order : gmap Z nat -> list (Z * nat)) (st : state)
  : gmap string Z :=
  foldl (statisticEntry st) ∅ (range_order (turningCircleLoop st)).

(** The sum of the counts of a statistic. *)
Definition statisticTotal (stat : gmap string Z) : Z :=
  map_fold (fun _ c acc => (c + acc)%Z) 0%Z stat.

(** The six labels of derived nodes. *)
Definition spec_labels : list string :=
  ["node_bicycle"; "node_hiking"; "node_inline_skates"; "node_horse";
   "node_canoe"; "node_motorboat"].

(** The twelve reference keys. *)
Definition spec_referenceKeys : list string :=
  ["icn_ref"; "ncn_ref"; "rcn_ref"; "lcn_ref"; "iwn_ref"; "nwn_ref"; "rwn_ref";
   "lwn_ref"; "rin_ref"; "rhn_ref"; "rpn_ref"; "rmn_ref"].

(** A derived node element: exactly the two tags node_network and name,
    the label one of the six. *)
Definition derivedShape (i : item) : Prop :=
  exists n label ref,
    i = NodeElem n /\ Tags n = [mkTag "node_network" label; mkTag "name" ref] /\
    label ∈ spec_labels.

(** [w] is the node [v] as read, or [v] with one tag fzk_turning
    appended whose value is a qualifying highway value; the latter only
    for a turning point that was read without such a tag. *)
Definition annotatedFrom (v w : NodeValue) : Prop :=
  w = v \/
  (isTurning (Tags_Map (Tags v)) = true /\ annotated v = false /\
   exists hw, qualifyingHighway hw = true /\ w = withTag (fzkTag hw) v).

(** [p] is the position, among the nodes read, of the last turning
    point with identifier [k]. *)
Definition lastTurningPoint (ds : list NodeValue) (k : Z) (p : nat) : Prop :=
  exists v, ds !! p = Some v /\ ID v = k /\ isTurning (Tags_Map (Tags v)) = true /\
    forall q w, p < q -> ds !! q = Some w -> isTurning (Tags_Map (Tags w)) = true ->
      ID w <> k.

(** The ways and the relations that the scanner has delivered. *)
Definition waysOf (objs : list object) : list Way :=
  omap (fun o => match o with ObjWay w => Some w | _ => None end) objs.

Definition relationsOf (objs : list object) : list Relation :=
  omap (fun o => match o with ObjRelation r => Some r | _ => None end) objs.

(** The tag map has highway = [value]. *)
Definition hasHighway (value : string) (v : NodeValue) : bool :=
  bool_decide (Tags_Map (Tags v) !! "highway" = Some value).

(** The key under which the statistic loop counts a node: the value of
    its first tag with key fzk_turning, or not_set. *)
Definition statisticKey (v : NodeValue) : string :=
  default "not_set" (firstFzkValue (Tags v)).

(** The entries of the table whose node is counted under [k]. *)
Definition entriesWithKey (st : state) (k : string) : list (Z * nat) :=
  filter (fun e => statisticKey (valueAt st e.2) = k) (map_to_list (turningCircleLoop st)).

(** ** The bounding box of the report

    [math.MaxFloat64] is (2^53 - 1) * 2^971.  The comparisons of Go on
    float64 are those of IEEE 754: [a < b] is [SFltb a b], false when
    one side is NaN. *)
Definition MaxFloat64 : float64 := S754_finite false (2 ^ 53 - 1) 971.
Definition NegMaxFloat64 : float64 := S754_finite true (2 ^ 53 - 1) 971.

Record bounds := mkBounds {
  minLat : float64; maxLat : float64;
  minLon : float64; maxLon : float64;
}.

Definition initBounds : bounds :=
  mkBounds MaxFloat64 NegMaxFloat64 MaxFloat64 NegMaxFloat64.

(** The four tests of the node case, in the order of the code. *)
Definition boundsObject (b : bounds) (o : object) : bounds :=
  match o with
  | ObjNode e _ =>
    let b := if SFltb (maxLat b) (Lat e)
             then mkBounds (minLat b) (Lat e) (minLon b) (maxLon b) else b in
    let b := if SFltb (Lat e) (minLat b)
             then mkBounds (Lat e) (maxLat b) (minLon b) (maxLon b) else b in
    let b := if SFltb (maxLon b) (Lon e)
             then mkBounds (minLat b) (maxLat b) (minLon b) (Lon e) else b in
    if SFltb (Lon e) (minLon b)
    then mkBounds (minLat b) (maxLat b) (Lon e) (maxLon b) else b
  | _ => b
  end.

Definition scanBounds (objs : list object) : bounds := foldl boundsObject initBounds objs.

Definition isNaN (f : float64) : bool :=
  match f with S754_nan => true | _ => false end.

(** ** Release v0.1.0 (unnamed/part_001)

    The first release duplicates junction points only.  Its
    [duplicateNetworkJunctionPoint] copies the pointer, not the node:
    [newOsmNode := sourceOsmNode] makes both names stand for the node
    that the scanner handed out, and the assignments go to that node.
    The identifier counter [nodeID] and the counter
    [juctionPointsWritten] are local variables of [main]. *)
Module V010.

(** [p.ID = id] *)
Definition storeID (p : nat) (id : Z) : M unit :=
  modify (fun st =>
    set_heap (<[p := set_ID id (default zeroNode (heap st !! p))]> (heap st)) st).

Section Program.
Variable growslice : nat -> nat -> nat.

(** duplicateNetworkJunctionPoint (part_001 389-417) *)
Definition duplicateNetworkJunctionPoint (sourceOsmNode : nat) (nodeID : Z)
    (refKey refValue nameKey nameValue : string) : M unit :=
  let newOsmNode := sourceOsmNode in
  storeID newOsmNode nodeID ;;;
  storeTags newOsmNode emptySlice ;;;
  appendTag growslice newOsmNode (mkTag "fzk_network:type" "node_network") ;;;
  appendTag growslice newOsmNode (mkTag refKey refValue) ;;;
  (if negb (String.eqb nameValue "")
   then appendTag growslice newOsmNode (mkTag nameKey nameValue)
   else ret tt) ;;;
  n <~ deref newOsmNode ;;
  data <~ marshal n ;;
  write (NodeElem data).

(** One of the six blocks of the node case: the pair is
    ([nodeID], [juctionPointsWritten]). *)
Definition duplicateIfFound (e : nat) (tags : gmap string string)
    (nameValue refKey : string) (c : Z * Z) : M (Z * Z) :=
  match tags !! refKey with
  | Some refValue =>
    duplicateNetworkJunctionPoint e c.1 refKey refValue "name" nameValue ;;;
    ret (wrap64 (c.1 + 1), wrap64 (c.2 + 1))
  | None => ret c
  end.

(** The node case of the scanner loop (part_001 177-234), after the
    statistics. *)
Definition processNode (e : nat) (c : Z * Z) : M (Z * Z) :=
  n <~ deref e ;;
  tags <~ TagMap n ;;
  if 0 <? size tags then
    match tags !! "network:type" with
    | Some tagValue =>
      if String.eqb tagValue "node_network" then
        let nameValue := default "" (tags !! "name") in
        c <~ duplicateIfFound e tags nameValue "rcn_ref" c ;;
        c <~ duplicateIfFound e tags nameValue "rwn_ref" c ;;
        c <~ duplicateIfFound e tags nameValue "rin_ref" c ;;
        c <~ duplicateIfFound e tags nameValue "rhn_ref" c ;;
        c <~ duplicateIfFound e tags nameValue "rpn_ref" c ;;
        c <~ duplicateIfFound e tags nameValue "rmn_ref" c ;;
        ret c
      else ret c
    | None => ret c
    end
  else ret c.

(** The blocks of the node case one after the other, for a list of
    reference keys. *)
Fixpoint duplicateAll (e : nat) (tags : gmap string string) (nameValue : string)
    (refKeys : list string) (c : Z * Z) : M (Z * Z) :=
  match refKeys with
  | [] => ret c
  | refKey :: rest =>
    c <~ duplicateIfFound e tags nameValue refKey c ;;
    duplicateAll e tags nameValue rest c
  end.

(** The scanner loop (part_001 152-262) without the statistics: ways
    and relations only feed the statistics.  As in release v0.2.0 the
    cases are taken after their call of [stats.Add] (part_001 159, 238,
    247), which can panic. *)
Definition processObject (o : object) (c : Z * Z) : M (Z * Z) :=
  match o with
  | ObjNode v spare => e <~ scanNode v spare ;; processNode e c
  | ObjWay _ => ret c
  | ObjRelation _ => ret c
  end.

Fixpoint scanLoop (objs : list object) (c : Z * Z) : M (Z * Z) :=
  match objs with
  | [] => ret c
  | o :: rest => c <~ processObject o c ;; scanLoop rest c
  end.

(** From the header of the output file (part_001 118-125) to the end
    of the scanner loop; the result is [nodeID] and
    [juctionPointsWritten]. *)
Definition scanPhase (start : Z) (objs : list object) : M (Z * Z) :=
  write XmlDecl ;;;
  write OsmOpen ;;;
  scanLoop objs (start, 0%Z).

End Program.

(** The tags that a duplicate carries. *)
Definition duplicateTags (refKey refValue nameKey nameValue : string) : list Tag :=
  [mkTag "fzk_network:type" "node_network"; mkTag refKey refValue]
  ++ (if String.eqb nameValue "" then [] else [mkTag nameKey nameValue]).

(** The reference keys of the six blocks, in the order of the code. *)
Definition referenceKeys : list string :=
  ["rcn_ref"; "rwn_ref"; "rin_ref"; "rhn_ref"; "rpn_ref"; "rmn_ref"].

(** The keys of the six blocks that the tag map has, with their values. *)
Definition foundReferences (tags : gmap string string) : list (string * string) :=
  omap (fun k => (fun v => (k, v)) <$> tags !! k) referenceKeys.

(** The duplicates of a junction point: one for every reference found,
    numbered from [nodeID]. *)
Definition duplicates (v : NodeValue) (nodeID : Z) : list NodeValue :=
  let tags := Tags_Map (Tags v) in
  imap (fun i r => set_ID (bump i nodeID)
                     (set_Tags (duplicateTags r.1 r.2 "name" (default "" (tags !! "name"))) v))
       (foundReferences tags).

Definition duplicatesOf (v : NodeValue) (nodeID : Z) : list NodeValue :=
  if isNodeNetwork (Tags_Map (Tags v)) then duplicates v nodeID else [].

(** The duplicates of a sequence of nodes, numbered through. *)
Fixpoint allDuplicates (vs : list NodeValue) (nodeID : Z) : list NodeValue :=
  match vs with
  | [] => []
  | v :: rest =>
    duplicatesOf v nodeID
    ++ allDuplicates rest (bump (length (duplicatesOf v nodeID)) nodeID)
  end.

(** The nodes of the heap at the end: a node that was duplicated is
    its last duplicate. *)
Fixpoint finalNodes (vs : list NodeValue) (nodeID : Z) : list NodeValue :=
  match vs with
  | [] => []
  | v :: rest =>
    default v (last (duplicatesOf v nodeID))
    :: finalNodes rest (bump (length (duplicatesOf v nodeID)) nodeID)
  end.

End V010.

(** The statistics after an object whose [stats.Add] returns, and
    after a sequence of objects. *)
Definition statsStep (elementID : object -> option ElementID)
    (s : elementStats) (o : object) : elementStats :=
  match elementID o with
  | Some id => elementStats_Add s id (objectTags o)
  | None => s
  end.

Definition statsAfter (elementID : object -> option ElementID) (objs : list object)
  : elementStats :=
  foldl (statsStep elementID) newElementStats objs.

(** * Lemmas *)

(** ** Records *)

Lemma Tags_set_Tags {T U} (t : U) (n : NodeOf T) : Tags (set_Tags t n) = t.
Proof. reflexivity. Qed.

Lemma ID_set_Tags {T U} (t : U) (n : NodeOf T) : ID (set_Tags t n) = ID n.
Proof. reflexivity. Qed.

Lemma set_Tags_set_Tags {T U V} (t : U) (u : V) (n : NodeOf T) :
  set_Tags u (set_Tags t n) = set_Tags u n.
Proof. reflexivity. Qed.

Lemma set_Tags_id {T} (n : NodeOf T) : set_Tags (Tags n) n = n.
Proof. by destruct n. Qed.

(** ** Running the monad *)

Lemma exec_bind {A B} (c : M A) (k : A -> M B) st :
  exec (bind c k) st = exec (k (fst (c st))) (snd (c st)).
Proof. unfold exec, bind. by destruct (c st). Qed.

Lemma exec_seq {A B} (c : M A) (k : M B) st :
  exec (c ;;; k) st = exec k (exec c st).
Proof. unfold exec, bind. by destruct (c st). Qed.

Lemma exec_bind_gets {A B} (f : state -> A) (k : A -> M B) st :
  exec (bind (gets f) k) st = exec (k (f st)) st.
Proof. reflexivity. Qed.

Lemma exec_bind_deref {B} p (k : Node -> M B) st :
  exec (bind (deref p) k) st = exec (k (default zeroNode (heap st !! p))) st.
Proof. reflexivity. Qed.

Lemma exec_bind_readTags {B} s (k : list Tag -> M B) st :
  exec (bind (readTags s) k) st = exec (k (slice_read (arrays st) s)) st.
Proof. reflexivity. Qed.

Lemma exec_bind_TagMap {B} n (k : gmap string string -> M B) st :
  exec (bind (TagMap n) k) st
  = exec (k (Tags_Map (slice_read (arrays st) (Tags n)))) st.
Proof. reflexivity. Qed.

Lemma exec_ret {A} (a : A) st : exec (ret a) st = st.
Proof. reflexivity. Qed.

Lemma exec_modify f st : exec (modify f) st = f st.
Proof. reflexivity. Qed.

Section Store.

Variable growslice : nat -> nat -> nat.

Lemma values_lookup st p n :
  heap st !! p = Some n ->
  values st !! p = Some (set_Tags (slice_read (arrays st) (Tags n)) n).
Proof. intros H. unfold values. by rewrite list_lookup_fmap, H. Qed.

Lemma values_length st : length (values st) = length (heap st).
Proof. unfold values. by rewrite length_fmap. Qed.

Lemma tagsAt_values st p v :
  values st !! p = Some v -> tagsAt st p = Tags v.
Proof.
  unfold values, tagsAt. rewrite list_lookup_fmap.
  destruct (heap st !! p) as [n|]; simpl; [|done].
  intros [= <-]. done.
Qed.

Lemma appendTag_spec st p n t :
  Inv st -> heap st !! p = Some n ->
  let st' := exec (appendTag growslice p t) st in
  Inv st' /\ sameRest st st' /\
  values st' = <[p := set_Tags (slice_read (arrays st) (Tags n) ++ [t]) n]> (values st).
Proof.
  intros HI Hp.
  destruct (inv_wf _ HI _ _ Hp) as (arr & Harr & Hlen & Hle).
  assert (Hplt : p < length (heap st)) by (eapply lookup_lt_Some; eauto).
  unfold appendTag, exec, bind, deref, gets, storeTags, modify, append; simpl.
  rewrite Hp; simpl. rewrite Harr; simpl.
  destruct (sl_len (Tags n) <? sl_cap (Tags n)) eqn:Hc; simpl.
  - apply Nat.ltb_lt in Hc. rewrite Hp. simpl.
    assert (Hb : sl_base (Tags n) < length (arrays st)) by (eapply lookup_lt_Some; eauto).
    split; [|split].
    + constructor; simpl.
      * intros q m Hq. destruct (decide (q = p)) as [->|Hne].
        -- rewrite list_lookup_insert_eq in Hq by done. injection Hq as <-. simpl.
           exists (<[sl_len (Tags n) := t]> arr). simpl.
           rewrite list_lookup_insert_eq by done. rewrite length_insert. split; [done|]. lia.
        -- rewrite list_lookup_insert_ne in Hq by done.
           destruct (inv_wf _ HI _ _ Hq) as (arr' & Harr' & Hlen' & Hle').
           exists arr'. split; [|done].
           rewrite list_lookup_insert_ne; [done|].
           intros Hbase. apply Hne. symmetry in Hbase. eapply (inv_sep _ HI); eauto.
      * intros q1 q2 m1 m2 H1 H2 Hbase.
        destruct (decide (q1 = p)) as [->|Hne1], (decide (q2 = p)) as [->|Hne2]; [done| | |].
        -- rewrite list_lookup_insert_eq in H1 by done. injection H1 as <-.
           rewrite list_lookup_insert_ne in H2 by done. simpl in Hbase.
           eapply (inv_sep _ HI); eauto.
        -- rewrite list_lookup_insert_eq in H2 by done. injection H2 as <-.
           rewrite list_lookup_insert_ne in H1 by done. simpl in Hbase.
           eapply (inv_sep _ HI); eauto.
        -- rewrite list_lookup_insert_ne in H1, H2 by done.
           eapply (inv_sep _ HI); eauto.
      * intros k q Hk. destruct (inv_tbl _ HI _ _ Hk) as (m & Hm & Hid).
        destruct (decide (q = p)) as [->|Hne].
        -- rewrite list_lookup_insert_eq by done. eexists; split; [done|]. simpl. congruence.
        -- rewrite list_lookup_insert_ne by done. eauto.
    + done.
    + unfold values; simpl. apply list_eq. intros q.
      rewrite list_lookup_fmap.
      destruct (decide (q = p)) as [->|Hne].
      * rewrite !list_lookup_insert_eq by (rewrite ?length_fmap; done).
        cbn [fmap option_fmap option_map]. cbn beta.
        rewrite set_Tags_set_Tags, Tags_set_Tags.
        unfold slice_read; cbn [sl_base sl_len]. rewrite list_lookup_insert_eq by done.
        rewrite Harr; cbn [default from_option id].
        do 2 f_equal.
        rewrite take_S_r with (x := t) by (apply list_lookup_insert_eq; lia).
        by rewrite take_insert_ge by lia.
      * rewrite !list_lookup_insert_ne by done.
        rewrite list_lookup_fmap.
        destruct (heap st !! q) as [m|] eqn:Hq; simpl; [|done].
        unfold slice_read. rewrite list_lookup_insert_ne; [done|].
        intros Hbase. apply Hne. symmetry in Hbase. eapply (inv_sep _ HI); eauto.
  - apply Nat.ltb_ge in Hc. rewrite Hp. simpl.
    assert (Hfull : sl_len (Tags n) = length arr) by lia.
    set (newcap := S (sl_len (Tags n)) `max` growslice (sl_cap (Tags n)) (S (sl_len (Tags n)))).
    split; [|split].
    + constructor; simpl.
      * intros q m Hq. destruct (decide (q = p)) as [->|Hne].
        -- rewrite list_lookup_insert_eq in Hq by done. injection Hq as <-. simpl.
           eexists. rewrite lookup_app_r by done. rewrite Nat.sub_diag. simpl.
           split; [done|]. rewrite length_app; simpl. rewrite length_take, length_replicate.
           lia.
        -- rewrite list_lookup_insert_ne in Hq by done.
           destruct (inv_wf _ HI _ _ Hq) as (arr' & Harr' & Hlen' & Hle').
           exists arr'. split; [|done]. by apply lookup_app_l_Some.
      * intros q1 q2 m1 m2 H1 H2 Hbase.
        destruct (decide (q1 = p)) as [->|Hne1], (decide (q2 = p)) as [->|Hne2]; [done| | |].
        -- rewrite list_lookup_insert_eq in H1 by done. injection H1 as <-.
           rewrite list_lookup_insert_ne in H2 by done. simpl in Hbase.
           destruct (inv_wf _ HI _ _ H2) as (arr' & Harr' & _).
           apply lookup_lt_Some in Harr'. lia.
        -- rewrite list_lookup_insert_eq in H2 by done. injection H2 as <-.
           rewrite list_lookup_insert_ne in H1 by done. simpl in Hbase.
           destruct (inv_wf _ HI _ _ H1) as (arr' & Harr' & _).
           apply lookup_lt_Some in Harr'. lia.
        -- rewrite list_lookup_insert_ne in H1, H2 by done.
           eapply (inv_sep _ HI); eauto.
      * intros k q Hk. destruct (inv_tbl _ HI _ _ Hk) as (m & Hm & Hid).
        destruct (decide (q = p)) as [->|Hne].
        -- rewrite list_lookup_insert_eq by done. eexists; split; [done|]. simpl. congruence.
        -- rewrite list_lookup_insert_ne by done. eauto.
    + done.
    + unfold values; simpl. apply list_eq. intros q.
      rewrite list_lookup_fmap.
      destruct (decide (q = p)) as [->|Hne].
      * rewrite !list_lookup_insert_eq by (rewrite ?length_fmap; done).
        cbn [fmap option_fmap option_map]. cbn beta.
        rewrite set_Tags_set_Tags, Tags_set_Tags.
        unfold slice_read; cbn [sl_base sl_len]. rewrite lookup_app_r by done.
        rewrite Nat.sub_diag. cbn [lookup list_lookup default from_option id].
        rewrite Harr; cbn [default from_option id].
        do 2 f_equal. rewrite Hfull, firstn_all.
        change (t :: replicate (newcap - S (length arr)) zeroTag)
          with ([t] ++ replicate (newcap - S (length arr)) zeroTag).
        rewrite app_assoc. rewrite take_app_length'; [done|]. rewrite length_app. simpl. lia.
      * rewrite !list_lookup_insert_ne by done.
        rewrite list_lookup_fmap.
        destruct (heap st !! q) as [m|] eqn:Hq; simpl; [|done].
        unfold slice_read.
        destruct (inv_wf _ HI _ _ Hq) as (arr' & Harr' & _).
        by rewrite (lookup_app_l_Some _ _ _ _ Harr'), Harr'.
Qed.

Lemma scanNode_spec st v spare :
  Inv st ->
  let r := scanNode v spare st in
  fst r = length (heap st) /\ Inv (snd r) /\ sameRest st (snd r) /\
  values (snd r) = values st ++ [v] /\
  length (heap (snd r)) = S (length (heap st)).
Proof.
  intros HI. unfold scanNode; simpl. split; [done|]. split; [|split; [done|split]].
  - constructor; simpl.
    + intros p n Hp. apply lookup_app_Some in Hp as [Hp|[Hge Hp]].
      * destruct (inv_wf _ HI _ _ Hp) as (arr & Harr & Hlen & Hle).
        exists arr. split; [|done]. by apply lookup_app_l_Some.
      * destruct (p - length (heap st)) as [|k] eqn:Hk; [|done].
        injection Hp as <-. rewrite Tags_set_Tags. cbn [sl_base sl_len sl_cap].
        eexists. rewrite lookup_app_r by done. rewrite Nat.sub_diag.
        split; [done|]. cbn [sl_base sl_len sl_cap].
        rewrite length_app, length_replicate. lia.
    + intros p q n m Hp Hq Hbase.
      apply lookup_app_Some in Hp as [Hp|[Hpge Hp]];
        apply lookup_app_Some in Hq as [Hq|[Hqge Hq]].
      * eapply (inv_sep _ HI); eauto.
      * destruct (q - length (heap st)) as [|k]; [|done]. injection Hq as <-.
        rewrite Tags_set_Tags in Hbase. cbn [sl_base] in Hbase.
        destruct (inv_wf _ HI _ _ Hp) as (arr & Harr & _).
        apply lookup_lt_Some in Harr. lia.
      * destruct (p - length (heap st)) as [|k]; [|done]. injection Hp as <-.
        rewrite Tags_set_Tags in Hbase. cbn [sl_base] in Hbase.
        destruct (inv_wf _ HI _ _ Hq) as (arr & Harr & _).
        apply lookup_lt_Some in Harr. lia.
      * destruct (p - length (heap st)) as [|k] eqn:Hk; [|done].
        destruct (q - length (heap st)) as [|k'] eqn:Hk'; [|done]. lia.
    + intros k p Hk. destruct (inv_tbl _ HI _ _ Hk) as (n & Hn & Hid).
      exists n. split; [|done]. by apply lookup_app_l_Some.
  - unfold values; simpl. rewrite fmap_app. f_equal.
    + apply list_fmap_ext. intros i n Hn. f_equal. unfold slice_read.
      destruct (inv_wf _ HI _ _ Hn) as (arr & Harr & _).
      by rewrite (lookup_app_l_Some _ _ _ _ Harr), Harr.
    + cbn [fmap list_fmap]. rewrite set_Tags_set_Tags, Tags_set_Tags. unfold slice_read.
      cbn [sl_base sl_len]. rewrite lookup_app_r by done. rewrite Nat.sub_diag.
      cbn [lookup list_lookup default from_option id].
      rewrite take_app_length. by rewrite set_Tags_id.
  - simpl. rewrite length_app. simpl. lia.
Qed.

(** *** Blocks of [createNewNodeNetworkObject] *)

Lemma emits_ret src : emits (ret tt) src [].
Proof.
  intros st. simpl. repeat split; try done.
  - exists []. by rewrite app_nil_r.
  - by rewrite app_nil_r.
Qed.

Lemma bump_add a b id : bump (a + b) id = bump b (bump a id).
Proof.
  unfold bump. revert id. induction b as [|b IH]; intros id.
  - by rewrite Nat.add_0_r.
  - rewrite Nat.add_succ_r. simpl. by rewrite IH.
Qed.

Lemma derivedItems_app {T} (src : NodeOf T) id r1 r2 :
  derivedItems src id (r1 ++ r2) =
  derivedItems src id r1 ++ derivedItems src (bump (length r1) id) r2.
Proof.
  revert id. induction r1 as [|r r1 IH]; intros id; [done|].
  simpl. rewrite IH. do 3 f_equal.
  change (wrap64 (id + 1)) with (bump 1 id).
  change (wrap64 (bump (length r1) id + 1)) with (bump 1 (bump (length r1) id)).
  rewrite <- !bump_add. f_equal. lia.
Qed.

Lemma emits_bind c1 c2 src r1 r2 :
  emits c1 src r1 -> emits c2 src r2 -> emits (c1 ;;; c2) src (r1 ++ r2).
Proof.
  intros H1 H2 st.
  specialize (H1 st). cbv zeta in H1. destruct H1 as (Hh & Ht & Hm & [e1 Ha] & Hn & Hw).
  specialize (H2 (exec c1 st)). cbv zeta in H2.
  destruct H2 as (Hh2 & Ht2 & Hm2 & [e2 Ha2] & Hn2 & Hw2).
  assert (Hex : exec (c1 ;;; c2) st = exec c2 (exec c1 st)).
  { unfold exec, bind. by destruct (c1 st). }
  cbv zeta. rewrite Hex. repeat split.
  - congruence.
  - congruence.
  - congruence.
  - exists (e1 ++ e2). rewrite Ha2, Ha. by rewrite app_assoc.
  - rewrite Hn2, Hn, length_app. by rewrite bump_add.
  - rewrite Hw2, Hw, Hn. rewrite derivedItems_app. by rewrite app_assoc.
Qed.

Lemma append_grow s t st :
  sl_cap s <= sl_len s ->
  append growslice s t st =
  (mkSlice (length (arrays st)) (S (sl_len s))
     (S (sl_len s) `max` growslice (sl_cap s) (S (sl_len s))),
   set_arrays (arrays st ++
     [take (sl_len s) (default [] (arrays st !! sl_base s)) ++
      t :: replicate ((S (sl_len s) `max` growslice (sl_cap s) (S (sl_len s)))
                      - S (sl_len s)) zeroTag]) st).
Proof.
  intros H. unfold append. apply Nat.ltb_ge in H. by rewrite H.
Qed.

Lemma append_inplace s t st :
  sl_len s < sl_cap s ->
  append growslice s t st =
  (mkSlice (sl_base s) (S (sl_len s)) (sl_cap s),
   set_arrays (<[sl_base s := <[sl_len s := t]> (default [] (arrays st !! sl_base s))]>
               (arrays st)) st).
Proof.
  intros H. unfold append. apply Nat.ltb_lt in H. by rewrite H.
Qed.

Lemma emits_appendTagsAndWrite src label refValue :
  emits (appendTagsAndWrite growslice label refValue
           (set_Tags emptySlice (set_ID 0%Z src))) src [(label, refValue)].
Proof.
  intros st. unfold appendTagsAndWrite, exec, bind.
  rewrite Tags_set_Tags. rewrite append_grow by (simpl; lia).
  cbn [emptySlice sl_len sl_cap sl_base]. rewrite Tags_set_Tags.
  set (cap1 := 1 `max` growslice 0 1).
  set (arr1 := take 0 (default [] (arrays st !! 0)) ++
               mkTag "node_network" label :: replicate (cap1 - 1) zeroTag).
  assert (Harr1 : arr1 = mkTag "node_network" label :: replicate (cap1 - 1) zeroTag)
    by done.
  destruct (decide (1 < cap1)) as [Hlt|Hge].
  - rewrite append_inplace by done.
    cbn [sl_len sl_cap sl_base arrays set_arrays].
    rewrite lookup_app_r by done. rewrite Nat.sub_diag.
    cbn [lookup list_lookup default from_option id].
    rewrite insert_app_r_alt by done. rewrite Nat.sub_diag.
    cbn [insert list_insert].
    unfold writeNewNodeObject, marshal, readTags, write, bind, gets, modify, ret.
    cbn [fst snd arrays set_arrays heap newNodeID writer turningCircleLoop
         turningCircleLoopModified set_newNodeID set_writer].
    repeat split.
    + eexists. reflexivity.
    + unfold slice_read, spec_derived.
      cbn [Tags set_ID set_Tags ID Lat Lon User UserID Visible Version ChangesetID
           Timestamp Committed sl_len sl_base fst snd derivedItems].
      rewrite lookup_app_r by done. rewrite Nat.sub_diag.
      cbn [lookup list_lookup default from_option id]. rewrite Harr1.
      destruct (cap1 - 1) as [|k] eqn:Hk; [lia|]. reflexivity.
  - rewrite append_grow by (simpl; lia).
    cbn [sl_len sl_cap sl_base arrays set_arrays].
    rewrite lookup_app_r by done. rewrite Nat.sub_diag.
    cbn [lookup list_lookup default from_option id].
    unfold writeNewNodeObject, marshal, readTags, write, bind, gets, modify, ret.
    cbn [fst snd arrays set_arrays heap newNodeID writer turningCircleLoop
         turningCircleLoopModified set_newNodeID set_writer].
    repeat split.
    + eexists. rewrite <- app_assoc. reflexivity.
    + unfold slice_read, spec_derived.
      cbn [Tags set_ID set_Tags ID Lat Lon User UserID Visible Version ChangesetID
           Timestamp Committed sl_len sl_base fst snd derivedItems].
      rewrite lookup_app_r by done. rewrite Nat.sub_diag.
      cbn [lookup list_lookup default from_option id]. rewrite Harr1. reflexivity.
Qed.

Lemma emits_chain4 src tags label k1 k2 k3 k4 :
  emits
    (let newOsmNode := set_Tags emptySlice (set_ID 0%Z src) in
     match tags !! k1 with
     | Some refValue => appendTagsAndWrite growslice label refValue newOsmNode
     | None =>
       match tags !! k2 with
       | Some refValue => appendTagsAndWrite growslice label refValue newOsmNode
       | None =>
         match tags !! k3 with
         | Some refValue => appendTagsAndWrite growslice label refValue newOsmNode
         | None =>
           match tags !! k4 with
           | Some refValue => appendTagsAndWrite growslice label refValue newOsmNode
           | None => ret tt
           end
         end
       end
     end) src (spec_request tags (label, [k1; k2; k3; k4])).
Proof.
  unfold spec_request. cbn [fst snd spec_firstPresent].
  destruct (tags !! k1); [apply emits_appendTagsAndWrite|].
  destruct (tags !! k2); [apply emits_appendTagsAndWrite|].
  destruct (tags !! k3); [apply emits_appendTagsAndWrite|].
  destruct (tags !! k4); [apply emits_appendTagsAndWrite|].
  apply emits_ret.
Qed.

Lemma emits_single src tags label k :
  emits
    (let newOsmNode := set_Tags emptySlice (set_ID 0%Z src) in
     match tags !! k with
     | Some refValue => appendTagsAndWrite growslice label refValue newOsmNode
     | None => ret tt
     end) src (spec_request tags (label, [k])).
Proof.
  unfold spec_request. cbn [fst snd spec_firstPresent].
  destruct (tags !! k); [apply emits_appendTagsAndWrite|apply emits_ret].
Qed.

(** [createNewNodeNetworkObject] writes the derived nodes of the
    requests of the tag map of its source node, in the order of the
    categories, and leaves nodes, table and existing arrays alone. *)
Lemma createNewNodeNetworkObject_spec st e :
  let src := default zeroNode (heap st !! e) in
  let rs := spec_requests (Tags_Map (slice_read (arrays st) (Tags src))) in
  let st' := exec (createNewNodeNetworkObject growslice e) st in
  heap st' = heap st /\
  turningCircleLoop st' = turningCircleLoop st /\
  turningCircleLoopModified st' = turningCircleLoopModified st /\
  (exists ext, arrays st' = arrays st ++ ext) /\
  newNodeID st' = bump (length rs) (newNodeID st) /\
  writer st' = writer st ++ derivedItems src (newNodeID st) rs.
Proof.
  intros src rs st'.
  set (tags := Tags_Map (slice_read (arrays st) (Tags src))) in *.
  assert (Hrs : rs =
    spec_request tags ("node_bicycle", spec_bicycleKeys) ++
    spec_request tags ("node_hiking", spec_hikingKeys) ++
    spec_request tags ("node_inline_skates", ["rin_ref"]) ++
    spec_request tags ("node_horse", ["rhn_ref"]) ++
    spec_request tags ("node_canoe", ["rpn_ref"]) ++
    spec_request tags ("node_motorboat", ["rmn_ref"])).
  { unfold rs, spec_requests, spec_categories. cbn [fmap list_fmap concat].
    by rewrite app_nil_r. }
  rewrite Hrs. subst st'.
  unfold createNewNodeNetworkObject.
  rewrite exec_bind_deref, exec_bind_TagMap. fold src. fold tags.
  match goal with
  | |- context [exec ?c st] =>
    enough (H : emits c src
      (spec_request tags ("node_bicycle", spec_bicycleKeys) ++
       spec_request tags ("node_hiking", spec_hikingKeys) ++
       spec_request tags ("node_inline_skates", ["rin_ref"]) ++
       spec_request tags ("node_horse", ["rhn_ref"]) ++
       spec_request tags ("node_canoe", ["rpn_ref"]) ++
       spec_request tags ("node_motorboat", ["rmn_ref"]))) by apply (H st)
  end.
  apply emits_bind; [apply emits_chain4|].
  apply emits_bind; [apply emits_chain4|].
  apply emits_bind; [apply emits_single|].
  apply emits_bind; [apply emits_single|].
  apply emits_bind; [apply emits_single|].
  apply emits_single.
Qed.

(** Allocating further arrays changes no node. *)
Lemma Inv_extend st st' ext :
  Inv st -> heap st' = heap st -> turningCircleLoop st' = turningCircleLoop st ->
  arrays st' = arrays st ++ ext ->
  Inv st' /\ values st' = values st.
Proof.
  intros HI Hh Ht Ha. split.
  - constructor.
    + intros p n Hp. rewrite Hh in Hp. rewrite Ha.
      destruct (inv_wf _ HI _ _ Hp) as (arr & Harr & Hlen & Hle).
      exists arr. split; [|done]. by apply lookup_app_l_Some.
    + intros p q n m Hp Hq. rewrite Hh in Hp, Hq. eapply (inv_sep _ HI); eauto.
    + intros k p Hk. rewrite Ht in Hk. rewrite Hh. eapply (inv_tbl _ HI); eauto.
  - unfold values. rewrite Hh, Ha. apply list_fmap_ext. intros i n Hn. f_equal.
    unfold slice_read. destruct (inv_wf _ HI _ _ Hn) as (arr & Harr & _).
    by rewrite (lookup_app_l_Some _ _ _ _ Harr), Harr.
Qed.

Lemma Inv_same_store st st' :
  Inv st -> heap st' = heap st -> arrays st' = arrays st ->
  turningCircleLoop st' = turningCircleLoop st -> Inv st'.
Proof.
  intros HI Hh Ha Ht. constructor.
  - intros p n. rewrite Hh, Ha. apply (inv_wf _ HI).
  - intros p q n m. rewrite Hh. apply (inv_sep _ HI).
  - intros k p. rewrite Hh, Ht. apply (inv_tbl _ HI).
Qed.

Lemma Inv_table_values st k p :
  Inv st -> turningCircleLoop st !! k = Some p ->
  exists v, values st !! p = Some v /\ ID v = k.
Proof.
  intros HI Hk. destruct (inv_tbl _ HI _ _ Hk) as (n & Hn & Hid).
  eexists. split; [by apply values_lookup|]. by rewrite ID_set_Tags.
Qed.

Lemma values_heap st p v :
  values st !! p = Some v ->
  exists n, heap st !! p = Some n /\ v = set_Tags (slice_read (arrays st) (Tags n)) n.
Proof.
  unfold values. rewrite list_lookup_fmap.
  destruct (heap st !! p) as [n|]; [|done]. intros [= <-]. eauto.
Qed.

(** [appendTag] in terms of the values. *)
Lemma appendTag_values st p v t :
  Inv st -> values st !! p = Some v ->
  let st' := exec (appendTag growslice p t) st in
  Inv st' /\ sameRest st st' /\
  values st' = <[p := set_Tags (Tags v ++ [t]) v]> (values st).
Proof.
  intros HI Hv. destruct (values_heap _ _ _ Hv) as (n & Hn & ->).
  destruct (appendTag_spec st p n t HI Hn) as (HI' & Hr & Hvals).
  split; [done|]. split; [done|]. rewrite Hvals.
  by rewrite Tags_set_Tags, set_Tags_set_Tags.
Qed.

(** *** addHighwayTypeToTurningCircleLoop *)

Lemma fzkTagFound_app ts t :
  fzkTagFound (ts ++ [t]) = fzkTagFound ts || String.eqb (Key t) "fzk_turning".
Proof.
  induction ts as [|u ts IH]; simpl.
  - by destruct (String.eqb (Key t) "fzk_turning").
  - destruct (String.eqb (Key u) "fzk_turning"); [done|apply IH].
Qed.

Lemma annotated_withTag v x : annotated (withTag (fzkTag x) v) = true.
Proof.
  unfold annotated, withTag. rewrite Tags_set_Tags, fzkTagFound_app. simpl.
  apply orb_true_r.
Qed.

Lemma annotateNode_settled st hw found node :
  settled st (wn_ID node) -> annotateNode growslice hw found node st = (found, st).
Proof.
  intros Hs. unfold annotateNode, bind, gets. cbn beta iota.
  destruct (turningCircleLoop st !! wn_ID node) as [p|] eqn:Hp; [|done].
  unfold deref, readTags, gets. cbn beta iota.
  specialize (Hs p Hp). unfold tagsAt in Hs. by rewrite Hs.
Qed.

Lemma annotateNode_cases st hw found node :
  Inv st ->
  (annotateNode growslice hw found node st = (found, st) /\ settled st (wn_ID node))
  \/
  (exists p v,
     turningCircleLoop st !! wn_ID node = Some p /\ values st !! p = Some v /\
     annotated v = false /\
     let r := annotateNode growslice hw found node st in
     fst r = wrap64 (found + 1) /\ Inv (snd r) /\ sameRest st (snd r) /\
     values (snd r) = <[p := withTag (fzkTag hw) v]> (values st)).
Proof.
  intros HI.
  destruct (turningCircleLoop st !! wn_ID node) as [p|] eqn:Hp.
  - destruct (Inv_table_values _ _ _ HI Hp) as (v & Hv & Hid).
    destruct (annotated v) eqn:Hann.
    + left. assert (Hs : settled st (wn_ID node)).
      { intros q Hq. rewrite Hp in Hq. injection Hq as <-.
        by rewrite (tagsAt_values _ _ _ Hv). }
      split; [by apply annotateNode_settled|done].
    + right. exists p, v. split; [done|]. split; [done|]. split; [done|].
      unfold annotateNode, bind, gets. cbn beta iota. rewrite Hp.
      unfold deref, readTags, gets. cbn beta iota.
      pose proof (tagsAt_values _ _ _ Hv) as Ht. unfold tagsAt in Ht. rewrite Ht.
      unfold annotated in Hann. rewrite Hann.
      destruct (appendTag_values st p v (fzkTag hw) HI Hv) as (HI' & Hr & Hvals).
      unfold exec in HI', Hr, Hvals. unfold fzkTag in *.
      destruct (appendTag growslice p (mkTag "fzk_turning" hw) st) as [u st1].
      unfold ret. simpl in *. done.
  - left. assert (Hs : settled st (wn_ID node)).
    { intros q Hq. by rewrite Hp in Hq. }
    split; [by apply annotateNode_settled|done].
Qed.

Lemma annotateLoop_settled st hw found nodes :
  (forall node, node ∈ nodes -> settled st (wn_ID node)) ->
  annotateLoop growslice hw found nodes st = (found, st).
Proof.
  induction nodes as [|node rest IH]; intros Hs; [done|].
  cbn [annotateLoop]. unfold bind.
  rewrite annotateNode_settled by (apply Hs; left).
  apply IH. intros n Hn. apply Hs. by right.
Qed.

(** The state after the loop, node by node. *)
Lemma annotateLoop_values nodes : forall st hw found,
  Inv st ->
  let r := annotateLoop growslice hw found nodes st in
  Inv (snd r) /\ sameRest st (snd r) /\
  length (values (snd r)) = length (values st) /\
  forall p v, values st !! p = Some v ->
    values (snd r) !! p =
    Some (if annotated v then v
          else if referenced (turningCircleLoop st) nodes p
               then withTag (fzkTag hw) v else v).
Proof.
  induction nodes as [|node rest IH]; intros st hw found HI.
  - simpl. split; [done|]. split; [done|]. split; [done|].
    intros p v Hv. rewrite Hv. by destruct (annotated v).
  - cbn [annotateLoop]. unfold bind.
    destruct (annotateNode_cases st hw found node HI)
      as [[Heq Hs]|(p0 & v0 & Hp0 & Hv0 & Hann0 & Hstep)].
    + rewrite Heq. destruct (IH st hw found HI) as (HI' & Hr & Hlen & Hvals).
      split; [done|]. split; [done|]. split; [done|].
      intros p v Hv. rewrite (Hvals p v Hv).
      destruct (annotated v) eqn:Hann; [done|].
      cbn [referenced existsb]. fold (referenced (turningCircleLoop st) rest p).
      case_bool_decide as Hd; [|done].
      specialize (Hs p Hd). rewrite (tagsAt_values _ _ _ Hv) in Hs.
      unfold annotated in Hann. congruence.
    + cbv zeta in Hstep.
      destruct (annotateNode growslice hw found node st) as [found1 st1].
      cbn [fst snd] in Hstep. destruct Hstep as (Hf & HI1 & Hr1 & Hvals1).
      destruct (IH st1 hw found1 HI1) as (HI' & Hr & Hlen & Hvals).
      destruct Hr1 as (Hn1 & Hw1 & Ht1 & Hm1). destruct Hr as (Hn & Hw & Ht & Hm).
      split; [done|]. split; [unfold sameRest; repeat split; congruence|].
      split; [rewrite Hlen, Hvals1; apply length_insert|].
      intros p v Hv.
      assert (Hp0lt : p0 < length (values st)) by (eapply lookup_lt_Some; eauto).
      destruct (decide (p = p0)) as [->|Hne].
      * assert (v = v0) as -> by congruence.
        rewrite (Hvals p0 (withTag (fzkTag hw) v0)).
        2:{ rewrite Hvals1. by apply list_lookup_insert_eq. }
        rewrite annotated_withTag, Hann0.
        cbn [referenced existsb]. rewrite bool_decide_eq_true_2 by done. done.
      * rewrite (Hvals p v).
        2:{ rewrite Hvals1. by rewrite list_lookup_insert_ne. }
        rewrite Ht1. destruct (annotated v); [done|].
        cbn [referenced existsb]. rewrite bool_decide_eq_false_2; [done|].
        rewrite Hp0. congruence.
Qed.

Lemma wrap64_small z : int64_range z -> wrap64 z = z.
Proof.
  unfold int64_range, wrap64. intros H.
  rewrite Z.mod_small by lia. lia.
Qed.

Lemma wrap64_range z : int64_range (wrap64 z).
Proof.
  unfold int64_range, wrap64.
  pose proof (Z.mod_pos_bound (z + 2 ^ 63) (2 ^ 64) ltac:(lia)). lia.
Qed.

Lemma filter_insert_count (l : list NodeValue) i x y :
  l !! i = Some x -> annotated x = false -> annotated y = true ->
  length (filter (fun v => annotated v = true) (<[i := y]> l))
  = S (length (filter (fun v => annotated v = true) l)).
Proof.
  intros Hl Hx Hy.
  assert (Hi : i < length l) by (eapply lookup_lt_Some; eauto).
  rewrite <- (take_drop_middle l i x Hl).
  assert (Hti : length (take i l) = i) by (rewrite length_take; lia).
  revert Hti. generalize (take i l) (drop (S i) l). intros l1 l2 Hti.
  rewrite insert_app_r_alt by lia. rewrite Hti, Nat.sub_diag. cbn [insert list_insert].
  rewrite !filter_app, !length_app.
  rewrite (filter_cons_True _ y) by done.
  rewrite (filter_cons_False _ x) by (rewrite Hx; done).
  simpl. lia.
Qed.

(** The value that the loop returns, and its bounds. *)
Lemma annotateLoop_count nodes : forall st hw found,
  Inv st -> (0 <= found)%Z -> (found + Z.of_nat (length nodes) < 2 ^ 63)%Z ->
  let r := annotateLoop growslice hw found nodes st in
  (fst r = found + (Z.of_nat (annotatedCount (snd r)) - Z.of_nat (annotatedCount st)))%Z /\
  (found <= fst r <= found + Z.of_nat (length nodes))%Z.
Proof.
  induction nodes as [|node rest IH]; intros st hw found HI H0 Hb.
  - simpl. lia.
  - cbn [annotateLoop]. unfold bind. cbn [length] in Hb.
    destruct (annotateNode_cases st hw found node HI)
      as [[Heq Hs]|(p0 & v0 & Hp0 & Hv0 & Hann0 & Hstep)].
    + rewrite Heq. destruct (IH st hw found HI H0 ltac:(lia)) as [H1 H2].
      split; [done|]. cbn [length]. lia.
    + cbv zeta in Hstep.
      destruct (annotateNode growslice hw found node st) as [found1 st1].
      cbn [fst snd] in Hstep. destruct Hstep as (Hf & HI1 & Hr1 & Hvals1).
      rewrite wrap64_small in Hf by (unfold int64_range; lia). subst found1.
      destruct (IH st1 hw (found + 1)%Z HI1 ltac:(lia) ltac:(lia)) as [H1 H2].
      assert (Hc : annotatedCount st1 = S (annotatedCount st)).
      { unfold annotatedCount. rewrite Hvals1.
        apply (filter_insert_count _ _ v0); [done|done|apply annotated_withTag]. }
      split; [rewrite H1, Hc; lia|]. cbn [length]. lia.
Qed.

(** Annotated nodes stay annotated; the number of annotated nodes
    grows by the number of nodes that become annotated. *)
Lemma annotatedCount_zip (l l' : list NodeValue) :
  Forall2 (fun v v' => annotated v = true -> annotated v' = true) l l' ->
  length (filter (fun v => annotated v = true) l')
  = length (filter (fun v => annotated v = true) l)
    + length (filter (fun vv => annotated vv.1 = false /\ annotated vv.2 = true)
                (zip l l')).
Proof.
  induction 1 as [|v v' l l' Hv Hl IH]; [done|].
  cbn [zip zip_with].
  destruct (annotated v) eqn:Ha.
  - rewrite (filter_cons_True _ v') by auto.
    rewrite (filter_cons_True _ v) by done.
    rewrite (filter_cons_False _ (v, v')) by (simpl; rewrite Ha; intros [? ?]; done).
    simpl. lia.
  - rewrite (filter_cons_False _ v) by (rewrite Ha; done).
    destruct (annotated v') eqn:Ha'.
    + rewrite (filter_cons_True _ v') by done.
      rewrite (filter_cons_True _ (v, v')) by (simpl; done).
      simpl. lia.
    + rewrite (filter_cons_False _ v') by (rewrite Ha'; done).
      rewrite (filter_cons_False _ (v, v'))
        by (simpl; rewrite Ha'; intros [? ?]; done).
      done.
Qed.

Lemma annotateLoop_monotone st hw found nodes :
  Inv st ->
  Forall2 (fun v v' => annotated v = true -> annotated v' = true)
          (values st) (values (snd (annotateLoop growslice hw found nodes st))).
Proof.
  intros HI.
  destruct (annotateLoop_values nodes st hw found HI) as (_ & _ & Hlen & Hvals).
  apply Forall2_same_length_lookup. split; [done|].
  intros p v v' Hv Hv' Ha. rewrite (Hvals p v Hv) in Hv'. rewrite Ha in Hv'.
  congruence.
Qed.

(** Later repetitions of a node reference are skipped. *)
Lemma annotateLoop_firstOccurrences nodes : forall st hw found seen,
  Inv st -> (forall id, id ∈ seen -> settled st id) ->
  annotateLoop growslice hw found nodes st
  = annotateLoop growslice hw found (firstOccurrences seen nodes) st.
Proof.
  induction nodes as [|node rest IH]; intros st hw found seen HI Hseen; [done|].
  cbn [firstOccurrences]. case_bool_decide as Hd.
  - cbn [annotateLoop]. unfold bind.
    rewrite annotateNode_settled by auto. by apply IH.
  - cbn [annotateLoop]. unfold bind.
    destruct (annotateNode_cases st hw found node HI)
      as [[Heq Hs]|(p0 & v0 & Hp0 & Hv0 & Hann0 & Hstep)].
    + rewrite Heq. apply IH; [done|].
      intros id Hid. apply elem_of_cons in Hid as [->|Hid]; auto.
    + cbv zeta in Hstep.
      destruct (annotateNode growslice hw found node st) as [found1 st1].
      cbn [fst snd] in Hstep. destruct Hstep as (Hf & HI1 & Hr1 & Hvals1).
      apply IH; [done|].
      destruct Hr1 as (_ & _ & Ht1 & _).
      assert (Hp0lt : p0 < length (values st)) by (eapply lookup_lt_Some; eauto).
      intros id Hid q Hq. rewrite Ht1 in Hq.
      destruct (decide (q = p0)) as [->|Hne].
      * rewrite (tagsAt_values st1 p0 (withTag (fzkTag hw) v0)).
        -- apply annotated_withTag.
        -- rewrite Hvals1. by apply list_lookup_insert_eq.
      * apply elem_of_cons in Hid as [->|Hid]; [congruence|].
        destruct (Inv_table_values _ _ _ HI Hq) as (v & Hv & _).
        rewrite (tagsAt_values st1 q v).
        -- rewrite <- (tagsAt_values _ _ _ Hv). by apply (Hseen id Hid).
        -- rewrite Hvals1. by rewrite list_lookup_insert_ne.
Qed.

Lemma firstOccurrences_length seen nodes :
  length (firstOccurrences seen nodes) <= length nodes.
Proof.
  revert seen. induction nodes as [|node rest IH]; intros seen; [done|].
  cbn [firstOccurrences]. case_bool_decide; simpl.
  - specialize (IH seen). lia.
  - specialize (IH (wn_ID node :: seen)). lia.
Qed.

Lemma firstOccurrences_NoDup seen nodes :
  NoDup (wn_ID <$> firstOccurrences seen nodes) /\
  (forall id, id ∈ (wn_ID <$> firstOccurrences seen nodes) ->
     (id ∉ seen) /\ (id ∈ (wn_ID <$> nodes))) /\
  (forall id, id ∈ (wn_ID <$> nodes) -> id ∉ seen ->
     id ∈ (wn_ID <$> firstOccurrences seen nodes)).
Proof.
  revert seen. induction nodes as [|node rest IH]; intros seen.
  - simpl. split; [constructor|]. split; intros id Hid; by apply elem_of_nil in Hid.
  - cbn [firstOccurrences]. case_bool_decide as Hd.
    + destruct (IH seen) as (Hnd & Hin & Hall). split; [done|]. split.
      * intros id Hid. destruct (Hin id Hid). split; [done|].
        rewrite fmap_cons. by right.
      * intros id Hid Hns. rewrite fmap_cons in Hid.
        apply elem_of_cons in Hid as [->|Hid]; [done|]. by apply Hall.
    + destruct (IH (wn_ID node :: seen)) as (Hnd & Hin & Hall).
      rewrite !fmap_cons. split; [|split].
      * constructor; [|done]. intros Hid. destruct (Hin _ Hid) as [Hns _].
        apply Hns. by left.
      * intros id Hid. apply elem_of_cons in Hid as [->|Hid].
        -- split; [done|by left].
        -- destruct (Hin id Hid) as [Hns Hr]. split; [|by right].
           intros Hs. apply Hns. by right.
      * intros id Hid Hns. apply elem_of_cons in Hid as [->|Hid]; [by left|].
        destruct (decide (id = wn_ID node)) as [->|Hne]; [by left|].
        right. apply Hall; [done|]. intros Hs.
        apply elem_of_cons in Hs as [?|?]; done.
Qed.

(** *** Writing the turning_circle/loop objects *)

Lemma annotated_finalValue v : annotated (finalValue v) = true.
Proof.
  unfold finalValue. destruct (annotated v) eqn:H; [done|apply annotated_withTag].
Qed.

Lemma finalValue_idem v : finalValue (finalValue v) = finalValue v.
Proof. unfold finalValue at 1. by rewrite annotated_finalValue. Qed.

Lemma drainEntry_spec st p v :
  Inv st -> values st !! p = Some v ->
  let st' := exec (drainEntry growslice p) st in
  Inv st' /\
  newNodeID st' = newNodeID st /\
  turningCircleLoop st' = turningCircleLoop st /\
  turningCircleLoopModified st' = turningCircleLoopModified st /\
  values st' = <[p := finalValue v]> (values st) /\
  writer st' = writer st ++ [NodeElem (finalValue v)].
Proof.
  intros HI Hv. unfold drainEntry.
  rewrite exec_bind_deref, exec_bind_readTags.
  pose proof (tagsAt_values _ _ _ Hv) as Ht. unfold tagsAt in Ht. rewrite Ht.
  rewrite exec_seq. unfold finalValue, annotated.
  destruct (fzkTagFound (Tags v)) eqn:Hann.
  - rewrite exec_ret. rewrite exec_bind_deref.
    unfold marshal. rewrite exec_bind. unfold bind at 1. unfold readTags, gets, ret.
    cbn [fst snd]. unfold write. rewrite exec_modify. cbn.
    destruct (values_heap _ _ _ Hv) as (n & Hn & Hvn). rewrite Hn. cbn.
    split; [by eapply Inv_same_store|]. repeat split; try done.
    + by rewrite list_insert_id.
    + by rewrite Hvn.
  - destruct (appendTag_values st p v (fzkTag "not_set") HI Hv) as (HI' & Hr & Hvals).
    unfold fzkTag in *.
    set (st1 := exec (appendTag growslice p (mkTag "fzk_turning" "not_set")) st) in *.
    destruct Hr as (Hn1 & Hw1 & Ht1 & Hm1).
    assert (Hv1 : values st1 !! p = Some (withTag (mkTag "fzk_turning" "not_set") v)).
    { rewrite Hvals. apply list_lookup_insert_eq.
      eapply lookup_lt_Some; eauto. }
    rewrite exec_bind_deref.
    unfold marshal. rewrite exec_bind. unfold bind at 1. unfold readTags, gets, ret.
    cbn [fst snd]. unfold write. rewrite exec_modify. cbn.
    destruct (values_heap _ _ _ Hv1) as (n & Hn & Hvn). rewrite Hn. cbn.
    split; [by eapply Inv_same_store|]. repeat split; try done.
    by rewrite Hw1, Hvn.
Qed.

Lemma drainLoop_spec entries : forall st,
  Inv st ->
  (forall e, e ∈ entries -> is_Some (values st !! e.2)) ->
  let st' := exec (drainLoop growslice entries) st in
  Inv st' /\
  newNodeID st' = newNodeID st /\
  turningCircleLoop st' = turningCircleLoop st /\
  turningCircleLoopModified st' = turningCircleLoopModified st /\
  length (values st') = length (values st) /\
  (forall p v, values st !! p = Some v ->
     values st' !! p = Some (if bool_decide (p ∈ entries.*2) then finalValue v else v)) /\
  writer st' = writer st ++ ((fun e => NodeElem (finalValue (valueAt st e.2))) <$> entries).
Proof.
  induction entries as [|[k p] rest IH]; intros st HI Hval.
  - cbn [drainLoop]. cbv zeta. rewrite exec_ret.
    split; [done|]. do 4 (split; [done|]). split.
    + intros p v Hv. rewrite Hv. rewrite bool_decide_eq_false_2; [done|].
      apply not_elem_of_nil.
    + by rewrite app_nil_r.
  - cbn [drainLoop]. cbv zeta. rewrite exec_seq.
    destruct (Hval (k, p) ltac:(left)) as [v Hv]. cbn [snd] in Hv.
    destruct (drainEntry_spec st p v HI Hv) as (HI1 & Hn1 & Ht1 & Hm1 & Hv1 & Hw1).
    set (st1 := exec (drainEntry growslice p) st) in *.
    assert (Hplt : p < length (values st)) by (eapply lookup_lt_Some; eauto).
    assert (Hval1 : forall e, e ∈ rest -> is_Some (values st1 !! e.2)).
    { intros e He. rewrite Hv1. apply lookup_lt_is_Some. rewrite length_insert.
      apply lookup_lt_is_Some. apply Hval. by right. }
    destruct (IH st1 HI1 Hval1) as (HI' & Hn & Ht & Hm & Hlen & Hvals & Hw).
    split; [done|]. split; [congruence|]. split; [congruence|]. split; [congruence|].
    split; [rewrite Hlen, Hv1; apply length_insert|]. split.
    + intros q w Hq. rewrite fmap_cons. cbn [snd].
      destruct (decide (q = p)) as [->|Hne].
      * assert (w = v) as -> by congruence.
        rewrite (Hvals p (finalValue v)) by (rewrite Hv1; by apply list_lookup_insert_eq).
        rewrite (bool_decide_eq_true_2 (p ∈ p :: rest.*2)) by (left).
        rewrite finalValue_idem. by destruct (bool_decide (p ∈ rest.*2)).
      * rewrite (Hvals q w) by (rewrite Hv1; by rewrite list_lookup_insert_ne).
        destruct (bool_decide (q ∈ rest.*2)) eqn:Hb.
        -- apply bool_decide_eq_true_1 in Hb.
           rewrite bool_decide_eq_true_2; [done|by right].
        -- apply bool_decide_eq_false_1 in Hb.
           rewrite bool_decide_eq_false_2; [done|].
           intros Hin. apply elem_of_cons in Hin as [?|?]; done.
    + rewrite Hw, Hw1, fmap_cons, <- app_assoc. cbn [app snd]. do 2 f_equal.
      * unfold valueAt. by rewrite Hv.
      * apply list_fmap_ext. intros i e He. f_equal.
        unfold valueAt. rewrite Hv1.
        destruct (decide (e.2 = p)) as [->|Hne].
        -- rewrite list_lookup_insert_eq by done. rewrite Hv. cbn.
           apply finalValue_idem.
        -- by rewrite list_lookup_insert_ne.
Qed.

(** *** The scanner loop keeps the invariant *)

Lemma Inv_initState : Inv initState.
Proof.
  constructor; simpl.
  - intros p n H. by rewrite lookup_nil in H.
  - intros p q n m H. by rewrite lookup_nil in H.
  - intros k p H. by rewrite lookup_empty in H.
Qed.

Lemma register_Inv st v e :
  Inv st -> values st !! e = Some v ->
  Inv (exec (register (ID v) e) st).
Proof.
  intros HI Hv. unfold register. rewrite exec_modify.
  destruct (values_heap _ _ _ Hv) as (n & Hn & ->). rewrite ID_set_Tags.
  constructor; simpl.
  - apply (inv_wf _ HI).
  - apply (inv_sep _ HI).
  - intros k p Hk. destruct (decide (k = ID n)) as [->|Hne].
    + rewrite lookup_insert_eq in Hk. injection Hk as <-. eauto.
    + rewrite lookup_insert_ne in Hk by done. by apply (inv_tbl _ HI).
Qed.

Lemma derivedItems_set_Tags {T U} (s : U) (v : NodeOf T) id rs :
  derivedItems (set_Tags s v) id rs = derivedItems v id rs.
Proof. revert id. induction rs as [|r rs IH]; intros id; [done|]. simpl. by rewrite IH. Qed.

Lemma processNodeNetwork_spec st e v :
  Inv st -> values st !! e = Some v ->
  let tags := Tags_Map (Tags v) in
  let rs := if isNodeNetwork tags then spec_requests tags else [] in
  let st' := exec (processNodeNetwork growslice e tags) st in
  Inv st' /\ values st' = values st /\
  turningCircleLoop st' = turningCircleLoop st /\
  turningCircleLoopModified st' = turningCircleLoopModified st /\
  newNodeID st' = bump (length rs) (newNodeID st) /\
  writer st' = writer st ++ derivedItems v (newNodeID st) rs.
Proof.
  intros HI Hv tags rs st'.
  assert (Hskip : isNodeNetwork tags = false -> st' = st).
  { intros Hn. unfold isNodeNetwork in Hn. apply bool_decide_eq_false_1 in Hn.
    subst st'. unfold processNodeNetwork.
    destruct (tags !! "network:type") as [tv|]; [|done].
    destruct (String.eqb tv "node_network") eqn:He; [|done].
    apply String.eqb_eq in He. by subst tv. }
  destruct (isNodeNetwork tags) eqn:Hn.
  - unfold isNodeNetwork in Hn. apply bool_decide_eq_true_1 in Hn.
    subst st'. unfold processNodeNetwork. rewrite Hn. cbn [String.eqb Ascii.eqb Bool.eqb].
    destruct (values_heap _ _ _ Hv) as (n & Hn' & Hvn).
    pose proof (createNewNodeNetworkObject_spec st e) as Hc. cbv zeta in Hc.
    rewrite Hn' in Hc. cbn [default from_option id] in Hc.
    assert (Htags : Tags_Map (slice_read (arrays st) (Tags n)) = tags).
    { unfold tags. by rewrite Hvn, Tags_set_Tags. }
    rewrite Htags in Hc. destruct Hc as (Hh & Ht & Hm & [ext Ha] & Hid & Hw).
    destruct (Inv_extend st _ ext HI Hh Ht Ha) as [HI' Hvals].
    split; [done|]. split; [done|]. split; [done|]. split; [done|]. split; [done|].
    rewrite Hw. f_equal. subst rs. rewrite Hvn.
    by rewrite derivedItems_set_Tags.
  - rewrite (Hskip eq_refl). subst rs. cbn [length bump Nat.iter derivedItems].
    rewrite app_nil_r. done.
Qed.

Lemma processTurningCircleLoop_spec st e v tags :
  Inv st -> values st !! e = Some v ->
  let st' := exec (processTurningCircleLoop e tags) st in
  Inv st' /\ values st' = values st /\
  newNodeID st' = newNodeID st /\ writer st' = writer st /\
  turningCircleLoopModified st' = turningCircleLoopModified st /\
  turningCircleLoop st' =
    if isTurning tags then <[ID v := e]> (turningCircleLoop st) else turningCircleLoop st.
Proof.
  intros HI Hv st'.
  destruct (values_heap _ _ _ Hv) as (n & Hn & Hvn).
  assert (Hreg : exec (n <~ deref e ;; register (ID n) e) st
                 = exec (register (ID v) e) st).
  { rewrite exec_bind_deref, Hn. cbn [default from_option id]. by rewrite Hvn, ID_set_Tags. }
  assert (HR : let st1 := exec (register (ID v) e) st in
               Inv st1 /\ values st1 = values st /\
               newNodeID st1 = newNodeID st /\ writer st1 = writer st /\
               turningCircleLoopModified st1 = turningCircleLoopModified st /\
               turningCircleLoop st1 = <[ID v := e]> (turningCircleLoop st)).
  { split; [by apply register_Inv|]. done. }
  subst st'. unfold processTurningCircleLoop, isTurning.
  destruct (tags !! "highway") as [tv|] eqn:Htv.
  - rewrite exec_seq.
    destruct (String.eqb tv "turning_circle") eqn:H1.
    + apply String.eqb_eq in H1. subst tv. cbn [String.eqb Ascii.eqb Bool.eqb].
      rewrite exec_ret, Hreg. rewrite bool_decide_eq_true_2 by (by left). apply HR.
    + rewrite exec_ret. apply String.eqb_neq in H1.
      destruct (String.eqb tv "turning_loop") eqn:H2.
      * apply String.eqb_eq in H2. subst tv.
        rewrite Hreg. rewrite bool_decide_eq_true_2 by (by right). apply HR.
      * apply String.eqb_neq in H2. rewrite exec_ret.
        rewrite bool_decide_eq_false_2; [done|]. intros [[= ?]|[= ?]]; done.
  - rewrite exec_ret. rewrite bool_decide_eq_false_2; [done|]. intros [?|?]; done.
Qed.

(** What the scanner loop does with a node. *)
Lemma processNode_spec st v spare :
  Inv st ->
  let tags := Tags_Map (Tags v) in
  let rs := if isNodeNetwork tags then spec_requests tags else [] in
  let st' := exec (processNode growslice v spare) st in
  Inv st' /\ values st' = values st ++ [v] /\
  turningCircleLoopModified st' = turningCircleLoopModified st /\
  newNodeID st' = bump (length rs) (newNodeID st) /\
  writer st' = writer st ++ derivedItems v (newNodeID st) rs /\
  turningCircleLoop st' =
    if isTurning tags then <[ID v := length (heap st)]> (turningCircleLoop st)
    else turningCircleLoop st.
Proof.
  intros HI tags rs st'.
  destruct (scanNode_spec st v spare HI) as (He & HI1 & Hr1 & Hv1 & Hl1).
  subst st'. unfold processNode. rewrite exec_bind. rewrite He.
  set (st1 := snd (scanNode v spare st)) in *.
  set (e := length (heap st)) in *.
  destruct Hr1 as (Hn1 & Hw1 & Ht1 & Hm1).
  assert (Hve : values st1 !! e = Some v).
  { rewrite Hv1. rewrite lookup_app_r by (rewrite values_length; done).
    rewrite values_length. unfold e. by rewrite Nat.sub_diag. }
  rewrite exec_bind_deref, exec_bind_TagMap.
  pose proof (tagsAt_values _ _ _ Hve) as Htg. unfold tagsAt in Htg. rewrite Htg.
  fold tags.
  destruct (0 <? size tags) eqn:Hsz.
  - rewrite exec_seq.
    destruct (processNodeNetwork_spec st1 e v HI1 Hve) as (HI2 & Hv2 & Ht2 & Hm2 & Hn2 & Hw2).
    fold tags in HI2, Hv2, Ht2, Hm2, Hn2, Hw2.
    set (st2 := exec (processNodeNetwork growslice e tags) st1) in *.
    assert (Hve2 : values st2 !! e = Some v) by (by rewrite Hv2).
    destruct (processTurningCircleLoop_spec st2 e v tags HI2 Hve2)
      as (HI3 & Hv3 & Hn3 & Hw3 & Hm3 & Ht3).
    split; [done|]. split; [congruence|]. split; [congruence|].
    split; [fold rs in Hn2; congruence|].
    split; [fold rs in Hw2; congruence|].
    rewrite Ht3, Ht2, Ht1. done.
  - rewrite exec_ret. apply Nat.ltb_ge in Hsz.
    assert (Hempty : tags = ∅) by (apply map_size_empty_iff; lia).
    assert (Hrs : rs = []).
    { subst rs. unfold isNodeNetwork. rewrite Hempty, lookup_empty.
      by rewrite bool_decide_eq_false_2. }
    rewrite Hrs. simpl. unfold isTurning. rewrite Hempty, lookup_empty.
    rewrite bool_decide_eq_false_2 by (intros [?|?]; done).
    rewrite app_nil_r. done.
Qed.

(** What the scanner loop does with a way. *)
Lemma processWay_spec st e :
  Inv st ->
  let tags := Tags_Map (WayTags e) in
  let st' := exec (processWay growslice e) st in
  match tags !! "highway" with
  | Some tagValue =>
    if qualifyingHighway tagValue then
      let r := addHighwayTypeToTurningCircleLoop growslice e tags tagValue st in
      st' = set_turningCircleLoopModified
              (wrap64 (turningCircleLoopModified (snd r) + fst r)) (snd r)
    else st' = st
  | None => st' = st
  end.
Proof.
  intros HI tags st'. subst st'. unfold processWay. fold tags.
  destruct (0 <? size tags) eqn:Hsz.
  - destruct (tags !! "highway") as [tv|]; [|done].
    destruct (qualifyingHighway tv); [|done].
    rewrite exec_bind. by rewrite exec_modify.
  - apply Nat.ltb_ge in Hsz.
    assert (Hempty : tags = ∅) by (apply map_size_empty_iff; lia).
    rewrite Hempty, lookup_empty. done.
Qed.

Lemma processWay_Inv st e :
  Inv st ->
  let st' := exec (processWay growslice e) st in
  Inv st' /\ newNodeID st' = newNodeID st /\ writer st' = writer st /\
  turningCircleLoop st' = turningCircleLoop st /\
  length (values st') = length (values st).
Proof.
  intros HI. pose proof (processWay_spec st e HI) as H. cbv zeta in *.
  destruct (Tags_Map (WayTags e) !! "highway") as [tv|]; [|by rewrite H].
  destruct (qualifyingHighway tv); [|by rewrite H].
  rewrite H. unfold addHighwayTypeToTurningCircleLoop.
  destruct (annotateLoop_values (Nodes e) st tv 0%Z HI)
    as (HI' & (Hn & Hw & Ht & Hm) & Hlen & _).
  split; [by eapply Inv_same_store|]. done.
Qed.

Lemma processObject_Inv st o :
  Inv st -> Inv (exec (processObject growslice o) st).
Proof.
  intros HI. destruct o as [v spare|e|r]; cbn [processObject].
  - apply (processNode_spec st v spare HI).
  - apply (processWay_Inv st e HI).
  - done.
Qed.

Lemma scanLoop_app objs1 objs2 st :
  exec (scanLoop growslice (objs1 ++ objs2)) st
  = exec (scanLoop growslice objs2) (exec (scanLoop growslice objs1) st).
Proof.
  revert st. induction objs1 as [|o objs1 IH]; intros st; [done|].
  cbn [app scanLoop]. rewrite !exec_seq. apply IH.
Qed.

Lemma scanLoop_Inv objs st :
  Inv st -> Inv (exec (scanLoop growslice objs) st).
Proof.
  revert st. induction objs as [|o objs IH]; intros st HI; [done|].
  cbn [scanLoop]. rewrite exec_seq. apply IH. by apply processObject_Inv.
Qed.

Lemma reach_Inv start objs : Inv (reach growslice start objs).
Proof.
  unfold reach, scanPhase. rewrite !exec_seq. apply scanLoop_Inv.
  unfold write. rewrite !exec_modify.
  eapply Inv_same_store; [apply Inv_initState|done..].
Qed.

Lemma reach_snoc start objs o :
  reach growslice start (objs ++ [o])
  = exec (processObject growslice o) (reach growslice start objs).
Proof.
  unfold reach, scanPhase. rewrite !exec_seq. rewrite scanLoop_app.
  cbn [scanLoop]. by rewrite exec_seq, exec_ret.
Qed.

Lemma reach_app start objs1 objs2 :
  reach growslice start (objs1 ++ objs2)
  = exec (scanLoop growslice objs2) (reach growslice start objs1).
Proof. unfold reach, scanPhase. rewrite !exec_seq. by rewrite scanLoop_app. Qed.

End Store.

(** ** Properties of the specification *)

(** The twelve reference keys with the label of their category. *)
Lemma spec_requests_single_key tags k l ref :
  (k, l) ∈ [ ("icn_ref", "node_bicycle"); ("ncn_ref", "node_bicycle");
             ("rcn_ref", "node_bicycle"); ("lcn_ref", "node_bicycle");
             ("iwn_ref", "node_hiking"); ("nwn_ref", "node_hiking");
             ("rwn_ref", "node_hiking"); ("lwn_ref", "node_hiking");
             ("rin_ref", "node_inline_skates"); ("rhn_ref", "node_horse");
             ("rpn_ref", "node_canoe"); ("rmn_ref", "node_motorboat") ] ->
  tags !! k = Some ref ->
  (forall k', k' ∈ ["icn_ref"; "ncn_ref"; "rcn_ref"; "lcn_ref"; "iwn_ref"; "nwn_ref";
                    "rwn_ref"; "lwn_ref"; "rin_ref"; "rhn_ref"; "rpn_ref"; "rmn_ref"] ->
     k' <> k -> tags !! k' = None) ->
  spec_requests tags = [(l, ref)].
Proof.
  intros Hk Href Hothers.
  assert (Hlk : forall k', k' ∈ ["icn_ref"; "ncn_ref"; "rcn_ref"; "lcn_ref"; "iwn_ref";
                    "nwn_ref"; "rwn_ref"; "lwn_ref"; "rin_ref"; "rhn_ref"; "rpn_ref";
                    "rmn_ref"] ->
            tags !! k' = if decide (k' = k) then Some ref else None).
  { intros k' Hin. case_decide as Hd; [by subst|by apply Hothers]. }
  unfold spec_requests, spec_categories, spec_request, spec_bicycleKeys, spec_hikingKeys.
  cbn [fmap list_fmap concat fst snd spec_firstPresent].
  rewrite !Hlk by (rewrite !elem_of_cons; tauto).
  repeat (apply elem_of_cons in Hk as [Hk|Hk]; [injection Hk as -> ->; reflexivity|]).
  by apply elem_of_nil in Hk.
Qed.


Lemma labelled_derivedItems {T} l (src : NodeOf T) id rs :
  itemTags <$> labelled l (derivedItems src id rs)
  = (fun r => [mkTag "node_network" r.1; mkTag "name" r.2]) <$> filter (fun r => r.1 = l) rs.
Proof.
  revert id. induction rs as [|r rs IH]; intros id; [done|].
  cbn [derivedItems]. unfold labelled in *.
  destruct (decide (r.1 = l)) as [He|Hne].
  - rewrite (filter_cons_True (fun r => r.1 = l)) by done.
    rewrite filter_cons_True by (unfold itemLabel; simpl; by rewrite He).
    rewrite !fmap_cons. by rewrite IH.
  - rewrite (filter_cons_False (fun r => r.1 = l)) by done.
    rewrite filter_cons_False by (unfold itemLabel; simpl; congruence).
    apply IH.
Qed.

Lemma filter_label_same tags (l : string) keys :
  filter (fun r : string * string => r.1 = l) (spec_request tags (l, keys))
  = spec_request tags (l, keys).
Proof.
  unfold spec_request. cbn [fst snd]. destruct (spec_firstPresent keys tags); [|done].
  by rewrite filter_cons_True.
Qed.

Lemma filter_label_other tags (l l' : string) keys :
  l' <> l -> filter (fun r : string * string => r.1 = l) (spec_request tags (l', keys)) = [].
Proof.
  intros Hne. unfold spec_request. cbn [fst snd].
  destruct (spec_firstPresent keys tags); [|done].
  by rewrite filter_cons_False.
Qed.

(** C2. [createNewNodeNetworkObject] writes at most one node with the
    label node_bicycle: the one whose name is the value of the first
    key present among icn_ref, ncn_ref, rcn_ref, lcn_ref, and none if
    no such key is present; the same for node_hiking over iwn_ref,
    nwn_ref, rwn_ref, lwn_ref.  In particular with icn_ref present the
    only bicycle node carries the icn_ref value, whatever rcn_ref is. *)
Theorem C2_priority_chain (growslice : nat -> nat -> nat) st e :
  let tags := Tags_Map (tagsAt st e) in
  let st' := exec (createNewNodeNetworkObject growslice e) st in
  exists out,
    writer st' = writer st ++ out /\
    itemTags <$> labelled "node_bicycle" out
      = match spec_firstPresent ["icn_ref"; "ncn_ref"; "rcn_ref"; "lcn_ref"] tags with
        | Some v => [[mkTag "node_network" "node_bicycle"; mkTag "name" v]]
        | None => []
        end /\
    itemTags <$> labelled "node_hiking" out
      = match spec_firstPresent ["iwn_ref"; "nwn_ref"; "rwn_ref"; "lwn_ref"] tags with
        | Some v => [[mkTag "node_network" "node_hiking"; mkTag "name" v]]
        | None => []
        end /\
    length (labelled "node_bicycle" out) <= 1 /\
    length (labelled "node_hiking" out) <= 1 /\
    (forall v, tags !! "icn_ref" = Some v ->
       itemTags <$> labelled "node_bicycle" out
       = [[mkTag "node_network" "node_bicycle"; mkTag "name" v]]).
Proof.
  intros tags st'.
  destruct (createNewNodeNetworkObject_spec growslice st e) as (_ & _ & _ & _ & _ & Hw).
  fold st' in Hw. unfold tagsAt in tags. fold tags in Hw.
  eexists. split; [exact Hw|].
  assert (Hb : itemTags <$> labelled "node_bicycle"
             (derivedItems (default zeroNode (heap st !! e)) (newNodeID st) (spec_requests tags))
           = match spec_firstPresent ["icn_ref"; "ncn_ref"; "rcn_ref"; "lcn_ref"] tags with
             | Some v => [[mkTag "node_network" "node_bicycle"; mkTag "name" v]]
             | None => []
             end).
  { rewrite labelled_derivedItems. unfold spec_requests, spec_categories.
    cbn [fmap list_fmap concat]. rewrite !filter_app.
    rewrite (filter_label_same tags "node_bicycle").
    rewrite !filter_label_other by done. rewrite filter_nil, !app_nil_r.
    unfold spec_request, spec_bicycleKeys. cbn [fst snd].
    by destruct (spec_firstPresent _ tags). }
  assert (Hh : itemTags <$> labelled "node_hiking"
             (derivedItems (default zeroNode (heap st !! e)) (newNodeID st) (spec_requests tags))
           = match spec_firstPresent ["iwn_ref"; "nwn_ref"; "rwn_ref"; "lwn_ref"] tags with
             | Some v => [[mkTag "node_network" "node_hiking"; mkTag "name" v]]
             | None => []
             end).
  { rewrite labelled_derivedItems. unfold spec_requests, spec_categories.
    cbn [fmap list_fmap concat]. rewrite !filter_app.
    rewrite (filter_label_same tags "node_hiking").
    rewrite !filter_label_other by done. rewrite filter_nil, !app_nil_r.
    unfold spec_request, spec_hikingKeys. cbn [fst snd app].
    by destruct (spec_firstPresent ["iwn_ref"; "nwn_ref"; "rwn_ref"; "lwn_ref"] tags). }
  split; [exact Hb|]. split; [exact Hh|]. split; [|split].
  - apply (f_equal length) in Hb. rewrite length_fmap in Hb. rewrite Hb.
    destruct (spec_firstPresent _ tags); simpl; lia.
  - apply (f_equal length) in Hh. rewrite length_fmap in Hh. rewrite Hh.
    destruct (spec_firstPresent ["iwn_ref"; "nwn_ref"; "rwn_ref"; "lwn_ref"] tags);
      simpl; lia.
  - intros v Hv. rewrite Hb. cbn [spec_firstPresent]. by rewrite Hv.
Qed.

Lemma nodeIDs_app a b : nodeIDs (a ++ b) = nodeIDs a ++ nodeIDs b.
Proof. unfold nodeIDs. apply omap_app. Qed.

Lemma bump_S k id : bump (S k) id = bump k (wrap64 (id + 1)).
Proof.
  change (S k) with (1 + k). rewrite bump_add. done.
Qed.

Lemma nodeIDs_derivedItems {T} (src : NodeOf T) id rs :
  nodeIDs (derivedItems src id rs) = (fun i => bump i id) <$> seq 0 (length rs).
Proof.
  revert id. induction rs as [|r rs IH]; intros id; [done|].
  cbn [derivedItems length seq fmap list_fmap]. unfold nodeIDs in *.
  cbn [omap list_omap]. cbn. f_equal.
  rewrite IH. rewrite <- fmap_S_seq, <- list_fmap_compose.
  apply list_fmap_ext. intros i x _. unfold compose. by rewrite bump_S.
Qed.

Lemma ids_from_app id k1 k2 :
  ((fun i => bump i id) <$> seq 0 k1) ++ ((fun i => bump i (bump k1 id)) <$> seq 0 k2)
  = (fun i => bump i id) <$> seq 0 (k1 + k2).
Proof.
  rewrite seq_app, fmap_app. f_equal. cbn [Nat.add].
  replace (seq k1 k2) with (Nat.add k1 <$> seq 0 k2)
    by (rewrite fmap_add_seq; f_equal; lia).
  rewrite <- list_fmap_compose.
  apply list_fmap_ext. intros i x _. unfold compose. by rewrite bump_add.
Qed.

Lemma processObject_ids growslice o st :
  Inv st ->
  let st' := exec (processObject growslice o) st in
  exists k,
    nodeIDs (writer st') = nodeIDs (writer st) ++ ((fun i => bump i (newNodeID st)) <$> seq 0 k) /\
    newNodeID st' = bump k (newNodeID st).
Proof.
  intros HI. destruct o as [v spare|e|r]; cbn [processObject].
  - destruct (processNode_spec growslice st v spare HI) as (_ & _ & _ & Hn & Hw & _).
    eexists. split; [|exact Hn]. rewrite Hw, nodeIDs_app. f_equal.
    apply nodeIDs_derivedItems.
  - destruct (processWay_Inv growslice st e HI) as (_ & Hn & Hw & _).
    exists 0. cbv zeta. rewrite Hn, Hw. cbn. by rewrite app_nil_r.
  - exists 0. cbv zeta. rewrite exec_ret. cbn. by rewrite app_nil_r.
Qed.

Lemma scanLoop_ids growslice objs : forall st,
  Inv st ->
  let st' := exec (scanLoop growslice objs) st in
  exists k,
    nodeIDs (writer st') = nodeIDs (writer st) ++ ((fun i => bump i (newNodeID st)) <$> seq 0 k) /\
    newNodeID st' = bump k (newNodeID st).
Proof.
  induction objs as [|o objs IH]; intros st HI.
  - exists 0. cbn. by rewrite app_nil_r.
  - cbn [scanLoop]. cbv zeta. rewrite exec_seq.
    destruct (processObject_ids growslice o st HI) as (k1 & Hi1 & Hn1).
    destruct (IH _ (processObject_Inv growslice st o HI)) as (k2 & Hi2 & Hn2).
    exists (k1 + k2). split.
    + rewrite Hi2, Hi1, Hn1, <- app_assoc. by rewrite ids_from_app.
    + rewrite Hn2, Hn1. by rewrite bump_add.
Qed.

Lemma wrap64_wrap64_add a b : wrap64 (wrap64 a + b) = wrap64 (a + b).
Proof.
  unfold wrap64. f_equal.
  replace ((a + 2 ^ 63) mod 2 ^ 64 - 2 ^ 63 + b + 2 ^ 63)%Z
    with ((a + 2 ^ 63) mod 2 ^ 64 + b)%Z by lia.
  rewrite Zplus_mod_idemp_l. f_equal. lia.
Qed.

Lemma bump_closed k id : int64_range id -> bump k id = wrap64 (id + Z.of_nat k).
Proof.
  intros Hr. induction k as [|k IH].
  - cbn. rewrite Z.add_0_r. symmetry. by apply wrap64_small.
  - change (bump (S k) id) with (wrap64 (bump k id + 1)).
    rewrite IH, wrap64_wrap64_add. f_equal. lia.
Qed.

(** C3 (amended). The identifiers of the derived points of a run are
    the start value and its successors in 64 bit arithmetic, in the
    order of writing: the i-th derived point has the identifier
    start + i wrapped to int64, and the counter stands at the next one.
    As long as the counter does not pass 2^63 - 1 they are the
    consecutive integers start, start + 1, ... without gap or repeat.
    Every call of [writeNewNodeObject] increments the counter by one in
    64 bit arithmetic. *)
Theorem C3_derived_identifiers (growslice : nat -> nat -> nat) start objs :
  int64_range start ->
  let st := reach growslice start objs in
  let ids := nodeIDs (writer st) in
  ids = (fun i => wrap64 (start + Z.of_nat i)) <$> seq 0 (length ids) /\
  newNodeID st = wrap64 (start + Z.of_nat (length ids)) /\
  ((start + Z.of_nat (length ids) <= 2 ^ 63)%Z ->
     ids = (fun i => (start + Z.of_nat i)%Z) <$> seq 0 (length ids)) /\
  (forall s n, newNodeID (exec (writeNewNodeObject n) s) = wrap64 (newNodeID s + 1)) /\
  (forall s n, nodeIDs (writer (exec (writeNewNodeObject n) s))
               = nodeIDs (writer s) ++ [newNodeID s]).
Proof.
  intros Hr st ids.
  assert (H0 : Inv (exec (write XmlDecl ;;; write OsmOpen ;;; modify (set_newNodeID start))
                      initState)).
  { eapply Inv_same_store; [apply Inv_initState|done..]. }
  destruct (scanLoop_ids growslice objs _ H0) as (k & Hi & Hn).
  assert (Hst : st = exec (scanLoop growslice objs)
                  (exec (write XmlDecl ;;; write OsmOpen ;;; modify (set_newNodeID start))
                        initState)).
  { unfold st, reach, scanPhase. by rewrite !exec_seq. }
  rewrite <- Hst in Hi, Hn. cbn in Hi, Hn. fold ids in Hi.
  assert (Hk : length ids = k) by (rewrite Hi; by rewrite length_fmap, length_seq).
  assert (Hids : ids = (fun i => wrap64 (start + Z.of_nat i)) <$> seq 0 (length ids)).
  { rewrite Hk. rewrite Hi at 1. apply list_fmap_ext. intros i x _. by apply bump_closed. }
  split; [exact Hids|]. split; [|split; [|split]].
  - rewrite Hn, Hk. by apply bump_closed.
  - intros Hb. rewrite Hids at 1. apply list_fmap_ext. intros i x Hx.
    apply lookup_seq in Hx as [-> Hx]. apply wrap64_small. unfold int64_range in *. lia.
  - intros s n. reflexivity.
  - intros s n. cbn. rewrite nodeIDs_app. reflexivity.
Qed.

Lemma C3_derived_identifiers_witness :
  int64_range 1000 /\
  nodeIDs (writer (reach growDouble 1000 exampleRun)) = [1000; 1001]%Z /\
  newNodeID (reach growDouble 1000 exampleRun) = 1002%Z.
Proof.
  assert (Hr : int64_range 1000) by (unfold int64_range; lia).
  split; [exact Hr|].
  destruct (C3_derived_identifiers growDouble 1000 exampleRun Hr) as (H1 & H2 & _).
  split; [rewrite H1|rewrite H2]; reflexivity.
Defined.

(** Claim C3 as stated fails when the counter passes 2^63 - 1: with
    -startNode=9223372036854775807 the second derived point of a
    junction with rcn_ref and rwn_ref gets the identifier -2^63, which
    is neither greater than the first nor start + 1. *)
Lemma C3_counterexample :
  let start := 9223372036854775807%Z in
  let ids := nodeIDs (writer (reach growDouble start [ObjNode junction53X32 0])) in
  int64_range start /\
  ids = [9223372036854775807; -9223372036854775808]%Z /\
  ~ (ids = (fun i => (start + Z.of_nat i)%Z) <$> seq 0 (length ids)) /\
  ~ (9223372036854775807 < -9223372036854775808)%Z.
Proof.
  cbv zeta. split; [unfold int64_range; lia|].
  assert (H : nodeIDs (writer (reach growDouble 9223372036854775807
                         [ObjNode junction53X32 0]))
              = [9223372036854775807; -9223372036854775808]%Z) by (vm_compute; reflexivity).
  split; [exact H|]. rewrite H. split; [|lia]. cbn. intros [=].
Qed.

Lemma countFzk_app ts t :
  countFzk (ts ++ [t]) = countFzk ts + countFzk [t].
Proof. unfold countFzk. by rewrite filter_app, length_app. Qed.

Lemma countFzk_not_found ts : fzkTagFound ts = false -> countFzk ts = 0.
Proof.
  unfold countFzk. induction ts as [|t ts IH]; [done|]. cbn [fzkTagFound].
  destruct (String.eqb (Key t) "fzk_turning") eqn:He; [done|].
  apply String.eqb_neq in He. intros H. rewrite filter_cons_False by done. by apply IH.
Qed.

Lemma referenced_true tbl nodes node p :
  node ∈ nodes -> tbl !! wn_ID node = Some p -> referenced tbl nodes p = true.
Proof.
  intros Hin Hp. unfold referenced. apply existsb_exists. exists node.
  split; [by apply list_elem_of_In|]. by apply bool_decide_eq_true_2.
Qed.

Lemma annotateLoop_then_settled growslice st hw found nodes :
  Inv st ->
  forall node, node ∈ nodes ->
    settled (snd (annotateLoop growslice hw found nodes st)) (wn_ID node).
Proof.
  intros HI node Hin p Hp.
  destruct (annotateLoop_values growslice nodes st hw found HI)
    as (HI' & (_ & _ & Ht & _) & _ & Hvals).
  rewrite Ht in Hp. destruct (Inv_table_values _ _ _ HI Hp) as (v & Hv & _).
  specialize (Hvals p v Hv). rewrite (referenced_true _ _ _ _ Hin Hp) in Hvals.
  rewrite (tagsAt_values _ _ _ Hvals).
  destruct (annotated v) eqn:Ha; [exact Ha|apply annotated_withTag].
Qed.


Lemma ID_finalValue v : ID (finalValue v) = ID v.
Proof. unfold finalValue. by destruct (annotated v). Qed.

Lemma filter_ids_none (l : list (Z * nat)) (f : Z * nat -> item) k :
  k ∉ l.*1 -> (forall e, e ∈ l -> itemID (f e) = Some e.1) ->
  filter (fun i => itemID i = Some k) (f <$> l) = [].
Proof.
  induction l as [|e l IH]; intros Hk Hf; [done|].
  rewrite fmap_cons in Hk. apply not_elem_of_cons in Hk as [Hne Hk].
  rewrite fmap_cons. rewrite filter_cons_False.
  - apply IH; [done|]. intros e' He'. apply Hf. by right.
  - rewrite Hf by left. congruence.
Qed.

Lemma filter_ids_once (l : list (Z * nat)) (f : Z * nat -> item) k p :
  NoDup l.*1 -> (k, p) ∈ l -> (forall e, e ∈ l -> itemID (f e) = Some e.1) ->
  length (filter (fun i => itemID i = Some k) (f <$> l)) = 1.
Proof.
  induction l as [|e l IH]; intros Hnd Hin Hf; [by apply elem_of_nil in Hin|].
  rewrite fmap_cons in Hnd. apply NoDup_cons in Hnd as [Hne Hnd].
  rewrite fmap_cons. apply elem_of_cons in Hin as [<-|Hin].
  - rewrite filter_cons_True by (rewrite Hf by left; done).
    rewrite filter_ids_none; [done|done|]. intros e' He'. apply Hf. by right.
  - assert (Hk : k ∈ l.*1).
    { apply list_elem_of_fmap. exists (k, p). done. }
    rewrite filter_cons_False.
    + apply IH; [done|done|]. intros e' He'. apply Hf. by right.
    + rewrite Hf by left. intros [= Hek]. congruence.
Qed.

(** A registered node that no later qualifying way references and that
    no later turning node replaces in the table stays as it is. *)
Lemma scanLoop_untouched growslice post : forall st p0 v,
  Inv st -> values st !! p0 = Some v -> turningCircleLoop st !! ID v = Some p0 ->
  annotated v = false ->
  (forall w, ObjWay w ∈ post -> isQualifyingWay w = true ->
     ID v ∉ wn_ID <$> Nodes w) ->
  (forall v' s', ObjNode v' s' ∈ post -> isTurning (Tags_Map (Tags v')) = true ->
     ID v' <> ID v) ->
  let st' := exec (scanLoop growslice post) st in
  values st' !! p0 = Some v /\ turningCircleLoop st' !! ID v = Some p0.
Proof.
  induction post as [|o post IH]; intros st p0 v HI Hv Ht Ha Hways Hnodes; [done|].
  cbn [scanLoop]. cbv zeta. rewrite exec_seq.
  assert (Hstep : let st1 := exec (processObject growslice o) st in
            Inv st1 /\ values st1 !! p0 = Some v /\ turningCircleLoop st1 !! ID v = Some p0).
  { destruct o as [v' spare|w|r]; cbn [processObject].
    - destruct (processNode_spec growslice st v' spare HI) as (HI1 & Hv1 & _ & _ & _ & Ht1).
      split; [done|]. split.
      + rewrite Hv1. by apply lookup_app_l_Some.
      + rewrite Ht1. destruct (isTurning (Tags_Map (Tags v'))) eqn:Htn; [|done].
        rewrite lookup_insert_ne; [done|]. apply (Hnodes v' spare); [left|done].
    - pose proof (processWay_spec growslice st w HI) as Hw. cbv zeta in Hw.
      destruct (processWay_Inv growslice st w HI) as (HI1 & _ & _ & Ht1 & _).
      split; [done|]. split; [|by rewrite Ht1].
      specialize (Hways w ltac:(left)). unfold isQualifyingWay in Hways.
      destruct (Tags_Map (WayTags w) !! "highway") as [tv|]; [|by rewrite Hw].
      destruct (qualifyingHighway tv) eqn:Hq; [|by rewrite Hw].
      rewrite Hw. unfold addHighwayTypeToTurningCircleLoop.
      destruct (annotateLoop_values growslice (Nodes w) st tv 0%Z HI) as (_ & _ & _ & Hvals).
      change (values (set_turningCircleLoopModified ?c ?s)) with (values s).
      rewrite (Hvals p0 v Hv). rewrite Ha.
      destruct (referenced (turningCircleLoop st) (Nodes w) p0) eqn:Hrf; [|done].
      exfalso. unfold referenced in Hrf. apply existsb_exists in Hrf as (node & Hin & Hd).
      apply bool_decide_eq_true_1 in Hd.
      destruct (Inv_table_values _ _ _ HI Hd) as (v2 & Hv2 & Hid).
      assert (v2 = v) as -> by congruence.
      apply (Hways eq_refl). rewrite Hid. apply list_elem_of_fmap.
      exists node. split; [done|]. by apply list_elem_of_In.
    - by rewrite exec_ret. }
  cbv zeta in Hstep. destruct Hstep as (HI1 & Hv1 & Ht1).
  apply IH; try done.
  - intros w Hw. apply Hways. by right.
  - intros v' s' Hn. apply (Hnodes v' s'). by right.
Qed.

(** C5 (amended). After the scanner loop, the final loop of [main]
    visits every entry of the table exactly once (in the order of the
    map iteration, a permutation of the entries): an entry whose node
    carries no tag with key fzk_turning gets fzk_turning = not_set
    appended, an entry whose node carries one is left as it is, and
    the node is then written; so the writer receives, for every
    entry, exactly one element with that identifier.  In particular a
    turning point that was read without a fzk_turning tag, that no
    later qualifying way references and whose table entry no later
    turning point with the same identifier replaces is written with
    its tags followed by fzk_turning = not_set. *)
Theorem C5_drain_finalizes (growslice : nat -> nat -> nat)
    (range_order : gmap Z nat -> list (Z * nat)) start objs :
  range_order (turningCircleLoop (reach growslice start objs))
    ≡ₚ map_to_list (turningCircleLoop (reach growslice start objs)) ->
  let st := reach growslice start objs in
  let st' := exec (drainPhase growslice range_order) st in
  let drained := (fun e => NodeElem (finalValue (valueAt st e.2)))
                   <$> range_order (turningCircleLoop st) in
  writer st' = writer st ++ drained ++ [OsmClose] /\
  (forall k p, turningCircleLoop st !! k = Some p ->
     exists v, values st !! p = Some v /\ ID v = k /\
       values st' !! p = Some (finalValue v) /\
       NodeElem (finalValue v) ∈ drained /\
       length (filter (fun i => itemID i = Some k) drained) = 1 /\
       (annotated v = false ->
          Tags (finalValue v) = Tags v ++ [mkTag "fzk_turning" "not_set"]) /\
       (annotated v = true -> finalValue v = v)) /\
  (forall pre v spare post,
     objs = pre ++ ObjNode v spare :: post ->
     isTurning (Tags_Map (Tags v)) = true -> annotated v = false ->
     (forall w, ObjWay w ∈ post -> isQualifyingWay w = true ->
        ID v ∉ wn_ID <$> Nodes w) ->
     (forall v' s', ObjNode v' s' ∈ post -> isTurning (Tags_Map (Tags v')) = true ->
        ID v' <> ID v) ->
     NodeElem (withTag (mkTag "fzk_turning" "not_set") v) ∈ drained).
Proof.
  intros Hperm st st' drained. fold st in Hperm.
  pose proof (reach_Inv growslice start objs) as HI. fold st in HI.
  set (entries := range_order (turningCircleLoop st)) in *.
  assert (Hentry : forall k p, (k, p) ∈ entries <-> turningCircleLoop st !! k = Some p).
  { intros k p. rewrite Hperm. apply elem_of_map_to_list. }
  assert (Hval : forall e, e ∈ entries -> is_Some (values st !! e.2)).
  { intros [k p] He. apply Hentry in He.
    destruct (Inv_table_values _ _ _ HI He) as (v & Hv & _). by exists v. }
  destruct (drainLoop_spec growslice entries st HI Hval)
    as (HI1 & Hn1 & Ht1 & Hm1 & Hl1 & Hvals1 & Hw1).
  assert (Hst' : st' = exec (write OsmClose) (exec (drainLoop growslice entries) st)).
  { unfold st', drainPhase, drain. rewrite exec_seq. by rewrite exec_bind_gets. }
  assert (Hw : writer st' = writer st ++ drained ++ [OsmClose]).
  { rewrite Hst'. unfold write. rewrite exec_modify. cbn. rewrite Hw1.
    by rewrite <- app_assoc. }
  assert (Hvs : values st' = values (exec (drainLoop growslice entries) st)).
  { by rewrite Hst'. }
  assert (Hnd : NoDup entries.*1).
  { rewrite Hperm. apply NoDup_fst_map_to_list. }
  assert (Hids : forall e, e ∈ entries ->
            itemID (NodeElem (finalValue (valueAt st e.2))) = Some e.1).
  { intros [k p] He. apply Hentry in He.
    destruct (Inv_table_values _ _ _ HI He) as (v & Hv & Hid).
    cbn. unfold valueAt. rewrite Hv. cbn. by rewrite ID_finalValue, Hid. }
  assert (Hper : forall k p, turningCircleLoop st !! k = Some p ->
     exists v, values st !! p = Some v /\ ID v = k /\
       values st' !! p = Some (finalValue v) /\
       NodeElem (finalValue v) ∈ drained /\
       length (filter (fun i => itemID i = Some k) drained) = 1 /\
       (annotated v = false ->
          Tags (finalValue v) = Tags v ++ [mkTag "fzk_turning" "not_set"]) /\
       (annotated v = true -> finalValue v = v)).
  { intros k p Hk. destruct (Inv_table_values _ _ _ HI Hk) as (v & Hv & Hid).
    assert (Hin : (k, p) ∈ entries) by (by apply Hentry).
    exists v. split; [done|]. split; [done|]. split; [|split; [|split; [|split]]].
    - rewrite Hvs, (Hvals1 p v Hv). rewrite bool_decide_eq_true_2; [done|].
      apply list_elem_of_fmap. by exists (k, p).
    - unfold drained. apply list_elem_of_fmap. exists (k, p). split; [|done].
      cbn. unfold valueAt. by rewrite Hv.
    - unfold drained. by apply (filter_ids_once entries _ k p).
    - intros Ha. unfold finalValue. rewrite Ha. unfold withTag. by rewrite Tags_set_Tags.
    - intros Ha. unfold finalValue. by rewrite Ha. }
  split; [exact Hw|]. split; [exact Hper|].
  intros pre v spare post Hobjs Htn Ha Hways Hnodes.
  pose proof (reach_Inv growslice start pre) as HIp.
  destruct (processNode_spec growslice (reach growslice start pre) v spare HIp)
    as (HI0 & Hv0 & _ & _ & _ & Ht0).
  rewrite Htn in Ht0.
  set (st0 := exec (processNode growslice v spare) (reach growslice start pre)) in *.
  set (p0 := length (heap (reach growslice start pre))) in *.
  assert (Hvp0 : values st0 !! p0 = Some v).
  { rewrite Hv0. rewrite lookup_app_r by (rewrite values_length; done).
    rewrite values_length. unfold p0. by rewrite Nat.sub_diag. }
  assert (Htp0 : turningCircleLoop st0 !! ID v = Some p0).
  { rewrite Ht0. apply lookup_insert_eq. }
  assert (Hst : st = exec (scanLoop growslice post) st0).
  { unfold st. rewrite Hobjs, reach_app. cbn [scanLoop]. by rewrite exec_seq. }
  destruct (scanLoop_untouched growslice post st0 p0 v HI0 Hvp0 Htp0 Ha Hways Hnodes)
    as [Hvst Htst].
  rewrite <- Hst in Hvst, Htst.
  destruct (Hper (ID v) p0 Htst) as (v2 & Hv2 & _ & _ & Hin & _).
  assert (v2 = v) as -> by congruence.
  unfold finalValue in Hin. by rewrite Ha in Hin.
Qed.

Lemma C5_drain_finalizes_witness :
  map_to_list (turningCircleLoop (reach growDouble 1000 exampleRun))
    ≡ₚ map_to_list (turningCircleLoop (reach growDouble 1000 exampleRun)) /\
  writer (exec (drainPhase growDouble map_to_list) (reach growDouble 1000 exampleRun))
  = writer (reach growDouble 1000 exampleRun) ++
    [ NodeElem (exampleNode 77 [mkTag "highway" "turning_circle";
                                mkTag "fzk_turning" "service"]);
      NodeElem (exampleNode 78 [mkTag "highway" "turning_loop";
                                mkTag "fzk_turning" "not_set"]);
      OsmClose ].
Proof.
  split; [reflexivity|].
  destruct (C5_drain_finalizes growDouble map_to_list 1000 exampleRun
              ltac:(reflexivity)) as (Hw & _).
  rewrite Hw. reflexivity.
Defined.

(** Claim C5 as stated fails for a turning point that the input
    delivers with a fzk_turning tag: no way references it, and it is
    written as it came, without fzk_turning = not_set. *)
Lemma C5_counterexample :
  let v := exampleNode 77 [mkTag "highway" "turning_circle";
                           mkTag "fzk_turning" "service"] in
  let st := reach growDouble 1000 [ObjNode v 0] in
  let st' := exec (drainPhase growDouble map_to_list) st in
  turningCircleLoop st !! 77%Z = Some 0 /\
  writer st' = [XmlDecl; OsmOpen; NodeElem v; OsmClose] /\
  (mkTag "fzk_turning" "not_set" ∉ Tags v) /\
  tagsAt st' 0 = Tags v.
Proof.
  cbv zeta. split; [vm_compute; reflexivity|]. split; [vm_compute; reflexivity|].
  split; [|vm_compute; reflexivity].
  cbn. intros H. repeat (apply elem_of_cons in H as [H|H]; [discriminate H|]).
  by apply elem_of_nil in H.
Qed.



Lemma qualifyingHighway_iff tv :
  qualifyingHighway tv = true <->
  tv ∈ ["residential"; "living_street"; "unclassified"; "service"; "track"].
Proof.
  unfold qualifyingHighway. rewrite !orb_true_iff, !String.eqb_eq.
  rewrite !elem_of_cons, elem_of_nil. tauto.
Qed.

(** C8. The scanner loop calls [addHighwayTypeToTurningCircleLoop] for
    a way exactly when the way's highway value is one of residential,
    living_street, unclassified, service, track; for every other way
    the state stays as it is.  The call returns the number of nodes
    that carry no fzk_turning tag before it and carry one after it.
    (The number of node references of a way fits an [int].) *)
Theorem C8_annotation_gate_and_count
    (growslice : nat -> nat -> nat) start objs e :
  (Z.of_nat (length (Nodes e)) < 2 ^ 63)%Z ->
  let st := reach growslice start objs in
  let tags := Tags_Map (WayTags e) in
  let st' := exec (processObject growslice (ObjWay e)) st in
  (forall tv, qualifyingHighway tv = true <->
     tv ∈ ["residential"; "living_street"; "unclassified"; "service"; "track"]) /\
  ((forall tv, tags !! "highway" = Some tv -> qualifyingHighway tv = false) -> st' = st) /\
  (forall tv, tags !! "highway" = Some tv -> qualifyingHighway tv = true ->
     let r := addHighwayTypeToTurningCircleLoop growslice e tags tv st in
     st' = set_turningCircleLoopModified
             (wrap64 (turningCircleLoopModified (snd r) + fst r)) (snd r)) /\
  (forall hw,
     let r := addHighwayTypeToTurningCircleLoop growslice e tags hw st in
     fst r = Z.of_nat (length (filter
               (fun vv => annotated vv.1 = false /\ annotated vv.2 = true)
               (zip (values st) (values (snd r)))))).
Proof.
  intros Hlen st tags st'.
  pose proof (reach_Inv growslice start objs) as HI. fold st in HI.
  pose proof (processWay_spec growslice st e HI) as Hw. cbv zeta in Hw.
  cbn [processObject] in st'. fold tags st' in Hw.
  split; [exact qualifyingHighway_iff|]. split; [|split].
  - intros Hnq. destruct (tags !! "highway") as [tv|]; [|done].
    by rewrite (Hnq tv eq_refl) in Hw.
  - intros tv Htv Hq. rewrite Htv, Hq in Hw. exact Hw.
  - intros hw. unfold addHighwayTypeToTurningCircleLoop.
    destruct (annotateLoop_count growslice (Nodes e) st hw 0%Z HI ltac:(lia) ltac:(lia))
      as [Hc _].
    pose proof (annotatedCount_zip _ _ (annotateLoop_monotone growslice st hw 0%Z (Nodes e) HI))
      as Hz.
    cbv zeta. rewrite Hc. unfold annotatedCount. rewrite Hz. lia.
Qed.

Lemma C8_annotation_gate_and_count_witness :
  (Z.of_nat (length (Nodes serviceWay)) < 2 ^ 63)%Z /\
  fst (addHighwayTypeToTurningCircleLoop growDouble serviceWay
         (Tags_Map (WayTags serviceWay)) "service"
         (reach growDouble 1000 [ObjNode turning77 1])) = 1%Z.
Proof.
  assert (H : (Z.of_nat (length (Nodes serviceWay)) < 2 ^ 63)%Z) by (cbn; lia).
  split; [exact H|].
  destruct (C8_annotation_gate_and_count growDouble 1000 [ObjNode turning77 1]
              serviceWay H) as (_ & _ & _ & Hc).
  rewrite (Hc "service"). reflexivity.
Defined.

(** C9. [createNewNodeNetworkObject] leaves every node object as it is
    (identifier, coordinates, metadata and the header of the tag
    slice), writes into no backing array that existed before (the tags
    of the derived nodes live in newly allocated arrays) and leaves the
    table alone, so every node, the source included, shows the same
    value before and after.  A point that is network-tagged and
    turning-tagged stands in the table, after the scanner loop has
    processed it, with the tags it was read with. *)
Theorem C9_source_unchanged (growslice : nat -> nat -> nat) start objs e :
  let st := reach growslice start objs in
  let st' := exec (createNewNodeNetworkObject growslice e) st in
  heap st' = heap st /\
  (exists ext, arrays st' = arrays st ++ ext) /\
  values st' = values st /\
  turningCircleLoop st' = turningCircleLoop st /\
  (forall v spare,
     isNodeNetwork (Tags_Map (Tags v)) = true -> isTurning (Tags_Map (Tags v)) = true ->
     let st2 := exec (processObject growslice (ObjNode v spare)) st in
     turningCircleLoop st2 !! ID v = Some (length (heap st)) /\
     values st2 !! length (heap st) = Some v).
Proof.
  intros st st'.
  pose proof (reach_Inv growslice start objs) as HI. fold st in HI.
  destruct (createNewNodeNetworkObject_spec growslice st e)
    as (Hh & Ht & _ & [ext Ha] & _ & _).
  fold st' in Hh, Ht, Ha.
  destruct (Inv_extend st st' ext HI Hh Ht Ha) as [_ Hv].
  split; [exact Hh|]. split; [by exists ext|]. split; [exact Hv|]. split; [exact Ht|].
  intros v spare Hnet Htn st2.
  destruct (processNode_spec growslice st v spare HI) as (_ & Hv2 & _ & _ & _ & Ht2).
  cbn [processObject] in st2. fold st2 in Hv2, Ht2. rewrite Htn in Ht2. split.
  - rewrite Ht2. apply lookup_insert_eq.
  - rewrite Hv2. rewrite lookup_app_r by (rewrite values_length; done).
    rewrite values_length. by rewrite Nat.sub_diag.
Qed.

(** C10. In one call of [addHighwayTypeToTurningCircleLoop] the later
    repetitions of a node reference have no effect: the call does what
    it does on the way without them.  Every node gets at most one tag
    appended, and the value returned is at most the number of distinct
    identifiers that the way references.  (The number of node
    references of a way fits an [int].) *)
Theorem C10_repeated_reference
    (growslice : nat -> nat -> nat) start objs e tags hw :
  (Z.of_nat (length (Nodes e)) < 2 ^ 63)%Z ->
  let st := reach growslice start objs in
  let r := addHighwayTypeToTurningCircleLoop growslice e tags hw st in
  let distinct := firstOccurrences [] (Nodes e) in
  r = addHighwayTypeToTurningCircleLoop growslice
        (mkWay (WayID e) (WayTags e) distinct) tags hw st /\
  NoDup (wn_ID <$> distinct) /\
  (forall id, id ∈ (wn_ID <$> distinct) <-> id ∈ (wn_ID <$> Nodes e)) /\
  (forall p v, values st !! p = Some v ->
     exists l, values (snd r) !! p = Some (set_Tags (Tags v ++ l) v) /\
               (l = [] \/ l = [mkTag "fzk_turning" hw])) /\
  (0 <= fst r <= Z.of_nat (length distinct))%Z.
Proof.
  intros Hlen st r distinct.
  pose proof (reach_Inv growslice start objs) as HI. fold st in HI.
  assert (Heq : r = addHighwayTypeToTurningCircleLoop growslice
                      (mkWay (WayID e) (WayTags e) distinct) tags hw st).
  { unfold r, addHighwayTypeToTurningCircleLoop. cbn [Nodes].
    apply annotateLoop_firstOccurrences; [done|].
    intros id Hid. by apply elem_of_nil in Hid. }
  destruct (firstOccurrences_NoDup [] (Nodes e)) as (Hnd & Hin & Hall).
  split; [exact Heq|]. split; [exact Hnd|]. split; [|split].
  - intros id. split.
    + intros Hid. by destruct (Hin id Hid).
    + intros Hid. apply Hall; [done|]. apply not_elem_of_nil.
  - intros p v Hv. unfold r, addHighwayTypeToTurningCircleLoop.
    destruct (annotateLoop_values growslice (Nodes e) st hw 0%Z HI) as (_ & _ & _ & Hvals).
    rewrite (Hvals p v Hv).
    destruct (annotated v).
    + exists []. rewrite app_nil_r, set_Tags_id. split; [done|by left].
    + destruct (referenced (turningCircleLoop st) (Nodes e) p).
      * exists [mkTag "fzk_turning" hw]. split; [done|by right].
      * exists []. rewrite app_nil_r, set_Tags_id. split; [done|by left].
  - rewrite Heq. unfold addHighwayTypeToTurningCircleLoop. cbn [Nodes].
    pose proof (firstOccurrences_length [] (Nodes e)) as Hle. fold distinct in Hle.
    destruct (annotateLoop_count growslice distinct st hw 0%Z HI ltac:(lia) ltac:(lia))
      as [_ Hb].
    lia.
Qed.

Lemma C10_repeated_reference_witness :
  (Z.of_nat (length (Nodes serviceWay)) < 2 ^ 63)%Z /\
  firstOccurrences [] (Nodes serviceWay) = [mkWayNode 77; mkWayNode 3] /\
  addHighwayTypeToTurningCircleLoop growDouble serviceWay
     (Tags_Map (WayTags serviceWay)) "service" (reach growDouble 1000 [ObjNode turning77 1])
  = addHighwayTypeToTurningCircleLoop growDouble
     (mkWay 9 [mkTag "highway" "service"] [mkWayNode 77; mkWayNode 3])
     (Tags_Map (WayTags serviceWay)) "service" (reach growDouble 1000 [ObjNode turning77 1]).
Proof.
  assert (H : (Z.of_nat (length (Nodes serviceWay)) < 2 ^ 63)%Z) by (cbn; lia).
  split; [exact H|]. split; [reflexivity|].
  exact (proj1 (C10_repeated_reference growDouble 1000 [ObjNode turning77 1] serviceWay
                  (Tags_Map (WayTags serviceWay)) "service" H)).
Defined.

(** The end-to-end scenario of the specification (section 8). *)
Example end_to_end_scenario :
  main growDouble map_to_list exampleElementID (mkFlags "osmdata.pbf" "osmpp.xml" 1000)
       (mkEnv true true true true true true)
       [ ObjNode (exampleNode 5 [mkTag "network:type" "node_network"; mkTag "rcn_ref" "53"]) 0;
         ObjNode turning77 0;
         ObjWay (mkWay 9 [mkTag "highway" "service"] [mkWayNode 77]) ]
  = (Done,
     mkState
       [ [];
         [mkTag "network:type" "node_network"; mkTag "rcn_ref" "53"];
         [mkTag "node_network" "node_bicycle"];
         [mkTag "node_network" "node_bicycle"; mkTag "name" "53"];
         [mkTag "highway" "turning_circle"];
         [mkTag "highway" "turning_circle"; mkTag "fzk_turning" "service"] ]
       [ set_Tags (mkSlice 1 2 2)
           (exampleNode 5 [mkTag "network:type" "node_network"; mkTag "rcn_ref" "53"]);
         set_Tags (mkSlice 5 2 2) turning77 ]
       1001%Z
       [ XmlDecl; OsmOpen;
         NodeElem (exampleNode 1000 [mkTag "node_network" "node_bicycle"; mkTag "name" "53"]);
         NodeElem (exampleNode 77 [mkTag "highway" "turning_circle";
                                   mkTag "fzk_turning" "service"]);
         OsmClose ]
       {[ 77%Z := 1 ]}
       1%Z).
Proof. vm_compute. reflexivity. Qed.

(** * Further properties of the code *)

Lemma spec_request_cases tags c :
  (spec_firstPresent c.2 tags = None /\ spec_request tags c = []) \/
  (exists v, spec_firstPresent c.2 tags = Some v /\ spec_request tags c = [(c.1, v)]).
Proof.
  unfold spec_request. destruct (spec_firstPresent c.2 tags) as [v|]; [right|left]; eauto.
Qed.

Lemma spec_firstPresent_None keys tags :
  spec_firstPresent keys tags = None <-> forall k, k ∈ keys -> tags !! k = None.
Proof.
  induction keys as [|k keys IH]; cbn [spec_firstPresent].
  - split; [|done]. intros _ k Hk. by apply elem_of_nil in Hk.
  - destruct (tags !! k) as [v|] eqn:Hk.
    + split; [done|]. intros H. specialize (H k ltac:(left)). congruence.
    + rewrite IH. split.
      * intros H k' Hk'. apply elem_of_cons in Hk' as [->|Hk']; auto.
      * intros H k' Hk'. apply H. by right.
Qed.

Lemma spec_requests_unfold tags :
  spec_requests tags =
    spec_request tags ("node_bicycle", spec_bicycleKeys) ++
    spec_request tags ("node_hiking", spec_hikingKeys) ++
    spec_request tags ("node_inline_skates", ["rin_ref"]) ++
    spec_request tags ("node_horse", ["rhn_ref"]) ++
    spec_request tags ("node_canoe", ["rpn_ref"]) ++
    spec_request tags ("node_motorboat", ["rmn_ref"]).
Proof.
  unfold spec_requests, spec_categories. cbn [fmap list_fmap concat].
  by rewrite app_nil_r.
Qed.

Lemma spec_requests_labels tags : (spec_requests tags).*1 `sublist_of` spec_labels.
Proof.
  rewrite spec_requests_unfold. unfold spec_labels.
  destruct (spec_request_cases tags ("node_bicycle", spec_bicycleKeys)) as [[_ ->]|(? & _ & ->)];
  destruct (spec_request_cases tags ("node_hiking", spec_hikingKeys)) as [[_ ->]|(? & _ & ->)];
  destruct (spec_request_cases tags ("node_inline_skates", ["rin_ref"])) as [[_ ->]|(? & _ & ->)];
  destruct (spec_request_cases tags ("node_horse", ["rhn_ref"])) as [[_ ->]|(? & _ & ->)];
  destruct (spec_request_cases tags ("node_canoe", ["rpn_ref"])) as [[_ ->]|(? & _ & ->)];
  destruct (spec_request_cases tags ("node_motorboat", ["rmn_ref"])) as [[_ ->]|(? & _ & ->)];
  cbn; repeat first [apply sublist_nil | apply sublist_skip | apply sublist_cons].
Qed.

Lemma spec_requests_nil tags :
  spec_requests tags = [] <-> forall k, k ∈ spec_referenceKeys -> tags !! k = None.
Proof.
  rewrite spec_requests_unfold. split.
  - intros H.
    repeat (apply app_eq_nil in H as [?H H]).
    repeat match goal with
    | Hn : spec_request tags ?c = [] |- _ =>
      let Hc := fresh in
      destruct (spec_request_cases tags c) as [[Hc _]|(? & _ & Hc)];
        [|rewrite Hn in Hc; discriminate Hc];
      cbn [snd] in Hc; rewrite spec_firstPresent_None in Hc; clear Hn
    end.
    unfold spec_bicycleKeys, spec_hikingKeys, spec_referenceKeys in *.
    intros k Hk. rewrite !elem_of_cons, elem_of_nil in Hk.
    repeat (destruct Hk as [->|Hk]; [auto using list_elem_of_here with nocore; 
      first [ by match goal with Hc : forall k, k ∈ _ -> _ |- _ =>
                   apply Hc; rewrite !elem_of_cons; tauto end ] |]).
    done.
  - intros H.
    assert (Hreq : forall l keys, (forall k, k ∈ keys -> k ∈ spec_referenceKeys) ->
              spec_request tags (l, keys) = []).
    { intros l keys Hsub. unfold spec_request. cbn [fst snd].
      assert (Hn : spec_firstPresent keys tags = None)
        by (apply spec_firstPresent_None; auto).
      by rewrite Hn. }
    rewrite !Hreq; [done|..];
      intros k Hk; unfold spec_referenceKeys, spec_bicycleKeys, spec_hikingKeys in *;
      rewrite !elem_of_cons, elem_of_nil in *; tauto.
Qed.

(** X1. [createNewNodeNetworkObject] writes, for the tag map of its
    source node, one derived node per category that has a reference
    key: in the order bicycle, hiking, inline skates, horse, canoe,
    motorboat, with consecutive identifiers in 64 bit arithmetic, and
    advances the counter by their number; at most six, and none at all
    exactly when none of the twelve reference keys is present. *)
Theorem X1_derived_nodes_per_category (growslice : nat -> nat -> nat) st e :
  let src := default zeroNode (heap st !! e) in
  let rs := spec_requests (Tags_Map (tagsAt st e)) in
  let st' := exec (createNewNodeNetworkObject growslice e) st in
  writer st' = writer st ++ derivedItems src (newNodeID st) rs /\
  newNodeID st' = bump (length rs) (newNodeID st) /\
  length rs <= 6 /\
  rs.*1 `sublist_of` spec_labels /\
  (writer st' = writer st <->
     forall k, k ∈ spec_referenceKeys -> Tags_Map (tagsAt st e) !! k = None).
Proof.
  intros src rs st'.
  destruct (createNewNodeNetworkObject_spec growslice st e) as (_ & _ & _ & _ & Hn & Hw).
  fold src st' in Hn, Hw. unfold tagsAt in rs. fold src in rs. fold rs in Hn, Hw.
  pose proof (spec_requests_labels (Tags_Map (slice_read (arrays st) (Tags src)))) as Hl.
  fold rs in Hl.
  split; [exact Hw|]. split; [exact Hn|]. split; [|split; [exact Hl|]].
  - apply sublist_length in Hl. rewrite length_fmap in Hl. exact Hl.
  - unfold tagsAt. fold src. rewrite <- spec_requests_nil. fold rs. rewrite Hw. split.
    + intros H. apply (f_equal length) in H. rewrite length_app in H.
      destruct rs; [done|]. cbn in H. lia.
    + intros ->. cbn. by rewrite app_nil_r.
Qed.


Lemma zip_filter_nonempty (l l' : list NodeValue) p v v' :
  l !! p = Some v -> l' !! p = Some v' -> annotated v = false -> annotated v' = true ->
  0 < length (filter (fun vv => annotated vv.1 = false /\ annotated vv.2 = true) (zip l l')).
Proof.
  intros Hl Hl' Ha Ha'.
  assert (Hin : (v, v') ∈ filter (fun vv => annotated vv.1 = false /\ annotated vv.2 = true)
                   (zip l l')).
  { apply list_elem_of_filter. split; [done|].
    apply list_elem_of_lookup. exists p. apply lookup_zip_Some. done. }
  destruct (filter _ (zip l l')); [by apply elem_of_nil in Hin|cbn; lia].
Qed.

(** X4. A call of [addHighwayTypeToTurningCircleLoop] in which every
    node reference is either unknown to the table or leads to a node
    that already carries a fzk_turning tag changes nothing at all and
    returns 0; and 0 is returned only in that case.  In particular
    references to points that are not turning points, or that the
    scanner has not delivered yet, are skipped silently. *)
Theorem X4_unknown_references_are_skipped
    (growslice : nat -> nat -> nat) start objs e tags hw :
  (Z.of_nat (length (Nodes e)) < 2 ^ 63)%Z ->
  let st := reach growslice start objs in
  let r := addHighwayTypeToTurningCircleLoop growslice e tags hw st in
  let skipped := forall node, node ∈ Nodes e ->
       turningCircleLoop st !! wn_ID node = None \/
       exists p, turningCircleLoop st !! wn_ID node = Some p /\
                 fzkTagFound (tagsAt st p) = true in
  (skipped -> r = (0%Z, st)) /\
  (fst r = 0%Z -> skipped).
Proof.
  intros Hlen st r skipped.
  pose proof (reach_Inv growslice start objs) as HI. fold st in HI. split.
  - intros Hs. apply annotateLoop_settled. intros node Hin p Hp.
    destruct (Hs node Hin) as [Hn|(q & Hq & Hf)]; congruence.
  - intros H0 node Hin.
    destruct (turningCircleLoop st !! wn_ID node) as [p|] eqn:Hp; [|by left].
    right. exists p. split; [done|].
    destruct (Inv_table_values _ _ _ HI Hp) as (v & Hv & _).
    rewrite (tagsAt_values _ _ _ Hv).
    destruct (fzkTagFound (Tags v)) eqn:Ha; [done|]. exfalso.
    unfold r, addHighwayTypeToTurningCircleLoop in H0.
    destruct (annotateLoop_values growslice (Nodes e) st hw 0%Z HI) as (_ & _ & _ & Hvals).
    specialize (Hvals p v Hv). unfold annotated in Hvals. rewrite Ha in Hvals.
    rewrite (referenced_true _ _ _ _ Hin Hp) in Hvals.
    destruct (annotateLoop_count growslice (Nodes e) st hw 0%Z HI ltac:(lia) ltac:(lia))
      as [Hc _].
    pose proof (annotatedCount_zip _ _ (annotateLoop_monotone growslice st hw 0%Z (Nodes e) HI))
      as Hz.
    pose proof (zip_filter_nonempty _ _ p v _ Hv Hvals Ha (annotated_withTag v hw)) as Hpos.
    unfold annotatedCount in Hc. rewrite Hz in Hc. lia.
Qed.

Lemma X4_unknown_references_are_skipped_witness :
  (Z.of_nat (length (Nodes serviceWay)) < 2 ^ 63)%Z /\
  addHighwayTypeToTurningCircleLoop growDouble serviceWay
    (Tags_Map (WayTags serviceWay)) "service" (reach growDouble 1000 [ObjNode junction53 0])
  = (0%Z, reach growDouble 1000 [ObjNode junction53 0]).
Proof.
  assert (H : (Z.of_nat (length (Nodes serviceWay)) < 2 ^ 63)%Z) by (cbn; lia).
  split; [exact H|].
  apply (X4_unknown_references_are_skipped growDouble 1000 [ObjNode junction53 0]
           serviceWay (Tags_Map (WayTags serviceWay)) "service" H).
  intros node Hin. left. vm_compute. reflexivity.
Defined.

Lemma decodedNodes_app a b : decodedNodes (a ++ b) = decodedNodes a ++ decodedNodes b.
Proof. unfold decodedNodes. apply omap_app. Qed.

Lemma lastTurningPoint_snoc ds v k p :
  lastTurningPoint (ds ++ [v]) k p <->
  if isTurning (Tags_Map (Tags v))
  then (k = ID v /\ p = length ds) \/ (k <> ID v /\ lastTurningPoint ds k p)
  else lastTurningPoint ds k p.
Proof.
  assert (Hold : forall q w, q < length ds -> (ds ++ [v]) !! q = Some w <-> ds !! q = Some w).
  { intros q w Hq. by rewrite lookup_app_l. }
  assert (Hlast : forall q w, (ds ++ [v]) !! q = Some w -> q < length ds \/ (q = length ds /\ w = v)).
  { intros q w Hq. apply lookup_app_Some in Hq as [Hq|[Hge Hq]].
    - left. by eapply lookup_lt_Some.
    - right. destruct (q - length ds) as [|j] eqn:Hj; [|done].
      injection Hq as <-. split; [lia|done]. }
  assert (Hrestrict : forall p0, lastTurningPoint (ds ++ [v]) k p0 -> p0 < length ds ->
            lastTurningPoint ds k p0).
  { intros p0 (v0 & Hv0 & Hid & Htn & Hlater) Hlt. exists v0.
    split; [by apply Hold|]. split; [done|]. split; [done|].
    intros q w Hpq Hq. apply (Hlater q w Hpq). apply lookup_app_l_Some. done. }
  assert (Hextend : forall p0, lastTurningPoint ds k p0 ->
            (isTurning (Tags_Map (Tags v)) = true -> ID v <> k) ->
            lastTurningPoint (ds ++ [v]) k p0).
  { intros p0 (v0 & Hv0 & Hid & Htn & Hlater) Hv. exists v0.
    split; [by apply lookup_app_l_Some|]. split; [done|]. split; [done|].
    intros q w Hpq Hq Htw. destruct (Hlast q w Hq) as [Hlt|[-> ->]].
    - apply (Hlater q w Hpq); [|done]. by apply Hold.
    - by apply Hv. }
  destruct (isTurning (Tags_Map (Tags v))) eqn:Htv; split.
  - intros H. pose proof H as (v0 & Hv0 & Hid & Htn & Hlater).
    destruct (Hlast p v0 Hv0) as [Hlt|[-> ->]]; [|by left].
    right. split; [|by apply Hrestrict].
    intros ->. apply (Hlater (length ds) v); [done| |done|done].
    rewrite lookup_app_r by done. by rewrite Nat.sub_diag.
  - intros [[-> ->]|[Hne H]].
    + exists v. split; [rewrite lookup_app_r by done; by rewrite Nat.sub_diag|].
      split; [done|]. split; [done|].
      intros q w Hpq Hq. destruct (Hlast q w Hq) as [?|[? ?]]; lia.
    + apply Hextend; [done|]. intros _. congruence.
  - intros H. pose proof H as (v0 & Hv0 & Hid & Htn & Hlater).
    destruct (Hlast p v0 Hv0) as [Hlt|[-> ->]]; [by apply Hrestrict|congruence].
  - intros H. apply Hextend; [done|]. intros ?. congruence.
Qed.

(** The heap and the table in terms of the nodes read. *)
Lemma reach_decoded growslice start objs :
  let st := reach growslice start objs in
  Forall2 annotatedFrom (decodedNodes objs) (values st) /\
  (forall k p, turningCircleLoop st !! k = Some p <->
               lastTurningPoint (decodedNodes objs) k p).
Proof.
  induction objs as [|o objs IH] using rev_ind.
  - cbn. split; [constructor|]. intros k p. rewrite lookup_empty. split; [done|].
    intros (v & Hv & _). by rewrite lookup_nil in Hv.
  - cbv zeta in *. rewrite reach_snoc, decodedNodes_app.
    pose proof (reach_Inv growslice start objs) as HI.
    set (st := reach growslice start objs) in *.
    destruct IH as [IHv IHt].
    destruct o as [v spare|e|r]; cbn [processObject decodedNodes omap list_omap].
    + destruct (processNode_spec growslice st v spare HI) as (_ & Hv & _ & _ & _ & Ht).
      fold (decodedNodes objs). split.
      * rewrite Hv. apply Forall2_app; [done|]. constructor; [by left|constructor].
      * intros k p. rewrite lastTurningPoint_snoc, Ht.
        assert (Hlen : length (heap st) = length (decodedNodes objs)).
        { rewrite <- values_length. symmetry. by eapply Forall2_length. }
        destruct (isTurning (Tags_Map (Tags v))); [|apply IHt].
        rewrite Hlen. destruct (decide (k = ID v)) as [->|Hne].
        -- rewrite lookup_insert_eq. split.
           ++ intros [= <-]. by left.
           ++ intros [[_ ->]|[? _]]; done.
        -- rewrite lookup_insert_ne by done. rewrite IHt. split.
           ++ intros H. by right.
           ++ intros [[? _]|[_ H]]; done.
    + rewrite app_nil_r.
      pose proof (processWay_spec growslice st e HI) as Hw. cbv zeta in Hw.
      destruct (processWay_Inv growslice st e HI) as (_ & _ & _ & Ht & _).
      split; [|intros k p; rewrite Ht; apply IHt].
      destruct (Tags_Map (WayTags e) !! "highway") as [tv|]; [|by rewrite Hw].
      destruct (qualifyingHighway tv) eqn:Hq; [|by rewrite Hw].
      rewrite Hw. unfold addHighwayTypeToTurningCircleLoop.
      change (values (set_turningCircleLoopModified ?c ?s)) with (values s).
      destruct (annotateLoop_values growslice (Nodes e) st tv 0%Z HI)
        as (_ & _ & Hlen & Hvals).
      apply Forall2_same_length_lookup. split.
      * rewrite Hlen. by eapply Forall2_length.
      * intros i v w' Hv Hw'.
        destruct (Forall2_lookup_l _ _ _ _ _ IHv Hv) as (w & Hwi & Hvw).
        rewrite (Hvals i w Hwi) in Hw'. injection Hw' as <-.
        destruct (annotated w) eqn:Ha; [done|].
        destruct (referenced (turningCircleLoop st) (Nodes e) i) eqn:Hrf; [|done].
        unfold referenced in Hrf. apply existsb_exists in Hrf as (node & _ & Hd).
        apply bool_decide_eq_true_1 in Hd. apply IHt in Hd as (v0 & Hv0 & _ & Htn & _).
        assert (v0 = v) as -> by congruence.
        destruct Hvw as [->|(_ & _ & hw & _ & ->)].
        -- right. split; [done|]. split; [done|]. by exists tv.
        -- by rewrite annotated_withTag in Ha.
    + rewrite app_nil_r, exec_ret. done.
Qed.

(** X5. At every moment of the scanner loop the table holds exactly
    the identifiers of the turning points read so far, and maps each
    to the node object of the last turning point read with that
    identifier (the pointer is the position among the nodes read). *)
Theorem X5_table_holds_last_turning_points (growslice : nat -> nat -> nat) start objs :
  let st := reach growslice start objs in
  let ds := decodedNodes objs in
  (forall k p, turningCircleLoop st !! k = Some p <-> lastTurningPoint ds k p) /\
  (forall k, is_Some (turningCircleLoop st !! k) <->
     exists v, v ∈ ds /\ ID v = k /\ isTurning (Tags_Map (Tags v)) = true) /\
  length (heap st) = length ds.
Proof.
  intros st ds. destruct (reach_decoded growslice start objs) as [Hv Ht].
  fold st ds in Hv, Ht. split; [exact Ht|]. split.
  - intros k. split.
    + intros [p Hp]. apply Ht in Hp as (v & Hv0 & Hid & Htn & _).
      exists v. split; [|done]. apply list_elem_of_lookup. by exists p.
    + intros (v & Hin & Hid & Htn).
      enough (Hex : exists p, lastTurningPoint ds k p).
      { destruct Hex as [p Hp]. exists p. by apply Ht. }
      clear Hv Ht. revert Hin. induction ds as [|w ds IHds] using rev_ind.
      * intros Hin. by apply elem_of_nil in Hin.
      * intros Hin. destruct (isTurning (Tags_Map (Tags w))) eqn:Hw.
        -- destruct (decide (k = ID w)) as [->|Hne].
           ++ exists (length ds). apply lastTurningPoint_snoc. rewrite Hw. by left.
           ++ apply elem_of_app in Hin as [Hin|Hin].
              ** destruct (IHds Hin) as [p Hp]. exists p.
                 apply lastTurningPoint_snoc. rewrite Hw. by right.
              ** apply list_elem_of_singleton in Hin. congruence.
        -- apply elem_of_app in Hin as [Hin|Hin].
           ++ destruct (IHds Hin) as [p Hp]. exists p.
              apply lastTurningPoint_snoc. by rewrite Hw.
           ++ apply list_elem_of_singleton in Hin. congruence.
  - rewrite <- values_length. symmetry. by eapply Forall2_length.
Qed.

(** X6. At every moment of the scanner loop the heap holds the nodes
    read so far, in the order of reading, and each of them is as it was
    read or has exactly one tag appended: fzk_turning with one of the
    five highway values, and that only if it is a turning point that
    was read without a fzk_turning tag.  No other field and no tag
    that was read is ever changed, removed or reordered. *)
Theorem X6_nodes_only_gain_one_annotation (growslice : nat -> nat -> nat) start objs :
  let st := reach growslice start objs in
  Forall2 annotatedFrom (decodedNodes objs) (values st) /\
  (forall p v w, decodedNodes objs !! p = Some v -> values st !! p = Some w ->
     ID w = ID v /\ Lat w = Lat v /\ Lon w = Lon v /\ User w = User v /\
     UserID w = UserID v /\ Visible w = Visible v /\ Version w = Version v /\
     ChangesetID w = ChangesetID v /\ Timestamp w = Timestamp v /\
     Committed w = Committed v /\
     exists l, Tags w = Tags v ++ l /\ length l <= 1 /\
       (isTurning (Tags_Map (Tags v)) = false -> l = []) /\
       (annotated v = true -> l = [])).
Proof.
  intros st. destruct (reach_decoded growslice start objs) as [Hv _]. fold st in Hv.
  split; [exact Hv|].
  intros p v w Hp Hw. destruct (Forall2_lookup_l _ _ _ _ _ Hv Hp) as (w' & Hw' & Hvw).
  assert (w' = w) as -> by congruence.
  destruct Hvw as [->|(Htn & Ha & hw & _ & ->)].
  - do 10 (split; [done|]). exists []. rewrite app_nil_r.
    split; [done|]. split; [cbn; lia|]. done.
  - do 10 (split; [done|]). exists [fzkTag hw]. unfold withTag. rewrite Tags_set_Tags.
    split; [done|]. split; [cbn; lia|]. split; congruence.
Qed.

Lemma appendTag_writer growslice p t st :
  writer (exec (appendTag growslice p t) st) = writer st.
Proof.
  unfold appendTag, exec, bind, deref, gets, storeTags, modify, append. cbn beta iota.
  by destruct (sl_len _ <? sl_cap _).
Qed.

Lemma drainEntry_writer growslice p st :
  exists n, writer (exec (drainEntry growslice p) st) = writer st ++ [NodeElem n].
Proof.
  unfold drainEntry. rewrite exec_bind_deref, exec_bind_readTags, exec_seq.
  rewrite exec_bind_deref. unfold marshal. rewrite exec_bind.
  unfold write. rewrite exec_modify. cbn [writer set_writer].
  eexists. f_equal.
  change (writer (readTags ?s ?st0).2) with (writer st0).
  destruct (fzkTagFound _); [by rewrite exec_ret|apply appendTag_writer].
Qed.

Lemma drainLoop_writer growslice entries : forall st,
  exists ns, writer (exec (drainLoop growslice entries) st) = writer st ++ (NodeElem <$> ns) /\
             length ns = length entries.
Proof.
  induction entries as [|[k p] rest IH]; intros st.
  - exists []. cbn. by rewrite app_nil_r.
  - cbn [drainLoop]. rewrite exec_seq.
    destruct (drainEntry_writer growslice p st) as [n Hn].
    destruct (IH (exec (drainEntry growslice p) st)) as (ns & Hns & Hlen).
    exists (n :: ns). rewrite Hns, Hn, <- app_assoc. cbn. split; [done|]. by rewrite Hlen.
Qed.

Lemma derivedItems_shape {T} (src : NodeOf T) id rs :
  (forall r, r ∈ rs -> r.1 ∈ spec_labels) -> Forall derivedShape (derivedItems src id rs).
Proof.
  revert id. induction rs as [|r rs IH]; intros id Hl; [constructor|].
  cbn [derivedItems]. constructor.
  - eexists _, r.1, r.2. split; [reflexivity|]. split; [reflexivity|]. apply Hl. left.
  - apply IH. intros r' Hr'. apply Hl. by right.
Qed.

Lemma spec_requests_label_in tags r : r ∈ spec_requests tags -> r.1 ∈ spec_labels.
Proof.
  intros Hr. eapply elem_of_sublist; [|apply (spec_requests_labels tags)].
  apply list_elem_of_fmap. by exists r.
Qed.

Lemma scanLoop_writer_shape growslice objs : forall st,
  Inv st ->
  exists out, writer (exec (scanLoop growslice objs) st) = writer st ++ out /\
              Forall derivedShape out.
Proof.
  induction objs as [|o objs IH]; intros st HI.
  - exists []. cbn. by rewrite app_nil_r.
  - cbn [scanLoop]. rewrite exec_seq.
    pose proof (processObject_Inv growslice st o HI) as HI1.
    destruct (IH _ HI1) as (out2 & Hw2 & Hs2).
    assert (H1 : exists out1, writer (exec (processObject growslice o) st) = writer st ++ out1 /\
                   Forall derivedShape out1).
    { destruct o as [v spare|e|r]; cbn [processObject].
      - destruct (processNode_spec growslice st v spare HI) as (_ & _ & _ & _ & Hw & _).
        eexists. split; [exact Hw|]. apply derivedItems_shape.
        destruct (isNodeNetwork _).
        + apply spec_requests_label_in.
        + intros r Hr. by apply elem_of_nil in Hr.
      - destruct (processWay_Inv growslice st e HI) as (_ & _ & Hw & _).
        exists []. rewrite Hw, app_nil_r. split; [done|constructor].
      - exists []. rewrite exec_ret, app_nil_r. split; [done|constructor]. }
    destruct H1 as (out1 & Hw1 & Hs1).
    exists (out1 ++ out2). rewrite Hw2, Hw1, <- app_assoc. split; [done|].
    by apply Forall_app.
Qed.


(** X7. Every node that the final loop of [main] writes is a turning
    point of the input (highway = turning_circle or turning_loop), with
    the identifier, coordinates, metadata and tags it was read with,
    and it carries a tag fzk_turning: the one it was read with, or
    else exactly one appended tag whose value is not_set or one of the
    five highway values.  There is one such element per table entry. *)
Theorem X7_written_turning_points (growslice : nat -> nat -> nat)
    (range_order : gmap Z nat -> list (Z * nat)) start objs :
  range_order (turningCircleLoop (reach growslice start objs))
    ≡ₚ map_to_list (turningCircleLoop (reach growslice start objs)) ->
  let st := reach growslice start objs in
  let st' := exec (drainPhase growslice range_order) st in
  exists drained,
    writer st' = writer st ++ (NodeElem <$> drained) ++ [OsmClose] /\
    length drained = size (turningCircleLoop st) /\
    forall w, w ∈ drained ->
      exists v, v ∈ decodedNodes objs /\ isTurning (Tags_Map (Tags v)) = true /\
        annotated w = true /\
        ((annotated v = true /\ w = v) \/
         (annotated v = false /\
          exists x, w = withTag (mkTag "fzk_turning" x) v /\
                    (x = "not_set" \/ qualifyingHighway x = true))).
Proof.
  intros Hperm st st'. fold st in Hperm.
  pose proof (reach_Inv growslice start objs) as HI. fold st in HI.
  destruct (reach_decoded growslice start objs) as [Hdec Htbl]. fold st in Hdec, Htbl.
  set (entries := range_order (turningCircleLoop st)) in *.
  assert (Hentry : forall k p, (k, p) ∈ entries <-> turningCircleLoop st !! k = Some p).
  { intros k p. rewrite Hperm. apply elem_of_map_to_list. }
  assert (Hval : forall e, e ∈ entries -> is_Some (values st !! e.2)).
  { intros [k p] He. apply Hentry in He.
    destruct (Inv_table_values _ _ _ HI He) as (v & Hv & _). by exists v. }
  destruct (drainLoop_spec growslice entries st HI Hval) as (_ & _ & _ & _ & _ & _ & Hw1).
  exists ((fun e => finalValue (valueAt st e.2)) <$> entries). split; [|split].
  - unfold st', drainPhase, drain. rewrite exec_seq, exec_bind_gets.
    unfold write. rewrite exec_modify. cbn [writer set_writer]. fold entries.
    rewrite Hw1, <- list_fmap_compose, <- app_assoc. done.
  - rewrite length_fmap, Hperm. apply length_map_to_list.
  - intros w Hw. apply list_elem_of_fmap in Hw as ([k p] & -> & He). cbn [snd].
    apply Hentry in He. pose proof He as Hlast. apply Htbl in Hlast as (v & Hv & _ & Htn & _).
    destruct (Forall2_lookup_l _ _ _ _ _ Hdec Hv) as (w0 & Hw0 & Hvw).
    unfold valueAt. rewrite Hw0. cbn [default from_option id].
    exists v. split; [apply list_elem_of_lookup; by exists p|]. split; [done|].
    split; [apply annotated_finalValue|].
    unfold finalValue. destruct Hvw as [->|(_ & Ha & hw & Hq & ->)].
    + destruct (annotated v) eqn:Ha; [by left|]. right. split; [done|].
      exists "not_set". split; [done|by left].
    + rewrite annotated_withTag. right. split; [done|]. exists hw. split; [done|by right].
Qed.

Lemma X7_written_turning_points_witness :
  map_to_list (turningCircleLoop (reach growDouble 1000 exampleRun))
    ≡ₚ map_to_list (turningCircleLoop (reach growDouble 1000 exampleRun)) /\
  exists drained,
    writer (exec (drainPhase growDouble map_to_list) (reach growDouble 1000 exampleRun))
    = writer (reach growDouble 1000 exampleRun) ++ (NodeElem <$> drained) ++ [OsmClose] /\
    length drained = 2.
Proof.
  split; [reflexivity|].
  destruct (X7_written_turning_points growDouble map_to_list 1000 exampleRun
              ltac:(reflexivity)) as (drained & Hw & Hlen & _).
  exists drained. split; [exact Hw|]. rewrite Hlen. reflexivity.
Defined.

Lemma reach_counter growslice start objs :
  let st := reach growslice start objs in
  newNodeID st = bump (length (nodeIDs (writer st))) start.
Proof.
  cbv zeta.
  assert (H0 : Inv (exec (write XmlDecl ;;; write OsmOpen ;;; modify (set_newNodeID start))
                      initState)).
  { eapply Inv_same_store; [apply Inv_initState|done..]. }
  destruct (scanLoop_ids growslice objs _ H0) as (k & Hi & Hn).
  assert (Hst : reach growslice start objs = exec (scanLoop growslice objs)
                  (exec (write XmlDecl ;;; write OsmOpen ;;; modify (set_newNodeID start))
                        initState)).
  { unfold reach, scanPhase. by rewrite !exec_seq. }
  rewrite <- Hst in Hi, Hn. cbn in Hi, Hn.
  rewrite Hn. f_equal. rewrite Hi. by rewrite length_fmap, length_seq.
Qed.

(** X9. The report line "Nodes written", [int(newNodeID) - *startNode],
    is the number of derived nodes handed to the writer, also in a run
    in which the counter has passed 2^63 - 1 and wrapped around. *)
Theorem X9_nodes_written_statistic (growslice : nat -> nat -> nat) start objs :
  int64_range start ->
  (Z.of_nat (length (nodeIDs (writer (reach growslice start objs)))) < 2 ^ 63)%Z ->
  nodesWritten (reach growslice start objs) start
  = Z.of_nat (length (nodeIDs (writer (reach growslice start objs)))).
Proof.
  intros Hr Hlen. unfold nodesWritten.
  rewrite (reach_counter growslice start objs), bump_closed by done.
  replace (wrap64 (start + Z.of_nat (length (nodeIDs (writer (reach growslice start objs)))))
           - start)%Z
    with (wrap64 (start + Z.of_nat (length (nodeIDs (writer (reach growslice start objs)))))
          + - start)%Z by lia.
  rewrite wrap64_wrap64_add.
  replace (start + Z.of_nat (length (nodeIDs (writer (reach growslice start objs))))
           + - start)%Z
    with (Z.of_nat (length (nodeIDs (writer (reach growslice start objs))))) by lia.
  apply wrap64_small. unfold int64_range. lia.
Qed.

Lemma X9_nodes_written_statistic_witness :
  let start := 9223372036854775807%Z in
  int64_range start /\
  newNodeID (reach growDouble start [ObjNode junction53X32 0]) = (-9223372036854775807)%Z /\
  nodesWritten (reach growDouble start [ObjNode junction53X32 0]) start = 2%Z.
Proof.
  cbv zeta.
  assert (Hr : int64_range 9223372036854775807) by (unfold int64_range; lia).
  split; [exact Hr|]. split; [vm_compute; reflexivity|].
  rewrite (X9_nodes_written_statistic growDouble 9223372036854775807
             [ObjNode junction53X32 0] Hr).
  - vm_compute. reflexivity.
  - vm_compute. reflexivity.
Defined.

Lemma annotatedCount_le st : annotatedCount st <= length (values st).
Proof. unfold annotatedCount. apply length_filter. Qed.

Lemma decodedNodes_length objs : length (decodedNodes objs) <= length objs.
Proof.
  induction objs as [|o objs IH]; [done|].
  destruct o; cbn [decodedNodes omap list_omap length] in *; fold (decodedNodes objs); lia.
Qed.

(** X10. The report line "highway types added"
    ([turningCircleLoopModified]) is the number of nodes that carry a
    fzk_turning tag at the end of the scanner loop without having been
    read with one: the nodes that the loop has annotated.  (Lengths
    are in the range of [int].) *)
Theorem X10_highway_types_added_statistic (growslice : nat -> nat -> nat) start objs :
  (Z.of_nat (length objs) < 2 ^ 63)%Z ->
  (forall w, ObjWay w ∈ objs -> (Z.of_nat (length (Nodes w)) < 2 ^ 63)%Z) ->
  let st := reach growslice start objs in
  turningCircleLoopModified st
  = (Z.of_nat (annotatedCount st)
     - Z.of_nat (length (filter (fun v => annotated v = true) (decodedNodes objs))))%Z.
Proof.
  induction objs as [|o objs IH] using rev_ind; intros Hlen Hways; [done|].
  cbv zeta in *. rewrite length_app in Hlen. cbn [length] in Hlen.
  specialize (IH ltac:(lia)
    ltac:(intros w Hw; apply Hways; apply elem_of_app; by left)).
  rewrite reach_snoc, decodedNodes_app, filter_app, length_app.
  pose proof (reach_Inv growslice start objs) as HI.
  destruct (reach_decoded growslice start objs) as [Hdec _]. cbv zeta in Hdec.
  apply Forall2_length in Hdec. pose proof (decodedNodes_length objs) as Hdl.
  set (st := reach growslice start objs) in *.
  destruct o as [v spare|e|r]; cbn [processObject decodedNodes omap list_omap].
  - destruct (processNode_spec growslice st v spare HI) as (_ & Hv & Hm & _).
    rewrite Hm, IH. unfold annotatedCount. rewrite Hv, filter_app, length_app. lia.
  - rewrite filter_nil. cbn [length]. rewrite Nat.add_0_r.
    pose proof (processWay_spec growslice st e HI) as Hw. cbv zeta in Hw.
    destruct (Tags_Map (WayTags e) !! "highway") as [tv|]; [|by rewrite Hw].
    destruct (qualifyingHighway tv) eqn:Hq; [|by rewrite Hw].
    rewrite Hw. unfold addHighwayTypeToTurningCircleLoop.
    assert (Hle : (Z.of_nat (length (Nodes e)) < 2 ^ 63)%Z).
    { apply Hways. apply elem_of_app. right. apply list_elem_of_singleton. done. }
    destruct (annotateLoop_count growslice (Nodes e) st tv 0%Z HI ltac:(lia) ltac:(lia))
      as [Hc Hb].
    destruct (annotateLoop_values growslice (Nodes e) st tv 0%Z HI)
      as (_ & (_ & _ & _ & Hm) & Hl & _).
    set (r := annotateLoop growslice tv 0%Z (Nodes e) st) in *.
    cbn [turningCircleLoopModified set_turningCircleLoopModified].
    change (annotatedCount (set_turningCircleLoopModified ?c ?s)) with (annotatedCount s).
    rewrite Hm, IH, Hc.
    pose proof (annotatedCount_le r.2) as Hle2. rewrite Hl in Hle2.
    pose proof (length_filter (fun v => annotated v = true) (decodedNodes objs)) as Hf.
    rewrite wrap64_small; [lia|]. unfold int64_range.
    assert (0 <= turningCircleLoopModified st)%Z.
    { destruct (reach_decoded growslice start objs) as [Hd2 _]. cbv zeta in Hd2. fold st in Hd2.
      rewrite IH. clear -Hd2. unfold annotatedCount.
      induction Hd2 as [|v w l l' Hvw _ IHl]; [done|].
      assert (annotated v = true -> annotated w = true).
      { intros Ha. destruct Hvw as [->|(_ & Hn & _)]; congruence. }
      destruct (annotated v) eqn:Hav.
      - rewrite !filter_cons_True by auto. cbn [length]. lia.
      - rewrite (filter_cons_False _ v) by (rewrite Hav; done).
        destruct (annotated w) eqn:Haw.
        + rewrite filter_cons_True by done. cbn [length]. lia.
        + rewrite filter_cons_False by (rewrite Haw; done). lia. }
    rewrite IH in *. lia.
  - rewrite filter_nil. cbn [length]. rewrite exec_ret, IH. lia.
Qed.

Lemma X10_highway_types_added_statistic_witness :
  (Z.of_nat (length exampleRun) < 2 ^ 63)%Z /\
  turningCircleLoopModified (reach growDouble 1000 exampleRun) = 1%Z.
Proof.
  assert (H1 : (Z.of_nat (length exampleRun) < 2 ^ 63)%Z) by (cbn; lia).
  split; [exact H1|].
  rewrite (X10_highway_types_added_statistic growDouble 1000 exampleRun H1).
  - vm_compute. reflexivity.
  - intros w Hw. unfold exampleRun in Hw.
    repeat (apply elem_of_cons in Hw as [Hw|Hw]; [try discriminate Hw|]).
    + injection Hw as ->. cbn. lia.
    + by apply elem_of_nil in Hw.
Defined.

Lemma idRange_Add_Max r ref : Max (idRange_Add r ref) = Z.max (Max r) ref.
Proof.
  unfold idRange_Add. destruct (Max r <? ref)%Z eqn:H1; cbn [Min Max];
    destruct (ref <? Min r)%Z eqn:H2; cbn [Min Max]; lia.
Qed.

Lemma idRange_Add_Min r ref : Min (idRange_Add r ref) = Z.min (Min r) ref.
Proof.
  unfold idRange_Add. destruct (Max r <? ref)%Z eqn:H1; cbn [Min Max];
    destruct (ref <? Min r)%Z eqn:H2; cbn [Min Max]; lia.
Qed.

Lemma idRange_fold refs : forall r0,
  let r := foldl idRange_Add r0 refs in
  (forall x, x ∈ refs -> (Min r <= x <= Max r)%Z) /\
  (Min r <= Min r0)%Z /\ (Max r0 <= Max r)%Z /\
  (Max r = Max r0 \/ Max r ∈ refs) /\
  (Min r = Min r0 \/ Min r ∈ refs).
Proof.
  induction refs as [|ref refs IH] using rev_ind; intros r0.
  - cbn. split; [intros x Hx; by apply elem_of_nil in Hx|]. split; [lia|]. split; [lia|].
    split; by left.
  - cbv zeta. rewrite foldl_snoc. destruct (IH r0) as (Hin & Hmin & Hmax & HM & Hm).
    set (r := foldl idRange_Add r0 refs) in *.
    rewrite idRange_Add_Max, idRange_Add_Min.
    split; [|split; [lia|split; [lia|split]]].
    + intros x Hx. apply elem_of_app in Hx as [Hx|Hx].
      * specialize (Hin x Hx). lia.
      * apply list_elem_of_singleton in Hx. subst x. lia.
    + destruct (Z.max_spec (Max r) ref) as [[_ ->]|[_ ->]].
      * right. apply elem_of_app. right. by apply list_elem_of_singleton.
      * destruct HM as [->|HM]; [by left|]. right. apply elem_of_app. by left.
    + destruct (Z.min_spec (Min r) ref) as [[_ ->]|[_ ->]].
      * destruct Hm as [->|Hm]; [by left|]. right. apply elem_of_app. by left.
      * right. apply elem_of_app. right. by apply list_elem_of_singleton.
Qed.

(** X11. An [idRange] as [newElementStats] makes it (Min = MaxInt64,
    Max = 0), after [Add] for a sequence of identifiers: Min and Max
    enclose every identifier added; Min is the smallest of them (or
    still MaxInt64), Max the largest of them or 0, so for identifiers
    that are all negative Max stays 0, and without any identifier Min
    is above Max. *)
Theorem X11_idRange_bounds refs :
  let r := foldl idRange_Add (mkIdRange MaxInt64 0) refs in
  (forall x, x ∈ refs -> (Min r <= x <= Max r)%Z) /\
  (Max r = 0%Z \/ Max r ∈ refs) /\
  (Min r = MaxInt64 \/ Min r ∈ refs) /\
  (0 <= Max r)%Z /\ (Min r <= MaxInt64)%Z /\
  ((forall x, x ∈ refs -> (x < 0)%Z) -> Max r = 0%Z) /\
  (refs = [] -> (Max r < Min r)%Z).
Proof.
  intros r. destruct (idRange_fold refs (mkIdRange MaxInt64 0)) as (Hin & Hmin & Hmax & HM & Hm).
  fold r in Hin, Hmin, Hmax, HM, Hm. cbn [Min Max] in *.
  split; [exact Hin|]. split; [exact HM|]. split; [exact Hm|]. split; [exact Hmax|].
  split; [exact Hmin|]. split.
  - intros Hneg. destruct HM as [?|HM]; [done|]. specialize (Hneg _ HM). lia.
  - intros ->. cbn. unfold MaxInt64. lia.
Qed.

Lemma firstMax_fold {A B} (len : A -> Z) (key : A -> B) (l : list A) (b0 : B) :
  let acc := foldl (fun acc x => if (acc.1 <? len x)%Z then (len x, key x) else acc)
                   (0%Z, b0) l in
  (forall x, x ∈ l -> (len x <= acc.1)%Z) /\
  ((acc = (0%Z, b0) /\ forall x, x ∈ l -> (len x <= 0)%Z) \/
   (exists i x, l !! i = Some x /\ acc = (len x, key x) /\ (0 < len x)%Z /\
      forall j y, j < i -> l !! j = Some y -> (len y < len x)%Z)).
Proof.
  induction l as [|x l IH] using rev_ind.
  - cbn. split; [intros x Hx; by apply elem_of_nil in Hx|]. left. split; [done|].
    intros x Hx. by apply elem_of_nil in Hx.
  - cbv zeta in *. rewrite foldl_snoc.
    set (acc := foldl _ (0%Z, b0) l) in *. destruct IH as [Hle Hcase].
    destruct (acc.1 <? len x)%Z eqn:Hlt.
    + apply Z.ltb_lt in Hlt. split.
      * intros y Hy. cbn [fst]. apply elem_of_app in Hy as [Hy|Hy].
        -- specialize (Hle y Hy). lia.
        -- apply list_elem_of_singleton in Hy. subst y. lia.
      * right. exists (length l), x. split; [rewrite lookup_app_r by done; by rewrite Nat.sub_diag|].
        split; [done|]. split.
        -- destruct Hcase as [[Hacc _]|(i & y & Hy & Hacc & Hpos & _)];
             rewrite Hacc in Hlt; cbn [fst] in Hlt; lia.
        -- intros j y Hj Hy. rewrite lookup_app_l in Hy by done.
           assert (y ∈ l) by (apply list_elem_of_lookup; by exists j).
           specialize (Hle y ltac:(done)). lia.
    + apply Z.ltb_ge in Hlt. split.
      * intros y Hy. apply elem_of_app in Hy as [Hy|Hy]; [by apply Hle|].
        apply list_elem_of_singleton in Hy. by subst y.
      * destruct Hcase as [[Hacc Hall]|(i & y & Hy & Hacc & Hpos & Hfirst)].
        -- left. split; [done|]. intros y Hy. apply elem_of_app in Hy as [Hy|Hy]; [by apply Hall|].
           apply list_elem_of_singleton in Hy. subst y. rewrite Hacc in Hlt. done.
        -- right. exists i, y. split; [by apply lookup_app_l_Some|]. split; [done|].
           split; [done|]. intros j z Hj Hz. apply (Hfirst j z Hj).
           apply lookup_lt_Some in Hy. by rewrite lookup_app_l in Hz by lia.
Qed.

Lemma Ranges_elementStats_Add s id tags t :
  Ranges (elementStats_Add s id tags) t
  = if sameType t (eType id) then idRange_Add (Ranges s t) (eRef id) else Ranges s t.
Proof. unfold elementStats_Add. by destruct (MaxTags s <? _)%Z. Qed.

Lemma MaxVersion_elementStats_Add s id tags :
  MaxVersion (elementStats_Add s id tags) = Z.max (MaxVersion s) (eVersion id).
Proof.
  unfold elementStats_Add.
  destruct (MaxTags s <? _)%Z; cbn [MaxVersion];
    destruct (MaxVersion s <? eVersion id)%Z eqn:H1; lia.
Qed.

Lemma MaxTags_elementStats_Add s id tags :
  (MaxTags (elementStats_Add s id tags), MaxTagsID (elementStats_Add s id tags))
  = if (MaxTags s <? Z.of_nat (length tags))%Z
    then (Z.of_nat (length tags), Some id) else (MaxTags s, MaxTagsID s).
Proof. unfold elementStats_Add. by destruct (MaxTags s <? _)%Z. Qed.

Lemma elementStats_fold adds :
  let s := foldl (fun s a => elementStats_Add s a.1 a.2) newElementStats adds in
  (forall t, Ranges s t
     = foldl idRange_Add (mkIdRange MaxInt64 0)
         ((fun a => eRef a.1) <$> filter (fun a => sameType t (eType a.1) = true) adds)) /\
  MaxVersion s = foldl (fun m a => Z.max m (eVersion a.1)) 0%Z adds /\
  (MaxTags s, MaxTagsID s)
  = foldl (fun acc a => if (acc.1 <? Z.of_nat (length a.2))%Z
                        then (Z.of_nat (length a.2), Some a.1) else acc)
          (0%Z, None) adds.
Proof.
  induction adds as [|a adds IH] using rev_ind; [done|].
  cbv zeta in *. rewrite !foldl_snoc.
  set (s := foldl _ newElementStats adds) in *. destruct IH as (Hr & Hv & Ht).
  split; [|split].
  - intros t. rewrite filter_app, fmap_app, foldl_app, <- Hr.
    rewrite Ranges_elementStats_Add.
    destruct (sameType t (eType a.1)) eqn:Hty.
    + rewrite (filter_cons_True _ a) by done. done.
    + rewrite (filter_cons_False _ a) by (rewrite Hty; done). done.
  - by rewrite <- Hv, MaxVersion_elementStats_Add.
  - by rewrite <- Ht, MaxTags_elementStats_Add.
Qed.

(** X12. [elementStats] after [Add] for a sequence of elements: the
    range of a type reflects the identifiers of the elements of that
    type only, MaxVersion is the largest version (at least 0), MaxTags
    the largest number of tags, and MaxTagsID the identifier of the
    first element that has that many tags; it keeps the zero value as
    long as no element has a tag. *)
Theorem X12_elementStats_maxima adds :
  let s := foldl (fun s a => elementStats_Add s a.1 a.2) newElementStats adds in
  (forall t x, x ∈ adds -> sameType t (eType x.1) = true ->
     (Min (Ranges s t) <= eRef x.1 <= Max (Ranges s t))%Z) /\
  (forall t, (forall x, x ∈ adds -> sameType t (eType x.1) = false) ->
     Ranges s t = mkIdRange MaxInt64 0) /\
  (forall x, x ∈ adds -> (eVersion x.1 <= MaxVersion s)%Z) /\
  (forall x, x ∈ adds -> (Z.of_nat (length x.2) <= MaxTags s)%Z) /\
  ((MaxTags s = 0%Z /\ MaxTagsID s = None /\ forall x, x ∈ adds -> x.2 = []) \/
   (exists i x, adds !! i = Some x /\ MaxTagsID s = Some x.1 /\
      MaxTags s = Z.of_nat (length x.2) /\ (0 < MaxTags s)%Z /\
      forall j y, j < i -> adds !! j = Some y -> length y.2 < length x.2)).
Proof.
  intros s. destruct (elementStats_fold adds) as (Hr & Hv & Ht). fold s in Hr, Hv, Ht.
  split; [|split; [|split; [|split]]].
  - intros t x Hx Hty. rewrite Hr.
    apply (idRange_fold _ (mkIdRange MaxInt64 0)).
    apply list_elem_of_fmap. exists x. split; [done|]. by apply list_elem_of_filter.
  - intros t Hnone. rewrite Hr.
    assert (Hf : filter (fun a => sameType t (eType a.1) = true) adds = []).
    { clear -Hnone. induction adds as [|a adds IHa]; [done|].
      rewrite filter_cons_False by (rewrite (Hnone a ltac:(left)); done).
      apply IHa. intros x Hx. apply Hnone. by right. }
    by rewrite Hf.
  - intros x Hx. rewrite Hv. clear -Hx. revert Hx.
    induction adds as [|a adds IH] using rev_ind; [intros Hx; by apply elem_of_nil in Hx|].
    intros Hx. rewrite foldl_snoc. apply elem_of_app in Hx as [Hx|Hx].
    + specialize (IH Hx). lia.
    + apply list_elem_of_singleton in Hx. subst a. lia.
  - intros x Hx.
    destruct (firstMax_fold (fun a : ElementID * list Tag => Z.of_nat (length a.2))
                (fun a => Some a.1) adds None) as [Hle _].
    cbv zeta in Hle. rewrite <- Ht in Hle. by apply Hle.
  - destruct (firstMax_fold (fun a : ElementID * list Tag => Z.of_nat (length a.2))
                (fun a => Some a.1) adds None) as [_ Hcase].
    cbv zeta in Hcase. rewrite <- Ht in Hcase.
    destruct Hcase as [[Heq Hall]|(i & x & Hx & Heq & Hpos & Hfirst)].
    + left. injection Heq as -> ->. split; [done|]. split; [done|].
      intros x Hx. specialize (Hall x Hx). destruct x.2; [done|cbn in Hall; lia].
    + right. exists i, x. injection Heq as -> ->. split; [done|]. split; [done|].
      split; [done|]. split; [done|]. intros j y Hj Hy. specialize (Hfirst j y Hj Hy). lia.
Qed.

Lemma waysOf_app a b : waysOf (a ++ b) = waysOf a ++ waysOf b.
Proof. unfold waysOf. apply omap_app. Qed.

Lemma relationsOf_app a b : relationsOf (a ++ b) = relationsOf a ++ relationsOf b.
Proof. unfold relationsOf. apply omap_app. Qed.

Lemma scanReport_maxima objs :
  let r := scanReport objs in
  (maxNodeRefs r, maxNodeRefsID r)
  = foldl (fun acc w => if (acc.1 <? Z.of_nat (length (Nodes w)))%Z
                        then (Z.of_nat (length (Nodes w)), WayID w) else acc)
          (0%Z, 0%Z) (waysOf objs) /\
  (maxRelRefs r, maxRelRefsID r)
  = foldl (fun acc e => if (acc.1 <? Z.of_nat (length (Members e)))%Z
                        then (Z.of_nat (length (Members e)), RelationID e) else acc)
          (0%Z, 0%Z) (relationsOf objs).
Proof.
  induction objs as [|o objs IH] using rev_ind; [done|].
  cbv zeta in *. unfold scanReport in *. rewrite foldl_snoc, waysOf_app, relationsOf_app.
  set (r := foldl reportObject initReport objs) in *. destruct IH as [Hw Hr].
  destruct o as [v spare|e|e]; cbn [reportObject waysOf relationsOf omap list_omap].
  - rewrite !app_nil_r. done.
  - rewrite app_nil_r, foldl_snoc, <- Hw. cbn [fst].
    by destruct (maxNodeRefs r <? _)%Z.
  - rewrite app_nil_r, foldl_snoc, <- Hr. cbn [fst].
    by destruct (maxRelRefs r <? _)%Z.
Qed.

(** X13. The report lines "Noderefs max" and "Relrefs max" with their
    objects: [maxNodeRefs] is the largest number of node references of
    a way and [maxNodeRefsID] the identifier of the first way that has
    that many; both stay 0 as long as no way has a node reference.  The
    same holds for relations and their members. *)
Theorem X13_reference_maxima objs :
  let r := scanReport objs in
  (forall w, w ∈ waysOf objs -> (Z.of_nat (length (Nodes w)) <= maxNodeRefs r)%Z) /\
  ((maxNodeRefs r = 0%Z /\ maxNodeRefsID r = 0%Z /\
    forall w, w ∈ waysOf objs -> Nodes w = []) \/
   (exists i w, waysOf objs !! i = Some w /\
      maxNodeRefs r = Z.of_nat (length (Nodes w)) /\ maxNodeRefsID r = WayID w /\
      (0 < maxNodeRefs r)%Z /\
      forall j w', j < i -> waysOf objs !! j = Some w' ->
        length (Nodes w') < length (Nodes w))) /\
  (forall e, e ∈ relationsOf objs -> (Z.of_nat (length (Members e)) <= maxRelRefs r)%Z) /\
  ((maxRelRefs r = 0%Z /\ maxRelRefsID r = 0%Z /\
    forall e, e ∈ relationsOf objs -> Members e = []) \/
   (exists i e, relationsOf objs !! i = Some e /\
      maxRelRefs r = Z.of_nat (length (Members e)) /\ maxRelRefsID r = RelationID e /\
      (0 < maxRelRefs r)%Z /\
      forall j e', j < i -> relationsOf objs !! j = Some e' ->
        length (Members e') < length (Members e))).
Proof.
  intros r. destruct (scanReport_maxima objs) as [Hw Hr]. fold r in Hw, Hr.
  destruct (firstMax_fold (fun w => Z.of_nat (length (Nodes w))) WayID (waysOf objs) 0%Z)
    as [Hle1 Hc1].
  destruct (firstMax_fold (fun e => Z.of_nat (length (Members e))) RelationID
              (relationsOf objs) 0%Z) as [Hle2 Hc2].
  cbv zeta in Hle1, Hc1, Hle2, Hc2. rewrite <- Hw in Hle1, Hc1. rewrite <- Hr in Hle2, Hc2.
  split; [exact Hle1|]. split; [|split; [exact Hle2|]].
  - destruct Hc1 as [[Heq Hall]|(i & x & Hx & Heq & Hpos & Hfirst)].
    + left. injection Heq as -> ->. split; [done|]. split; [done|].
      intros w Hin. specialize (Hall w Hin). destruct (Nodes w); [done|cbn in Hall; lia].
    + right. exists i, x. injection Heq as -> ->. split; [done|]. split; [done|].
      split; [done|]. split; [done|]. intros j y Hj Hy. specialize (Hfirst j y Hj Hy). lia.
  - destruct Hc2 as [[Heq Hall]|(i & x & Hx & Heq & Hpos & Hfirst)].
    + left. injection Heq as -> ->. split; [done|]. split; [done|].
      intros w Hin. specialize (Hall w Hin). destruct (Members w); [done|cbn in Hall; lia].
    + right. exists i, x. injection Heq as -> ->. split; [done|]. split; [done|].
      split; [done|]. split; [done|]. intros j y Hj Hy. specialize (Hfirst j y Hj Hy). lia.
Qed.

Lemma guarded_lookup (tags : gmap string string) k :
  (if 0 <? size tags then tags !! k else None) = tags !! k.
Proof.
  destruct (0 <? size tags) eqn:Hsz; [done|]. apply Nat.ltb_ge in Hsz.
  assert (tags = ∅) as -> by (apply map_size_empty_iff; lia). by rewrite lookup_empty.
Qed.

Lemma length_filter_single {A} (f : A -> bool) (v : A) :
  length (filter (fun x => f x = true) [v]) = if f v then 1 else 0.
Proof.
  destruct (f v) eqn:Hb.
  - by rewrite filter_cons_True.
  - rewrite filter_cons_False; [done|]. by rewrite Hb.
Qed.

Lemma reportObject_node r v spare :
  reportObject r (ObjNode v spare)
  = mkReport (wrap64 (nodes r + 1)) (ways r) (relations r)
      (if isNodeNetwork (Tags_Map (Tags v))
       then wrap64 (junctionPointsFound r + 1) else junctionPointsFound r)
      (if hasHighway "turning_circle" v
       then wrap64 (turningCirclePointsFound r + 1) else turningCirclePointsFound r)
      (if hasHighway "turning_loop" v
       then wrap64 (turningLoopPointsFound r + 1) else turningLoopPointsFound r)
      (maxNodeRefs r) (maxNodeRefsID r) (maxRelRefs r) (maxRelRefsID r).
Proof.
  cbn [reportObject]. unfold isNodeNetwork, hasHighway.
  set (tags := Tags_Map (Tags v)).
  assert (Hcase : forall k value (c : Z),
    (if 0 <? size tags
     then match tags !! k with
          | Some tagValue => if String.eqb tagValue value then wrap64 (c + 1) else c
          | None => c
          end
     else c)
    = if bool_decide (tags !! k = Some value) then wrap64 (c + 1) else c).
  { intros k value c. rewrite <- (guarded_lookup tags k).
    destruct (0 <? size tags); [|by rewrite bool_decide_eq_false_2].
    destruct (tags !! k) as [tv|]; [|by rewrite bool_decide_eq_false_2].
    destruct (String.eqb tv value) eqn:He.
    - apply String.eqb_eq in He. subst. by rewrite bool_decide_eq_true_2.
    - apply String.eqb_neq in He. rewrite bool_decide_eq_false_2; [done|congruence]. }
  by rewrite !Hcase.
Qed.

Lemma scanReport_counters objs :
  (Z.of_nat (length objs) < 2 ^ 63)%Z ->
  let r := scanReport objs in
  let ds := decodedNodes objs in
  nodes r = Z.of_nat (length ds) /\
  ways r = Z.of_nat (length (waysOf objs)) /\
  relations r = Z.of_nat (length (relationsOf objs)) /\
  junctionPointsFound r
  = Z.of_nat (length (filter (fun v => isNodeNetwork (Tags_Map (Tags v)) = true) ds)) /\
  turningCirclePointsFound r
  = Z.of_nat (length (filter (fun v => hasHighway "turning_circle" v = true) ds)) /\
  turningLoopPointsFound r
  = Z.of_nat (length (filter (fun v => hasHighway "turning_loop" v = true) ds)) /\
  length ds + length (waysOf objs) + length (relationsOf objs) = length objs.
Proof.
  induction objs as [|o objs IH] using rev_ind; intros Hlen; [done|].
  cbv zeta in *. rewrite length_app in Hlen. cbn [length] in Hlen.
  specialize (IH ltac:(lia)). destruct IH as (Hn & Hw & Hr & Hj & Hc & Hl & Hsum).
  unfold scanReport in *. rewrite foldl_snoc.
  rewrite decodedNodes_app, waysOf_app, relationsOf_app, !filter_app, !length_app.
  set (r := foldl reportObject initReport objs) in *.
  pose proof (length_filter (fun v => isNodeNetwork (Tags_Map (Tags v)) = true)
                (decodedNodes objs)) as Hf1.
  pose proof (length_filter (fun v => hasHighway "turning_circle" v = true)
                (decodedNodes objs)) as Hf2.
  pose proof (length_filter (fun v => hasHighway "turning_loop" v = true)
                (decodedNodes objs)) as Hf3.
  destruct o as [v spare|e|e].
  - rewrite reportObject_node.
    cbn [decodedNodes waysOf relationsOf omap list_omap nodes ways relations
         junctionPointsFound turningCirclePointsFound turningLoopPointsFound length].
    split; [rewrite wrap64_small by (unfold int64_range; lia); lia|].
    split; [lia|]. split; [lia|]. split; [|split; [|split; [|lia]]].
    + rewrite length_filter_single.
      destruct (isNodeNetwork (Tags_Map (Tags v)));
        [rewrite wrap64_small by (unfold int64_range; lia)|]; lia.
    + rewrite length_filter_single.
      destruct (hasHighway "turning_circle" v);
        [rewrite wrap64_small by (unfold int64_range; lia)|]; lia.
    + rewrite length_filter_single.
      destruct (hasHighway "turning_loop" v);
        [rewrite wrap64_small by (unfold int64_range; lia)|]; lia.
  - cbn [reportObject decodedNodes waysOf relationsOf omap list_omap].
    rewrite !filter_nil. cbn [length].
    destruct (maxNodeRefs r <? _)%Z;
      cbn [nodes ways relations junctionPointsFound turningCirclePointsFound
           turningLoopPointsFound];
      rewrite wrap64_small by (unfold int64_range; lia); repeat split; lia.
  - cbn [reportObject decodedNodes waysOf relationsOf omap list_omap].
    rewrite !filter_nil. cbn [length].
    destruct (maxRelRefs r <? _)%Z;
      cbn [nodes ways relations junctionPointsFound turningCirclePointsFound
           turningLoopPointsFound];
      rewrite wrap64_small by (unfold int64_range; lia); repeat split; lia.
Qed.

Lemma isTurning_hasHighway v :
  isTurning (Tags_Map (Tags v)) = hasHighway "turning_circle" v || hasHighway "turning_loop" v.
Proof. unfold isTurning, hasHighway. apply bool_decide_or. Qed.

Lemma reach_counts growslice start objs :
  let st := reach growslice start objs in
  let ds := decodedNodes objs in
  size (turningCircleLoop st)
  <= length (filter (fun v => hasHighway "turning_circle" v = true) ds)
     + length (filter (fun v => hasHighway "turning_loop" v = true) ds) /\
  length (nodeIDs (writer st))
  <= 6 * length (filter (fun v => isNodeNetwork (Tags_Map (Tags v)) = true) ds).
Proof.
  induction objs as [|o objs IH] using rev_ind; [cbn; split; [|lia]; by rewrite map_size_empty|].
  cbv zeta in *. destruct IH as [IHt IHw].
  rewrite reach_snoc, decodedNodes_app, !filter_app, !length_app.
  pose proof (reach_Inv growslice start objs) as HI.
  set (st := reach growslice start objs) in *.
  destruct o as [v spare|e|r]; cbn [processObject decodedNodes omap list_omap].
  - destruct (processNode_spec growslice st v spare HI) as (_ & _ & _ & _ & Hw & Ht).
    rewrite Hw, Ht, nodeIDs_app, length_app, nodeIDs_derivedItems, length_fmap, length_seq.
    rewrite isTurning_hasHighway, !length_filter_single. split.
    + destruct (hasHighway "turning_circle" v); destruct (hasHighway "turning_loop" v);
        cbn [orb]; rewrite ?map_size_insert;
        try (destruct (turningCircleLoop st !! ID v); cbn [id]); lia.
    + destruct (isNodeNetwork (Tags_Map (Tags v))) eqn:Hb; [|cbn [length]; lia].
      pose proof (spec_requests_labels (Tags_Map (Tags v))) as Hs.
      apply sublist_length in Hs. rewrite length_fmap in Hs.
      change (length spec_labels) with 6 in Hs. lia.
  - destruct (processWay_Inv growslice st e HI) as (_ & _ & Hw & Ht & _).
    rewrite Hw, Ht, !filter_nil. cbn [length]. lia.
  - rewrite exec_ret, !filter_nil. cbn [length]. lia.
Qed.

(** X14. The counters of the report and what the run does.  The
    counters of nodes, ways and relations count the objects scanned;
    [junctionPointsFound], [turningCirclePointsFound] and
    [turningLoopPointsFound] count the nodes whose tag map has
    network:type = node_network, highway = turning_circle and
    highway = turning_loop.  The table never has more entries than
    turning points were found (fewer when an identifier repeats), and
    at most six derived nodes are written per junction point found.
    (The number of objects is in the range of [int].) *)
Theorem X14_report_counters (growslice : nat -> nat -> nat) start objs :
  (Z.of_nat (length objs) < 2 ^ 63)%Z ->
  let r := scanReport objs in
  let st := reach growslice start objs in
  let ds := decodedNodes objs in
  nodes r = Z.of_nat (length ds) /\
  ways r = Z.of_nat (length (waysOf objs)) /\
  relations r = Z.of_nat (length (relationsOf objs)) /\
  (nodes r + ways r + relations r)%Z = Z.of_nat (length objs) /\
  junctionPointsFound r
  = Z.of_nat (length (filter (fun v => isNodeNetwork (Tags_Map (Tags v)) = true) ds)) /\
  turningCirclePointsFound r
  = Z.of_nat (length (filter (fun v => hasHighway "turning_circle" v = true) ds)) /\
  turningLoopPointsFound r
  = Z.of_nat (length (filter (fun v => hasHighway "turning_loop" v = true) ds)) /\
  (Z.of_nat (size (turningCircleLoop st))
   <= turningCirclePointsFound r + turningLoopPointsFound r)%Z /\
  (Z.of_nat (length (nodeIDs (writer st))) <= 6 * junctionPointsFound r)%Z.
Proof.
  intros Hlen r st ds.
  destruct (scanReport_counters objs Hlen) as (Hn & Hw & Hr & Hj & Hc & Hl & Hsum).
  destruct (reach_counts growslice start objs) as [Ht Hd].
  fold r ds in Hn, Hw, Hr, Hj, Hc, Hl, Hsum. fold st ds in Ht, Hd.
  repeat (split; [first [assumption | lia]|]). lia.
Qed.

Lemma X14_report_counters_witness :
  (Z.of_nat (length exampleRun) < 2 ^ 63)%Z /\
  nodes (scanReport exampleRun) = 3%Z /\
  junctionPointsFound (scanReport exampleRun) = 1%Z.
Proof.
  assert (H : (Z.of_nat (length exampleRun) < 2 ^ 63)%Z) by (cbn; lia).
  split; [exact H|].
  destruct (X14_report_counters growDouble 1000 exampleRun H) as (Hn & _ & _ & _ & Hj & _).
  split; [rewrite Hn|rewrite Hj]; vm_compute; reflexivity.
Defined.

Lemma increment_lookup k k' stat :
  increment k stat !! k'
  = if decide (k = k') then Some (wrap64 (default 0%Z (stat !! k) + 1)) else stat !! k'.
Proof.
  unfold increment. destruct (decide (k = k')) as [->|Hne].
  - by rewrite lookup_insert_eq.
  - by rewrite lookup_insert_ne.
Qed.

Lemma foldl_increment_count {A} (key : A -> string) (l : list A) :
  (Z.of_nat (length l) < 2 ^ 63)%Z ->
  forall k,
    foldl (fun stat e => increment (key e) stat) ∅ l !! k
    = let n := length (filter (fun e => key e = k) l) in
      if n =? 0 then None else Some (Z.of_nat n).
Proof.
  induction l as [|e l IH] using rev_ind; intros Hlen k; [apply lookup_empty|].
  rewrite length_app in Hlen. cbn [length] in Hlen.
  rewrite foldl_snoc, increment_lookup, filter_app, length_app. cbv zeta.
  pose proof (length_filter (fun e0 => key e0 = key e) l) as Hle.
  destruct (decide (key e = k)) as [<-|Hne].
  - rewrite (IH ltac:(lia) (key e)). cbv zeta.
    rewrite filter_cons_True by done. rewrite filter_nil. cbn [length].
    set (n := length (filter (fun e0 => key e0 = key e) l)) in *.
    replace (n + 1 =? 0) with false by (symmetry; apply Nat.eqb_neq; lia).
    f_equal. destruct (n =? 0) eqn:Hn; cbn [default from_option id].
    + apply Nat.eqb_eq in Hn. rewrite Hn. reflexivity.
    + rewrite wrap64_small by (unfold int64_range; lia). lia.
  - rewrite (IH ltac:(lia) k). cbv zeta.
    rewrite filter_cons_False by done. rewrite filter_nil. cbn [length].
    by rewrite Nat.add_0_r.
Qed.

Lemma statisticTotal_insert k c stat :
  stat !! k = None -> statisticTotal (<[k := c]> stat) = (c + statisticTotal stat)%Z.
Proof.
  intros Hk. unfold statisticTotal.
  apply (map_fold_insert_L (fun _ c acc => (c + acc)%Z)); [|done]. intros. lia.
Qed.

Lemma statisticTotal_increment k stat :
  int64_range (default 0%Z (stat !! k) + 1) ->
  statisticTotal (increment k stat) = (statisticTotal stat + 1)%Z.
Proof.
  intros Hr. unfold increment. rewrite wrap64_small by done.
  destruct (stat !! k) as [c|] eqn:Hk; cbn [default from_option id].
  - rewrite <- (insert_delete_eq stat).
    rewrite statisticTotal_insert by apply lookup_delete_eq.
    rewrite <- (insert_delete_id stat k c Hk) at 2.
    rewrite statisticTotal_insert by apply lookup_delete_eq. lia.
  - rewrite statisticTotal_insert by done. lia.
Qed.

Lemma foldl_increment_total {A} (key : A -> string) (l : list A) :
  (Z.of_nat (length l) < 2 ^ 63)%Z ->
  statisticTotal (foldl (fun stat e => increment (key e) stat) ∅ l) = Z.of_nat (length l).
Proof.
  induction l as [|e l IH] using rev_ind; intros Hlen.
  - apply map_fold_empty.
  - rewrite length_app in *. cbn [length] in *.
    rewrite foldl_snoc, statisticTotal_increment; [rewrite IH by lia; lia|].
    rewrite (foldl_increment_count key l ltac:(lia) (key e)). cbv zeta.
    pose proof (length_filter (fun e0 => key e0 = key e) l) as Hle.
    destruct (_ =? 0); cbn [default from_option id]; unfold int64_range; lia.
Qed.

Lemma firstFzkValue_annotated ts :
  firstFzkValue ts = None <-> fzkTagFound ts = false.
Proof.
  induction ts as [|t ts IH]; [done|]. cbn.
  destruct (String.eqb (Key t) "fzk_turning"); [split; discriminate|done].
Qed.

(** X15. The statistic of the turning points.  After the scanner loop,
    whatever order the map iteration takes, the statistic holds for
    every key the number of table entries whose node has that value in
    its first fzk_turning tag (under not_set: also the entries whose
    node has no such tag), and no key with count zero; the counts add
    up to the number of entries of the table, the line
    turning objects total.  A node is counted under not_set when it
    carries no fzk_turning tag.  (The table has fewer than 2^63
    entries, the range of [int].) *)
Theorem X15_turning_statistic (growslice : nat -> nat -> nat)
    (range_order : gmap Z nat -> list (Z * nat)) start objs :
  range_order (turningCircleLoop (reach growslice start objs))
    ≡ₚ map_to_list (turningCircleLoop (reach growslice start objs)) ->
  (Z.of_nat (size (turningCircleLoop (reach growslice start objs))) < 2 ^ 63)%Z ->
  let st := reach growslice start objs in
  let stat := turningStatistic range_order st in
  (forall k,
     stat !! k = let n := length (entriesWithKey st k) in
                 if n =? 0 then None else Some (Z.of_nat n)) /\
  statisticTotal stat = Z.of_nat (size (turningCircleLoop st)) /\
  (forall v, annotated v = false -> statisticKey v = "not_set").
Proof.
  intros Hperm Hsize st stat. fold st in Hperm, Hsize.
  pose proof (reach_Inv growslice start objs) as HI. fold st in HI.
  assert (Hlen : length (range_order (turningCircleLoop st)) = size (turningCircleLoop st)).
  { rewrite Hperm. apply length_map_to_list. }
  assert (Hstat : stat = foldl (fun s e => increment (statisticKey (valueAt st e.2)) s) ∅
                           (range_order (turningCircleLoop st))).
  { subst stat. unfold turningStatistic.
    assert (Hin : forall e, e ∈ range_order (turningCircleLoop st) ->
                   exists v, values st !! e.2 = Some v).
    { intros [k p] He. rewrite Hperm in He. apply elem_of_map_to_list in He.
      destruct (Inv_table_values st k p HI He) as (v & Hv & _). by exists v. }
    revert Hin. generalize (range_order (turningCircleLoop st)).
    intros l. induction l as [|e l IH] using rev_ind; intros Hin; [done|].
    rewrite !foldl_snoc, IH by (intros e' He'; apply Hin; set_solver).
    destruct (Hin e ltac:(set_solver)) as (v & Hv).
    unfold statisticEntry, statisticKey, valueAt.
    rewrite (tagsAt_values _ _ _ Hv), Hv. cbn [default from_option id].
    by destruct (firstFzkValue (Tags v)). }
  split; [|split].
  - intros k. rewrite Hstat, foldl_increment_count by lia. cbv zeta.
    assert (Hk : length (filter (fun e : Z * nat => statisticKey (valueAt st e.2) = k)
                           (range_order (turningCircleLoop st)))
                 = length (entriesWithKey st k)).
    { unfold entriesWithKey. apply Permutation_length. by apply filter_Permutation. }
    by rewrite Hk.
  - rewrite Hstat, foldl_increment_total by lia. by rewrite Hlen.
  - intros v Hv. unfold statisticKey.
    apply firstFzkValue_annotated in Hv. by rewrite Hv.
Qed.

Lemma X15_turning_statistic_witness :
  map_to_list (turningCircleLoop (reach growDouble 1000 exampleRun))
    ≡ₚ map_to_list (turningCircleLoop (reach growDouble 1000 exampleRun)) /\
  (Z.of_nat (size (turningCircleLoop (reach growDouble 1000 exampleRun))) < 2 ^ 63)%Z /\
  statisticTotal (turningStatistic map_to_list (reach growDouble 1000 exampleRun)) = 2%Z.
Proof.
  assert (H : (Z.of_nat (size (turningCircleLoop (reach growDouble 1000 exampleRun)))
               < 2 ^ 63)%Z) by (vm_compute; reflexivity).
  split; [reflexivity|]. split; [exact H|].
  destruct (X15_turning_statistic growDouble map_to_list 1000 exampleRun
              ltac:(reflexivity) H) as (_ & Ht & _).
  rewrite Ht. vm_compute. reflexivity.
Defined.

Lemma SFltb_raise a x v :
  SFltb a x = true -> SFltb a v = false -> SFltb x v = false.
Proof.
  unfold SFltb, SFcompare.
  destruct a as [sa|sa| |sa ma ea], x as [sx|sx| |sx mx ex], v as [sv|sv| |sv mv ev];
    try destruct sa; try destruct sx; try destruct sv; try done;
    change (Pos.compare_cont Eq) with Pos.compare;
    destruct (Z.compare_spec ea ex), (Z.compare_spec ea ev), (Z.compare_spec ex ev);
    try done; try lia; subst;
    destruct (Pos.compare_spec ma mx), (Pos.compare_spec ma mv), (Pos.compare_spec mx mv);
    cbn [CompOpp]; try done; lia.
Qed.

Lemma SFltb_lower a x v :
  SFltb x a = true -> SFltb v a = false -> SFltb v x = false.
Proof.
  unfold SFltb, SFcompare.
  destruct a as [sa|sa| |sa ma ea], x as [sx|sx| |sx mx ex], v as [sv|sv| |sv mv ev];
    try destruct sa; try destruct sx; try destruct sv; try done;
    change (Pos.compare_cont Eq) with Pos.compare;
    destruct (Z.compare_spec ex ea), (Z.compare_spec ev ea), (Z.compare_spec ev ex);
    try done; try lia; subst;
    destruct (Pos.compare_spec mx ma), (Pos.compare_spec mv ma), (Pos.compare_spec mv mx);
    cbn [CompOpp]; try done; lia.
Qed.

Lemma SFltb_irrefl a : SFltb a a = false.
Proof.
  unfold SFltb, SFcompare. destruct a as [[]|[]| |[] m e]; try done;
    change (Pos.compare_cont Eq) with Pos.compare;
    rewrite Z.compare_refl, Pos.compare_refl; done.
Qed.

Lemma SFltb_not_nan a b : SFltb a b = true -> isNaN a = false /\ isNaN b = false.
Proof. unfold SFltb, SFcompare. by destruct a, b. Qed.

Section RunningBounds.
Context {A : Type} (f : A -> float64).

Lemma running_max init (l : list A) :
  let m := foldl (fun m v => if SFltb m (f v) then f v else m) init l in
  (forall v, v ∈ l -> SFltb m (f v) = false) /\
  (m = init \/ exists v, v ∈ l /\ m = f v) /\
  (isNaN init = false -> isNaN m = false).
Proof.
  induction l as [|x l IH] using rev_ind; cbv zeta.
  - split; [intros v Hv; by apply elem_of_nil in Hv|]. split; [by left|done].
  - rewrite foldl_snoc. cbv zeta in IH. destruct IH as (Hall & Hfrom & Hnan).
    set (m := foldl _ init l) in *.
    destruct (SFltb m (f x)) eqn:Hlt.
    + split; [|split].
      * intros v [Hv|Hv]%elem_of_app.
        -- eapply SFltb_raise; [exact Hlt|by apply Hall].
        -- apply list_elem_of_singleton in Hv as ->. apply SFltb_irrefl.
      * right. exists x. split; [|done]. apply elem_of_app. right. by apply list_elem_of_singleton.
      * intros _. by apply SFltb_not_nan in Hlt as [_ ?].
    + split; [|split].
      * intros v [Hv|Hv]%elem_of_app; [by apply Hall|].
        by apply list_elem_of_singleton in Hv as ->.
      * destruct Hfrom as [->|(v & Hv & ->)]; [by left|].
        right. exists v. split; [|done]. apply elem_of_app. by left.
      * done.
Qed.

Lemma running_min init (l : list A) :
  let m := foldl (fun m v => if SFltb (f v) m then f v else m) init l in
  (forall v, v ∈ l -> SFltb (f v) m = false) /\
  (m = init \/ exists v, v ∈ l /\ m = f v) /\
  (isNaN init = false -> isNaN m = false).
Proof.
  induction l as [|x l IH] using rev_ind; cbv zeta.
  - split; [intros v Hv; by apply elem_of_nil in Hv|]. split; [by left|done].
  - rewrite foldl_snoc. cbv zeta in IH. destruct IH as (Hall & Hfrom & Hnan).
    set (m := foldl _ init l) in *.
    destruct (SFltb (f x) m) eqn:Hlt.
    + split; [|split].
      * intros v [Hv|Hv]%elem_of_app.
        -- eapply SFltb_lower; [exact Hlt|by apply Hall].
        -- apply list_elem_of_singleton in Hv as ->. apply SFltb_irrefl.
      * right. exists x. split; [|done]. apply elem_of_app. right. by apply list_elem_of_singleton.
      * intros _. by apply SFltb_not_nan in Hlt as [? _].
    + split; [|split].
      * intros v [Hv|Hv]%elem_of_app; [by apply Hall|].
        by apply list_elem_of_singleton in Hv as ->.
      * destruct Hfrom as [->|(v & Hv & ->)]; [by left|].
        right. exists v. split; [|done]. apply elem_of_app. by left.
      * done.
Qed.

End RunningBounds.

Lemma scanBounds_fields objs :
  let ds := decodedNodes objs in
  let b := scanBounds objs in
  maxLat b = foldl (fun m v => if SFltb m (Lat v) then Lat v else m) NegMaxFloat64 ds /\
  minLat b = foldl (fun m v => if SFltb (Lat v) m then Lat v else m) MaxFloat64 ds /\
  maxLon b = foldl (fun m v => if SFltb m (Lon v) then Lon v else m) NegMaxFloat64 ds /\
  minLon b = foldl (fun m v => if SFltb (Lon v) m then Lon v else m) MaxFloat64 ds.
Proof.
  induction objs as [|o objs IH] using rev_ind; [done|].
  cbv zeta in *. destruct IH as (H1 & H2 & H3 & H4).
  unfold scanBounds in *. rewrite foldl_snoc, decodedNodes_app, !foldl_app.
  rewrite <- H1, <- H2, <- H3, <- H4.
  set (b := foldl boundsObject initBounds objs).
  destruct o as [e spare|w|r]; [|done|done].
  cbn [boundsObject decodedNodes omap list_omap foldl].
  destruct (SFltb (maxLat b) (Lat e)); cbn [minLat maxLat minLon maxLon];
    destruct (SFltb (Lat e) (minLat b)); cbn [minLat maxLat minLon maxLon];
    destruct (SFltb (maxLon b) (Lon e)); cbn [minLat maxLat minLon maxLon];
    destruct (SFltb (Lon e) (minLon b)); done.
Qed.

(** X3. The bounding box of the report.  After the scanner loop no
    node read has a latitude above [maxLat] or below [minLat], nor a
    longitude above [maxLon] or below [minLon], in the comparison of
    float64; each bound is the coordinate of a node read or still the
    initial value (+-MaxFloat64), and never NaN: a node whose
    coordinate is NaN leaves the bounds as they are.  Ways and
    relations have no part in it; without a node the report shows the
    initial values, with the minimum above the maximum. *)
Theorem X3_bounding_box objs :
  let b := scanBounds objs in
  let ds := decodedNodes objs in
  (forall v, v ∈ ds ->
     SFltb (maxLat b) (Lat v) = false /\ SFltb (Lat v) (minLat b) = false /\
     SFltb (maxLon b) (Lon v) = false /\ SFltb (Lon v) (minLon b) = false) /\
  (maxLat b = NegMaxFloat64 \/ exists v, v ∈ ds /\ maxLat b = Lat v) /\
  (minLat b = MaxFloat64 \/ exists v, v ∈ ds /\ minLat b = Lat v) /\
  (maxLon b = NegMaxFloat64 \/ exists v, v ∈ ds /\ maxLon b = Lon v) /\
  (minLon b = MaxFloat64 \/ exists v, v ∈ ds /\ minLon b = Lon v) /\
  (isNaN (maxLat b) = false /\ isNaN (minLat b) = false /\
   isNaN (maxLon b) = false /\ isNaN (minLon b) = false) /\
  (ds = [] -> b = initBounds /\ SFltb (maxLat b) (minLat b) = true).
Proof.
  intros b ds.
  destruct (scanBounds_fields objs) as (H1 & H2 & H3 & H4).
  fold b ds in H1, H2, H3, H4.
  destruct (running_max Lat NegMaxFloat64 ds) as (A1 & B1 & C1).
  destruct (running_min Lat MaxFloat64 ds) as (A2 & B2 & C2).
  destruct (running_max Lon NegMaxFloat64 ds) as (A3 & B3 & C3).
  destruct (running_min Lon MaxFloat64 ds) as (A4 & B4 & C4).
  rewrite <- H1 in A1, B1, C1. rewrite <- H2 in A2, B2, C2.
  rewrite <- H3 in A3, B3, C3. rewrite <- H4 in A4, B4, C4.
  split; [intros v Hv; auto|].
  do 4 (split; [assumption|]).
  split; [auto|].
  intros Hnil. rewrite Hnil in H1, H2, H3, H4. cbn [foldl] in *.
  split; [|by rewrite H1, H2].
  destruct b; cbn in *; by subst.
Qed.

(** ** Release v0.1.0 *)

(** A node gets a new content whose tags lie in a new array. *)
Lemma Inv_replace st st' p n N arr :
  Inv st -> (forall k, turningCircleLoop st !! k <> Some p) ->
  heap st !! p = Some n ->
  heap st' = <[p := N]> (heap st) -> arrays st' = arrays st ++ [arr] ->
  turningCircleLoop st' = turningCircleLoop st ->
  sl_base (Tags N) = length (arrays st) -> length arr = sl_cap (Tags N) ->
  sl_len (Tags N) <= sl_cap (Tags N) ->
  Inv st' /\ values st' = <[p := set_Tags (take (sl_len (Tags N)) arr) N]> (values st).
Proof.
  intros HI Hno Hp Hh Ha Ht Hb Hl Hle.
  assert (Hplt : p < length (heap st)) by (eapply lookup_lt_Some; eauto).
  split.
  - constructor.
    + intros q m Hq. rewrite Hh in Hq. rewrite Ha.
      destruct (decide (q = p)) as [->|Hne].
      * rewrite list_lookup_insert_eq in Hq by done. injection Hq as <-.
        exists arr. rewrite Hb. rewrite lookup_app_r by done. by rewrite Nat.sub_diag.
      * rewrite list_lookup_insert_ne in Hq by done.
        destruct (inv_wf _ HI _ _ Hq) as (arr' & Harr' & Hlen' & Hle').
        exists arr'. split; [|done]. by apply lookup_app_l_Some.
    + intros q1 q2 m1 m2 H1 H2 Hbase. rewrite Hh in H1, H2.
      destruct (decide (q1 = p)) as [->|Hne1], (decide (q2 = p)) as [->|Hne2]; [done| | |].
      * rewrite list_lookup_insert_eq in H1 by done. injection H1 as <-.
        rewrite list_lookup_insert_ne in H2 by done.
        destruct (inv_wf _ HI _ _ H2) as (arr' & Harr' & _).
        apply lookup_lt_Some in Harr'. lia.
      * rewrite list_lookup_insert_eq in H2 by done. injection H2 as <-.
        rewrite list_lookup_insert_ne in H1 by done.
        destruct (inv_wf _ HI _ _ H1) as (arr' & Harr' & _).
        apply lookup_lt_Some in Harr'. lia.
      * rewrite list_lookup_insert_ne in H1, H2 by done. eapply (inv_sep _ HI); eauto.
    + intros k q Hk. rewrite Ht in Hk. rewrite Hh.
      destruct (inv_tbl _ HI _ _ Hk) as (m & Hm & Hid).
      destruct (decide (q = p)) as [->|Hne]; [by destruct (Hno k)|].
      rewrite list_lookup_insert_ne by done. eauto.
  - unfold values. rewrite Hh, Ha. apply list_eq. intros q. rewrite list_lookup_fmap.
    destruct (decide (q = p)) as [->|Hne].
    + rewrite !list_lookup_insert_eq by (rewrite ?length_fmap; done).
      cbn [fmap option_fmap option_map]. do 2 f_equal.
      unfold slice_read. rewrite Hb, lookup_app_r by done. by rewrite Nat.sub_diag.
    + rewrite !list_lookup_insert_ne by done. rewrite list_lookup_fmap.
      destruct (heap st !! q) as [m|] eqn:Hq; simpl; [|done].
      unfold slice_read. destruct (inv_wf _ HI _ _ Hq) as (arr' & Harr' & _).
      by rewrite (lookup_app_l_Some _ _ _ _ Harr'), Harr'.
Qed.

(** The first three statements that touch the node: new identifier,
    empty tag slice, first [append] (which has to allocate). *)
Lemma reset_spec growslice st p n nodeID t :
  Inv st -> (forall k, turningCircleLoop st !! k <> Some p) -> heap st !! p = Some n ->
  let st' := exec (appendTag growslice p t)
               (exec (storeTags p emptySlice) (exec (V010.storeID p nodeID) st)) in
  Inv st' /\ sameRest st st' /\
  values st' = <[p := set_Tags [t] (set_ID nodeID n)]> (values st).
Proof.
  intros HI Hno Hp st'.
  assert (Hplt : p < length (heap st)) by (eapply lookup_lt_Some; eauto).
  set (newcap := 1 `max` growslice 0 1).
  set (N := set_Tags (mkSlice (length (arrays st)) 1 newcap) (set_ID nodeID n)).
  set (arr := t :: replicate (newcap - 1) zeroTag).
  assert (Hst' : heap st' = <[p := N]> (heap st) /\ arrays st' = arrays st ++ [arr] /\
                 sameRest st st').
  { assert (Ea : exec (V010.storeID p nodeID) st
                 = set_heap (<[p := set_ID nodeID n]> (heap st)) st).
    { unfold V010.storeID. by rewrite exec_modify, Hp. }
    assert (Eb : exec (storeTags p emptySlice) (exec (V010.storeID p nodeID) st)
                 = set_heap (<[p := set_Tags emptySlice (set_ID nodeID n)]> (heap st)) st).
    { rewrite Ea. unfold storeTags. rewrite exec_modify. cbn [heap set_heap].
      rewrite list_lookup_insert_eq by done. cbn [default from_option id].
      by rewrite list_insert_insert_eq. }
    subst st'. rewrite Eb. unfold appendTag.
    rewrite exec_bind_deref. cbn [heap set_heap].
    rewrite list_lookup_insert_eq by done. cbn [default from_option id].
    rewrite Tags_set_Tags, exec_bind, append_grow by (cbn; lia).
    cbn [fst snd emptySlice sl_len sl_cap sl_base].
    unfold storeTags. rewrite exec_modify.
    cbn [heap set_heap set_arrays arrays].
    rewrite list_lookup_insert_eq by done. cbn [default from_option id].
    rewrite list_insert_insert_eq. done. }
  destruct Hst' as (Hh & Ha & Hr).
  destruct (Inv_replace st st' p n N arr HI Hno Hp Hh Ha) as [HI' Hv].
  - apply Hr.
  - done.
  - subst arr N. cbn [Tags set_Tags sl_cap length]. rewrite length_replicate. lia.
  - subst N. cbn. lia.
  - split; [done|]. split; [done|]. rewrite Hv. done.
Qed.

Lemma duplicate_spec growslice st p v nodeID refKey refValue nameKey nameValue :
  Inv st -> (forall k, turningCircleLoop st !! k <> Some p) ->
  values st !! p = Some v ->
  let st' := exec (V010.duplicateNetworkJunctionPoint growslice p nodeID
                     refKey refValue nameKey nameValue) st in
  let w := set_ID nodeID
             (set_Tags (V010.duplicateTags refKey refValue nameKey nameValue) v) in
  Inv st' /\ values st' = <[p := w]> (values st) /\
  writer st' = writer st ++ [NodeElem w] /\
  newNodeID st' = newNodeID st /\ turningCircleLoop st' = turningCircleLoop st /\
  turningCircleLoopModified st' = turningCircleLoopModified st.
Proof.
  intros HI Hno Hv st' w.
  assert (Hplt : p < length (values st)) by (eapply lookup_lt_Some; eauto).
  destruct (values_heap _ _ _ Hv) as (n & Hn & Hvn).
  subst st'. unfold V010.duplicateNetworkJunctionPoint. rewrite !exec_seq.
  destruct (reset_spec growslice st p n nodeID (mkTag "fzk_network:type" "node_network")
              HI Hno Hn) as (HI1 & Hr1 & Hv1).
  set (st1 := exec (appendTag growslice p _) _) in *.
  assert (Hp1 : values st1 !! p = Some (set_Tags [mkTag "fzk_network:type" "node_network"]
                                         (set_ID nodeID n))).
  { rewrite Hv1. by apply list_lookup_insert_eq. }
  destruct (appendTag_values growslice st1 p _ (mkTag refKey refValue) HI1 Hp1)
    as (HI2 & Hr2 & Hv2).
  set (st2 := exec (appendTag growslice p (mkTag refKey refValue)) st1) in *.
  rewrite Tags_set_Tags, set_Tags_set_Tags in Hv2.
  rewrite Hv1, list_insert_insert_eq in Hv2.
  set (st3 := exec (if negb (String.eqb nameValue "")
                    then appendTag growslice p (mkTag nameKey nameValue) else ret tt) st2).
  assert (H3 : Inv st3 /\ sameRest st2 st3 /\
               values st3 = <[p := set_Tags (V010.duplicateTags refKey refValue nameKey nameValue)
                                     (set_ID nodeID n)]> (values st)).
  { subst st3. unfold V010.duplicateTags.
    destruct (String.eqb nameValue ""); cbn [negb].
    - rewrite exec_ret. split; [done|]. split; [done|]. by rewrite Hv2.
    - assert (Hp2 : values st2 !! p
                    = Some (set_Tags ([mkTag "fzk_network:type" "node_network"]
                                      ++ [mkTag refKey refValue]) (set_ID nodeID n))).
      { rewrite Hv2. by apply list_lookup_insert_eq. }
      destruct (appendTag_values growslice st2 p _ (mkTag nameKey nameValue) HI2 Hp2)
        as (HI3 & Hr3 & Hv3).
      split; [done|]. split; [done|].
      rewrite Hv3, Hv2, list_insert_insert_eq, Tags_set_Tags, set_Tags_set_Tags.
      by rewrite <- app_assoc. }
  destruct H3 as (HI3 & Hr3 & Hv3).
  assert (Hw : set_Tags (V010.duplicateTags refKey refValue nameKey nameValue)
                 (set_ID nodeID n) = w).
  { subst w. rewrite Hvn. by destruct n. }
  rewrite Hw in Hv3.
  assert (Hp3 : values st3 !! p = Some w) by (rewrite Hv3; by apply list_lookup_insert_eq).
  destruct (values_heap _ _ _ Hp3) as (n3 & Hn3 & Hw3).
  rewrite exec_bind_deref, Hn3. cbn [default from_option id].
  unfold marshal, write, readTags, exec, bind, gets, modify. cbn [snd fst].
  rewrite <- Hw3.
  destruct Hr1 as (A1 & B1 & C1 & D1), Hr2 as (A2 & B2 & C2 & D2),
           Hr3 as (A3 & B3 & C3 & D3).
  split; [|split; [|split; [|split; [|split]]]].
  - eapply Inv_same_store; [exact HI3|done..].
  - exact Hv3.
  - cbn. by rewrite B3, B2, B1.
  - cbn. by rewrite A3, A2, A1.
  - cbn. by rewrite C3, C2, C1.
  - cbn. by rewrite D3, D2, D1.
Qed.

Lemma duplicateAll_spec growslice p (v : NodeValue) tags nameValue ks :
  forall st c (v' : NodeValue),
  Inv st -> turningCircleLoop st = ∅ -> values st !! p = Some v' ->
  (forall i (ts : list Tag), set_ID i (set_Tags ts v') = set_ID i (set_Tags ts v)) ->
  let r := V010.duplicateAll growslice p tags nameValue ks c st in
  let found := omap (fun k => (fun x => (k, x)) <$> tags !! k) ks in
  let ds := imap (fun i r => set_ID (bump i c.1)
                    (set_Tags (V010.duplicateTags r.1 r.2 "name" nameValue) v)) found in
  r.1 = (bump (length found) c.1, bump (length found) c.2) /\
  writer r.2 = writer st ++ (NodeElem <$> ds) /\
  values r.2 = <[p := default v' (last ds)]> (values st) /\
  Inv r.2 /\ turningCircleLoop r.2 = ∅ /\ newNodeID r.2 = newNodeID st /\
  turningCircleLoopModified r.2 = turningCircleLoopModified st.
Proof.
  induction ks as [|k ks IH]; intros st c v' HI Ht Hv Hsame; cbv zeta.
  - cbn. rewrite app_nil_r, list_insert_id by done. by destruct c.
  - destruct (tags !! k) as [rv|] eqn:Hk.
    + assert (Heq : V010.duplicateAll growslice p tags nameValue (k :: ks) c st
                    = V010.duplicateAll growslice p tags nameValue ks
                        (wrap64 (c.1 + 1), wrap64 (c.2 + 1))
                        (exec (V010.duplicateNetworkJunctionPoint growslice p c.1 k rv
                                 "name" nameValue) st)).
      { cbn [V010.duplicateAll]. unfold V010.duplicateIfFound, exec. rewrite Hk.
        unfold bind, ret.
        by destruct (V010.duplicateNetworkJunctionPoint growslice p c.1 k rv
                       "name" nameValue st). }
      rewrite Heq. clear Heq.
      assert (Hno : forall k0, turningCircleLoop st !! k0 <> Some p)
        by (intros k0; by rewrite Ht, lookup_empty).
      destruct (duplicate_spec growslice st p v' c.1 k rv "name" nameValue HI Hno Hv)
        as (HI1 & Hv1 & Hw1 & Hn1 & Ht1 & Hm1).
      rewrite Hsame in Hv1, Hw1.
      set (w := set_ID c.1 (set_Tags (V010.duplicateTags k rv "name" nameValue) v)) in *.
      set (st1 := exec _ st) in *.
      assert (Hp1 : values st1 !! p = Some w).
      { rewrite Hv1. apply list_lookup_insert_eq. by eapply lookup_lt_Some. }
      assert (Hsame1 : forall i (ts : list Tag),
                 set_ID i (set_Tags ts w) = set_ID i (set_Tags ts v)) by done.
      destruct (IH st1 (wrap64 (c.1 + 1), wrap64 (c.2 + 1)) w HI1
                  ltac:(by rewrite Ht1) Hp1 Hsame1) as (R1 & R2 & R3 & R4 & R5 & R6 & R7).
      cbv zeta in R1, R2, R3. cbn [fst snd] in R1, R2, R3.
      cbn [omap list_omap]. rewrite Hk. cbn [fmap option_fmap option_map].
      set (found := omap _ ks) in *.
      rewrite imap_cons. cbn [length fst snd].
      rewrite (imap_ext _ (fun i r => set_ID (bump i (wrap64 (c.1 + 1)))
                 (set_Tags (V010.duplicateTags r.1 r.2 "name" nameValue) v)))
        by (intros i x _; unfold compose; by rewrite bump_S).
      set (ds := imap _ found) in *.
      split; [by rewrite R1, !bump_S|].
      split; [rewrite R2, Hw1, fmap_cons, <- app_assoc; done|].
      split; [|by rewrite R6, R7, Hn1, Hm1].
      rewrite R3, Hv1, list_insert_insert_eq, last_cons.
      change (set_ID (bump 0 c.1) (set_Tags (V010.duplicateTags k rv "name" nameValue) v))
        with w.
      by destruct (last ds).
    + assert (Heq : V010.duplicateAll growslice p tags nameValue (k :: ks) c st
                    = V010.duplicateAll growslice p tags nameValue ks c st).
      { cbn [V010.duplicateAll]. unfold V010.duplicateIfFound. by rewrite Hk. }
      rewrite Heq. cbn [omap list_omap]. rewrite Hk. cbn [fmap option_fmap option_map].
      apply (IH st c v' HI Ht Hv Hsame).
Qed.

Lemma foundReferences_length tags : length (V010.foundReferences tags) <= 6.
Proof.
  unfold V010.foundReferences.
  assert (H : forall ks, length (omap (fun k => (fun v : string => (k, v)) <$> tags !! k) ks)
                         <= length ks).
  { induction ks as [|k ks IH]; [done|]. cbn [omap list_omap].
    destruct (tags !! k); cbn [fmap option_fmap option_map length]; lia. }
  apply (H V010.referenceKeys).
Qed.

Lemma processNode_v010_spec (growslice : nat -> nat -> nat) st e v c :
  Inv st -> turningCircleLoop st = ∅ -> values st !! e = Some v ->
  let r := V010.processNode growslice e c st in
  let ds := V010.duplicatesOf v c.1 in
  r.1 = (bump (length ds) c.1, bump (length ds) c.2) /\
  writer r.2 = writer st ++ (NodeElem <$> ds) /\
  values r.2 = <[e := default v (last ds)]> (values st) /\
  Inv r.2 /\ turningCircleLoop r.2 = ∅ /\ length ds <= 6.
Proof.
  intros HI Ht Hv r ds.
  destruct (values_heap _ _ _ Hv) as (n & Hn & Hvn).
  assert (Htags : Tags_Map (slice_read (arrays st) (Tags n)) = Tags_Map (Tags v))
    by (by rewrite Hvn).
  assert (Hnone : forall (r : Z * Z * state) (ds : list NodeValue),
                  r = (c, st) -> ds = [] ->
                  r.1 = (bump (length ds) c.1, bump (length ds) c.2) /\
                  writer r.2 = writer st ++ (NodeElem <$> ds) /\
                  values r.2 = <[e := default v (last ds)]> (values st) /\
                  Inv r.2 /\ turningCircleLoop r.2 = ∅ /\ length ds <= 6).
  { clear r ds. intros r ds -> ->.
    cbn [fst snd length fmap list_fmap last default from_option id bump Nat.iter].
    rewrite app_nil_r, list_insert_id by done.
    destruct c. do 5 (split; [done|]). lia. }
  set (tags := Tags_Map (Tags v)) in *.
  assert (Heq : V010.processNode growslice e c st
                = (if 0 <? size tags then
                     match tags !! "network:type" with
                     | Some tagValue =>
                       if String.eqb tagValue "node_network"
                       then V010.duplicateAll growslice e tags (default "" (tags !! "name"))
                              V010.referenceKeys c
                       else ret c
                     | None => ret c
                     end
                   else ret c) st).
  { rewrite <- Htags. replace n with (default zeroNode (heap st !! e)) by (by rewrite Hn).
    reflexivity. }
  subst r ds. rewrite Heq. clear Heq.
  unfold V010.duplicatesOf. fold tags. unfold isNodeNetwork. rewrite <- (guarded_lookup tags "network:type").
  destruct (0 <? size tags); [|by apply Hnone; [|rewrite bool_decide_eq_false_2]].
  destruct (tags !! "network:type") as [tv|];
    [|by apply Hnone; [|rewrite bool_decide_eq_false_2]].
  destruct (String.eqb tv "node_network") eqn:He.
  - apply String.eqb_eq in He. subst tv. rewrite bool_decide_eq_true_2 by done.
    destruct (duplicateAll_spec growslice e v tags (default "" (tags !! "name"))
                V010.referenceKeys st c v HI Ht Hv ltac:(done))
      as (R1 & R2 & R3 & R4 & R5 & _).
    pose proof (foundReferences_length tags) as Hlen.
    unfold V010.duplicates. fold tags. cbv zeta. rewrite length_imap.
    unfold V010.foundReferences in *.
    split; [exact R1|]. split; [exact R2|]. split; [exact R3|]. split; [exact R4|].
    split; [exact R5|]. exact Hlen.
  - apply String.eqb_neq in He. apply Hnone; [done|].
    rewrite bool_decide_eq_false_2; [done|congruence].
Qed.

Lemma scanNode_lookup st v spare :
  Inv st ->
  let s := scanNode v spare st in
  Inv s.2 /\ values s.2 = values st ++ [v] /\ s.1 = length (values st) /\
  values s.2 !! s.1 = Some v /\ sameRest st s.2.
Proof.
  intros HI s. destruct (scanNode_spec st v spare HI) as (He & HI1 & Hr & Hv & _).
  fold s in He, HI1, Hr, Hv.
  split; [done|]. split; [done|]. rewrite values_length. split; [done|]. split; [|done].
  rewrite Hv, He, <- values_length, lookup_app_r by done. by rewrite Nat.sub_diag.
Qed.

Lemma scanLoop_v010_spec growslice objs :
  forall c st, Inv st -> turningCircleLoop st = ∅ ->
  let r := V010.scanLoop growslice objs c st in
  let vs := decodedNodes objs in
  let ds := V010.allDuplicates vs c.1 in
  r.1 = (bump (length ds) c.1, bump (length ds) c.2) /\
  writer r.2 = writer st ++ (NodeElem <$> ds) /\
  values r.2 = values st ++ V010.finalNodes vs c.1 /\
  Inv r.2 /\ turningCircleLoop r.2 = ∅.
Proof.
  induction objs as [|o objs IH]; intros c st HI Ht; cbv zeta.
  - cbn. rewrite !app_nil_r. by destruct c.
  - destruct o as [v spare|w|rel]; [|apply (IH c st HI Ht)..].
    destruct (scanNode_lookup st v spare HI) as (HI1 & Hv1 & He & Hl1 & Hr1).
    assert (Ht1 : turningCircleLoop (scanNode v spare st).2 = ∅)
      by (destruct Hr1 as (_ & _ & -> & _); done).
    destruct (processNode_v010_spec growslice _ _ v c HI1 Ht1 Hl1)
      as (P1 & P2 & P3 & P4 & P5 & _).
    cbv zeta in P1, P2, P3, P4, P5.
    assert (Heq : V010.scanLoop growslice (ObjNode v spare :: objs) c st
                  = V010.scanLoop growslice objs
                      (V010.processNode growslice (scanNode v spare st).1 c
                         (scanNode v spare st).2).1
                      (V010.processNode growslice (scanNode v spare st).1 c
                         (scanNode v spare st).2).2).
    { cbn [V010.scanLoop V010.processObject]. unfold bind.
      destruct (scanNode v spare st) as [e st1]. cbn [fst snd].
      by destruct (V010.processNode growslice e c st1). }
    rewrite Heq. clear Heq.
    set (r1 := V010.processNode growslice _ c _) in *.
    destruct (IH r1.1 r1.2 P4 P5) as (R1 & R2 & R3 & R4 & R5).
    cbv zeta in R1, R2, R3. rewrite P1 in R1, R2, R3, R4, R5 |- *. cbn [fst snd] in R1, R2, R3.
    cbn [decodedNodes omap list_omap V010.allDuplicates V010.finalNodes].
    fold (decodedNodes objs).
    set (ds0 := V010.duplicatesOf v c.1) in *.
    split; [by rewrite R1, length_app, !bump_add|].
    split; [rewrite R2, P2; destruct Hr1 as (_ & -> & _); by rewrite fmap_app, app_assoc|].
    split; [|done].
    rewrite R3, P3, Hv1, He, insert_app_r_alt, Nat.sub_diag by done.
    by rewrite <- app_assoc.
Qed.

Lemma scanPhase_v010_start growslice start objs :
  V010.scanPhase growslice start objs initState
  = V010.scanLoop growslice objs (start, 0%Z)
      (set_writer [XmlDecl; OsmOpen] initState).
Proof. reflexivity. Qed.

Lemma Inv_v010_start : Inv (set_writer [XmlDecl; OsmOpen] initState).
Proof. eapply Inv_same_store; [apply Inv_initState|done..]. Qed.

(** X16. Release v0.1.0: [duplicateNetworkJunctionPoint] works on the
    node it is given, not on a copy ([newOsmNode := sourceOsmNode]
    copies the pointer).  Called at any moment of the scanner loop on
    the node that the scanner has just delivered, it hands to the
    writer one element: the node with the identifier [nodeID] and the
    tags fzk_network:type = node_network, refKey = refValue and, when
    [nameValue] is not empty, nameKey = nameValue; and afterwards the
    node behind [sourceOsmNode] has that identifier and those tags as
    well.  No other node changes. *)
Theorem X16_v010_duplicate_overwrites_source (growslice : nat -> nat -> nat)
    start objs (v : NodeValue) spare nodeID refKey refValue nameKey nameValue :
  let s := scanNode v spare (V010.scanPhase growslice start objs initState).2 in
  let st' := exec (V010.duplicateNetworkJunctionPoint growslice s.1 nodeID
                     refKey refValue nameKey nameValue) s.2 in
  let w := set_ID nodeID
             (set_Tags ([mkTag "fzk_network:type" "node_network"; mkTag refKey refValue]
                        ++ (if String.eqb nameValue "" then []
                            else [mkTag nameKey nameValue])) v) in
  values s.2 !! s.1 = Some v /\
  writer st' = writer s.2 ++ [NodeElem w] /\
  values st' !! s.1 = Some w /\
  (forall q, q <> s.1 -> values st' !! q = values s.2 !! q) /\
  length (values st') = length (values s.2).
Proof.
  intros s st' w.
  destruct (scanLoop_v010_spec growslice objs (start, 0%Z) _ Inv_v010_start eq_refl)
    as (_ & _ & _ & HI0 & Ht0).
  cbv zeta in HI0, Ht0. rewrite <- scanPhase_v010_start in HI0, Ht0.
  destruct (scanNode_lookup _ v spare HI0) as (HI1 & _ & _ & Hl1 & Hr1).
  fold s in HI1, Hl1, Hr1.
  assert (Hno : forall k0, turningCircleLoop s.2 !! k0 <> Some s.1).
  { intros k0. destruct Hr1 as (_ & _ & -> & _). by rewrite Ht0, lookup_empty. }
  destruct (duplicate_spec growslice s.2 s.1 v nodeID refKey refValue nameKey nameValue
              HI1 Hno Hl1) as (_ & Hv1 & Hw1 & _).
  fold st' in Hv1, Hw1. unfold V010.duplicateTags in Hv1, Hw1. fold w in Hv1, Hw1.
  split; [done|]. split; [done|]. rewrite Hv1.
  split; [apply list_lookup_insert_eq; by eapply lookup_lt_Some|].
  split; [intros q Hq; by apply list_lookup_insert_ne|].
  apply length_insert.
Qed.


(** * The statistics calls, the ends of the run and the output file *)

Section Stats.

Variable growslice : nat -> nat -> nat.
Variable elementID : object -> option ElementID.

Lemma processObjectStats_Some o id stats st :
  elementID o = Some id ->
  processObjectStats growslice elementID o stats st
  = (Some (elementStats_Add stats id (objectTags o)), exec (processObject growslice o) st).
Proof.
  intros H. unfold processObjectStats, exec, bind, ret. rewrite H.
  by destruct (processObject growslice o st).
Qed.

Lemma processObjectStats_None o stats st :
  elementID o = None ->
  processObjectStats growslice elementID o stats st = (None, st).
Proof. intros H. unfold processObjectStats. by rewrite H. Qed.

Lemma scanLoopStats_cons o rest stats st :
  scanLoopStats growslice elementID (o :: rest) stats st
  = match elementID o with
    | Some id => scanLoopStats growslice elementID rest
                   (elementStats_Add stats id (objectTags o))
                   (exec (processObject growslice o) st)
    | None => (None, st)
    end.
Proof.
  cbn [scanLoopStats]. unfold bind at 1.
  destruct (elementID o) as [id|] eqn:H.
  - by rewrite (processObjectStats_Some _ _ _ _ H).
  - by rewrite (processObjectStats_None _ _ _ H).
Qed.

(** Either every call returns and the loop is the loop of the cases,
    or it ends at the first object whose call panics. *)
Lemma scanLoopStats_cases objs : forall stats st,
  (Forall (fun o => is_Some (elementID o)) objs /\
   scanLoopStats growslice elementID objs stats st
   = (Some (foldl (statsStep elementID) stats objs),
      exec (scanLoop growslice objs) st)) \/
  (exists pre o post,
     objs = pre ++ o :: post /\ Forall (fun o => is_Some (elementID o)) pre /\
     elementID o = None /\
     scanLoopStats growslice elementID objs stats st
     = (None, exec (scanLoop growslice pre) st)).
Proof.
  induction objs as [|o objs IH]; intros stats st.
  - left. split; [constructor|done].
  - rewrite scanLoopStats_cons. destruct (elementID o) as [id|] eqn:Ho.
    + destruct (IH (elementStats_Add stats id (objectTags o))
                  (exec (processObject growslice o) st))
        as [[Hall Heq]|(pre & o' & post & -> & Hpre & Ho' & Heq)].
      * left. split; [constructor; [by rewrite Ho|done]|].
        rewrite Heq. cbn [foldl scanLoop]. rewrite exec_seq.
        do 3 f_equal. unfold statsStep. by rewrite Ho.
      * right. exists (o :: pre), o', post.
        split; [done|]. split; [constructor; [by rewrite Ho|done]|]. split; [done|].
        rewrite Heq. cbn [scanLoop]. by rewrite exec_seq.
    + right. exists [], o, objs. split; [done|]. split; [constructor|]. done.
Qed.

Lemma scanPhaseStats_start start objs :
  scanPhaseStats growslice elementID start objs initState
  = scanLoopStats growslice elementID objs newElementStats (reach growslice start []).
Proof. reflexivity. Qed.

Lemma reach_from_start start objs :
  reach growslice start objs = exec (scanLoop growslice objs) (reach growslice start []).
Proof. by rewrite <- (reach_app growslice start [] objs). Qed.

(** [MaxTags] and [MaxTagsID] go together. *)
Lemma statsStep_tagged s o :
  ((MaxTags s = 0%Z /\ MaxTagsID s = None) \/ ((0 < MaxTags s)%Z /\ is_Some (MaxTagsID s))) ->
  let s' := statsStep elementID s o in
  ((MaxTags s' = 0%Z /\ MaxTagsID s' = None) \/
   ((0 < MaxTags s')%Z /\ is_Some (MaxTagsID s'))) /\
  (MaxTagsID s' = None <->
   MaxTagsID s = None /\ (is_Some (elementID o) -> objectTags o = [])).
Proof.
  intros HJ. cbv zeta. unfold statsStep.
  destruct (elementID o) as [id|].
  - unfold elementStats_Add.
    destruct (MaxTags s <? Z.of_nat (length (objectTags o)))%Z eqn:Hlt;
      cbn [MaxTags MaxTagsID].
    + apply Z.ltb_lt in Hlt. split.
      * right. split; [|by eexists]. destruct HJ as [[H0 _]|[H0 _]]; lia.
      * split; [done|]. intros [_ He]. rewrite He in Hlt by (by eexists).
        cbn in Hlt. destruct HJ as [[H0 _]|[H0 _]]; lia.
    + apply Z.ltb_ge in Hlt. split; [exact HJ|]. split.
      * intros Hn. split; [done|]. intros _.
        destruct HJ as [[H0 _]|[_ [x Hx]]]; [|congruence].
        destruct (objectTags o); [done|]. cbn [length] in Hlt. lia.
      * by intros [? _].
  - split; [exact HJ|]. split; [|by intros [? _]].
    intros Hn. split; [done|]. by intros [x Hx].
Qed.

Lemma statsAfter_tagged objs :
  let s := statsAfter elementID objs in
  ((MaxTags s = 0%Z /\ MaxTagsID s = None) \/ ((0 < MaxTags s)%Z /\ is_Some (MaxTagsID s))) /\
  (MaxTagsID s = None <->
   forall o, o ∈ objs -> is_Some (elementID o) -> objectTags o = []).
Proof.
  unfold statsAfter. induction objs as [|o objs IH] using rev_ind.
  - cbn. split; [by left|]. split; [|done]. intros _ o Ho. by apply elem_of_nil in Ho.
  - cbv zeta in *. rewrite foldl_snoc. destruct IH as [HJ Hiff].
    destruct (statsStep_tagged _ o HJ) as [HJ' Hiff']. cbv zeta in HJ', Hiff'.
    split; [exact HJ'|]. rewrite Hiff', Hiff. split.
    + intros [H1 H2] o' [Ho'|Ho']%elem_of_app; [by apply H1|].
      apply list_elem_of_singleton in Ho' as ->. exact H2.
    + intros H. split.
      * intros o' Ho'. apply H. apply elem_of_app. by left.
      * apply H. apply elem_of_app. right. by apply list_elem_of_singleton.
Qed.

End Stats.

(** The ends of [main] once the flags are accepted and the files
    open. *)
Lemma main_ends growslice range_order elementID args env objs :
  inputOSM args <> "" -> outputNodes args <> "" -> startNode args <> 0%Z ->
  openInput_ok env = true -> openOutput_ok env = true ->
  let r := main growslice range_order elementID args env objs in
  let st := reach growslice (startNode args) objs in
  (forall pre o post, objs = pre ++ o :: post ->
     Forall (fun o => is_Some (elementID o)) pre -> elementID o = None ->
     r = (Panic, reach growslice (startNode args) pre)) /\
  (Forall (fun o => is_Some (elementID o)) objs ->
     (scanner_ok env = false -> r = (ScannerError, st)) /\
     (scanner_ok env = true -> (forall o, o ∈ objs -> objectTags o = []) ->
        r = (Panic, st)) /\
     (scanner_ok env = true -> (exists o, o ∈ objs /\ objectTags o <> []) ->
        r = (if negb (flush_ok env) then FlushFailed
             else if negb (closeOutput_ok env) then CloseFailed
             else if negb (closeInput_ok env) then CloseFailed
             else Done,
             exec (drainPhase growslice range_order) st))).
Proof.
  intros Hi Ho Hs Hoi Hoo r st.
  apply String.eqb_neq in Hi, Ho. apply Z.eqb_neq in Hs.
  assert (Hr : r = let q := scanLoopStats growslice elementID objs newElementStats
                              (reach growslice (startNode args) []) in
                   match q.1 with
                   | None => (Panic, q.2)
                   | Some stats =>
                     if negb (scanner_ok env) then (ScannerError, q.2)
                     else match MaxTagsID stats with
                          | None => (Panic, q.2)
                          | Some _ =>
                            let st := exec (drainPhase growslice range_order) q.2 in
                            if negb (flush_ok env) then (FlushFailed, st)
                            else if negb (closeOutput_ok env) then (CloseFailed, st)
                            else if negb (closeInput_ok env) then (CloseFailed, st)
                            else (Done, st)
                          end
                   end).
  { unfold r, main. rewrite Hi, Ho, Hs, Hoi, Hoo. cbn [orb negb].
    by rewrite scanPhaseStats_start. }
  cbv zeta in Hr.
  assert (Hall : Forall (fun o => is_Some (elementID o)) objs ->
            scanLoopStats growslice elementID objs newElementStats
              (reach growslice (startNode args) [])
            = (Some (statsAfter elementID objs), st)).
  { intros Hall.
    destruct (scanLoopStats_cases growslice elementID objs newElementStats
                (reach growslice (startNode args) []))
      as [[_ Heq]|(pre & o & post & -> & _ & Hnone & _)].
    - rewrite Heq. unfold st. by rewrite (reach_from_start growslice _ objs).
    - apply Forall_app in Hall as [_ Hall]. apply Forall_cons in Hall as [[x Hx] _].
      congruence. }
  split.
  - intros pre o post -> Hpre Hnone.
    destruct (scanLoopStats_cases growslice elementID (pre ++ o :: post) newElementStats
                (reach growslice (startNode args) []))
      as [[Hall' _]|(pre' & o' & post' & Heq & Hpre' & Hnone' & Hrun)].
    + apply Forall_app in Hall' as [_ Hall']. apply Forall_cons in Hall' as [[x Hx] _].
      congruence.
    + assert (pre' = pre) as ->.
      { clear -Heq Hpre Hpre' Hnone Hnone'.
        revert pre' Heq Hpre'. induction pre as [|a pre IH]; intros pre' Heq Hpre'.
        - destruct pre' as [|b pre']; [done|]. injection Heq as -> _.
          apply Forall_cons in Hpre' as [[x Hx] _]. congruence.
        - destruct pre' as [|b pre'].
          + injection Heq as <- _. apply Forall_cons in Hpre as [[x Hx] _]. congruence.
          + injection Heq as <- Heq. f_equal. apply Forall_cons in Hpre as [_ Hpre].
            apply Forall_cons in Hpre' as [_ Hpre']. by apply IH. }
      rewrite Hr, Hrun. cbn [fst snd].
      by rewrite <- (reach_from_start growslice _ pre).
  - intros Hpass. rewrite (Hall Hpass) in Hr. cbn [fst snd] in Hr.
    destruct (statsAfter_tagged elementID objs) as [_ Htag]. cbv zeta in Htag.
    split; [|split].
    + intros Hsc. by rewrite Hr, Hsc.
    + intros Hsc Hempty. rewrite Hr, Hsc. cbn [negb].
      assert (Hn : MaxTagsID (statsAfter elementID objs) = None).
      { apply Htag. intros o Hin _. by apply Hempty. }
      by rewrite Hn.
    + intros Hsc (o & Hin & Hne). rewrite Hr, Hsc. cbn [negb].
      destruct (MaxTagsID (statsAfter elementID objs)) eqn:Hm.
      * by destruct (flush_ok env), (closeOutput_ok env), (closeInput_ok env).
      * exfalso. apply Hne. apply (proj1 Htag eq_refl o Hin).
        by eapply Forall_forall in Hpass.
Qed.

Lemma tags_empty_or_not (objs : list object) :
  (forall o, o ∈ objs -> objectTags o = []) \/
  (exists o, o ∈ objs /\ objectTags o <> []).
Proof.
  induction objs as [|o objs [IH|(o' & Hin & Hne)]].
  - left. intros o Ho. by apply elem_of_nil in Ho.
  - destruct (objectTags o) as [|t ts] eqn:Ht.
    + left. intros o' [->|Ho']%elem_of_cons; [done|by apply IH].
    + right. exists o. split; [left|]. by rewrite Ht.
  - right. exists o'. split; [by right|done].
Qed.

Lemma first_panic elementID (objs : list object) :
  (exists o, o ∈ objs /\ elementID o = None) ->
  exists pre o post, objs = pre ++ o :: post /\
    Forall (fun o => is_Some (elementID o)) pre /\ elementID o = (None : option ElementID).
Proof.
  intros (o & Hin & Hnone).
  destruct (scanLoopStats_cases (fun _ _ => 0) elementID objs newElementStats initState)
    as [[Hall _]|(pre & o' & post & Heq & Hpre & Ho' & _)].
  - rewrite Forall_forall in Hall. destruct (Hall o Hin) as [x Hx]. congruence.
  - by exists pre, o', post.
Qed.

(** The four ways in which [main] goes on once the flags are accepted
    and the files open. *)
Lemma main_normal growslice range_order elementID args env objs :
  inputOSM args <> "" -> outputNodes args <> "" -> startNode args <> 0%Z ->
  openInput_ok env = true -> openOutput_ok env = true ->
  let r := main growslice range_order elementID args env objs in
  let st := reach growslice (startNode args) objs in
  let passes := Forall (fun o => is_Some (elementID o)) objs in
  (exists pre o post, objs = pre ++ o :: post /\ elementID o = None /\
     r = (Panic, reach growslice (startNode args) pre)) \/
  (passes /\ scanner_ok env = false /\ r = (ScannerError, st)) \/
  (passes /\ scanner_ok env = true /\ (forall o, o ∈ objs -> objectTags o = []) /\
     r = (Panic, st)) \/
  (passes /\ scanner_ok env = true /\ (exists o, o ∈ objs /\ objectTags o <> []) /\
     r = (if negb (flush_ok env) then FlushFailed
          else if negb (closeOutput_ok env) then CloseFailed
          else if negb (closeInput_ok env) then CloseFailed
          else Done,
          exec (drainPhase growslice range_order) st)).
Proof.
  intros Hi Ho Hs Hoi Hoo r st passes.
  destruct (main_ends growslice range_order elementID args env objs Hi Ho Hs Hoi Hoo)
    as [Hpanic Hpass]. fold r st in Hpanic, Hpass.
  destruct (scanLoopStats_cases growslice elementID objs newElementStats initState)
    as [[Hall _]|(pre & o & post & Heq & Hpre & Hnone & _)].
  - destruct (Hpass Hall) as (H1 & H2 & H3). right.
    destruct (scanner_ok env) eqn:Hsc; [|left; by rewrite H1].
    right. destruct (tags_empty_or_not objs) as [He|Hne].
    + left. by rewrite H2.
    + right. by rewrite H3.
  - left. exists pre, o, post. split; [done|]. split; [done|]. by eapply Hpanic.
Qed.

Lemma flags_accepted args :
  ~ (inputOSM args = "" \/ outputNodes args = "" \/ startNode args = 0%Z) ->
  inputOSM args <> "" /\ outputNodes args <> "" /\ startNode args <> 0%Z.
Proof. tauto. Qed.

Lemma reach_writer_shape growslice start objs :
  exists derived,
    writer (reach growslice start objs) = [XmlDecl; OsmOpen] ++ derived /\
    Forall derivedShape derived.
Proof.
  unfold reach, scanPhase. rewrite !exec_seq.
  apply (scanLoop_writer_shape growslice objs
           (exec (modify (set_newNodeID start))
              (exec (write OsmOpen) (exec (write XmlDecl) initState)))).
  eapply Inv_same_store; [apply Inv_initState|done..].
Qed.




(** X8. What has been written to the output file when [main] has
    ended.  The file is not opened when the usage help is shown or a
    file cannot be opened.  It has got the whole document (XML
    declaration, opening
    osm tag, the derived nodes, each with exactly the tags
    node_network and name, one node element per entry of the table,
    closing tag) when [writer.Flush] is reached and succeeds: [stats.Add]
    returns for every object, the scanner reports no error and some
    object has a tag.  When [stats.Add] panics for an object, the
    scanner reports an error, no object has a tag (the report panics)
    or the flush fails, the process ends without a flushed writer: the
    file holds only what the buffer passed on by itself.  At a scanner
    error or a panic the writer had been given the two header lines and
    derived nodes only. *)
Theorem X8_output_document (growslice : nat -> nat -> nat)
    (range_order : gmap Z nat -> list (Z * nat))
    (elementID : object -> option ElementID) args env objs :
  let r := main growslice range_order elementID args env objs in
  let usage := inputOSM args = "" \/ outputNodes args = "" \/ startNode args = 0%Z in
  let opened := openInput_ok env = true /\ openOutput_ok env = true in
  ((usage \/ ~ opened) -> outputFile r = NotOpened /\ writer r.2 = []) /\
  (~ usage -> opened ->
     (forall o, o ∈ objs -> is_Some (elementID o)) ->
     (exists o, o ∈ objs /\ objectTags o <> []) ->
     scanner_ok env = true -> flush_ok env = true ->
     exists derived drained,
       outputFile r
       = Flushed ([XmlDecl; OsmOpen] ++ derived ++ (NodeElem <$> drained) ++ [OsmClose]) /\
       Forall derivedShape derived /\
       length drained
       = length (range_order (turningCircleLoop (reach growslice (startNode args) objs)))) /\
  (~ usage -> opened ->
     (exists o, o ∈ objs /\ elementID o = None) \/ scanner_ok env = false \/
     (forall o, o ∈ objs -> objectTags o = []) \/ flush_ok env = false ->
     outputFile r = Unflushed) /\
  (~ usage -> opened -> r.1 = ScannerError \/ r.1 = Panic ->
     exists derived, writer r.2 = [XmlDecl; OsmOpen] ++ derived /\
                     Forall derivedShape derived).
Proof.
  intros r usage opened.
  assert (Hu : usage -> r = (Usage, initState)).
  { intros H. unfold r, main. destruct H as [H | [H | H]]; rewrite H.
    - done.
    - by rewrite orb_true_r.
    - by rewrite orb_true_r. }
  split; [|split; [|split]].
  - intros [H|H]; [by rewrite (Hu H)|].
    unfold r, main. destruct (_ || _); [done|].
    destruct (openInput_ok env) eqn:Hi; [|done].
    destruct (openOutput_ok env) eqn:Ho; [|done]. exfalso. by apply H.
  - intros Hn [Hoi Hoo] Hpass Htag Hsc Hfl.
    destruct (flags_accepted args Hn) as (Hi & Ho & Hs).
    destruct (main_ends growslice range_order elementID args env objs Hi Ho Hs Hoi Hoo)
      as [_ Hp]. fold r in Hp.
    destruct (Hp ltac:(by apply Forall_forall)) as (_ & _ & H3).
    specialize (H3 Hsc Htag). rewrite Hfl in H3. cbn [negb] in H3.
    destruct (reach_writer_shape growslice (startNode args) objs) as (derived & Hw & Hsh).
    destruct (drainLoop_writer growslice
                (range_order (turningCircleLoop (reach growslice (startNode args) objs)))
                (reach growslice (startNode args) objs)) as (ns & Hns & Hlen).
    assert (Hd : writer (exec (drainPhase growslice range_order)
                           (reach growslice (startNode args) objs))
                 = [XmlDecl; OsmOpen] ++ derived ++ (NodeElem <$> ns) ++ [OsmClose]).
    { unfold drainPhase, drain. rewrite exec_seq, exec_bind_gets.
      unfold write. rewrite exec_modify. cbn [writer set_writer].
      rewrite Hns, Hw. by rewrite <- !app_assoc. }
    exists derived, ns. split; [|done].
    rewrite H3. unfold outputFile. cbn [fst snd].
    destruct (closeOutput_ok env), (closeInput_ok env); cbn [negb]; by rewrite Hd.
  - intros Hn [Hoi Hoo] Hcase.
    destruct (flags_accepted args Hn) as (Hi & Ho & Hs).
    destruct (main_normal growslice range_order elementID args env objs Hi Ho Hs Hoi Hoo)
      as [(pre & o & post & _ & _ & Hr)|[(_ & _ & Hr)|[(_ & _ & _ & Hr)|
          (Hpass & Hsc & (o1 & Hin1 & Hne1) & Hr)]]];
      fold r in Hr; rewrite Hr; try done.
    destruct Hcase as [(o & Hin & Hnone)|[Hsf|[Hempty|Hfl]]].
    + rewrite Forall_forall in Hpass. destruct (Hpass o Hin) as [x Hx]. congruence.
    + congruence.
    + by destruct (Hne1 (Hempty o1 Hin1)).
    + by rewrite Hfl.
  - intros Hn [Hoi Hoo] Hcase.
    destruct (flags_accepted args Hn) as (Hi & Ho & Hs).
    destruct (main_normal growslice range_order elementID args env objs Hi Ho Hs Hoi Hoo)
      as [(pre & o & post & _ & _ & Hr)|[(_ & _ & Hr)|[(_ & _ & _ & Hr)|(_ & _ & _ & Hr)]]];
      fold r in Hr, Hcase; rewrite Hr in Hcase |- *; cbn [fst snd] in *;
      try apply reach_writer_shape.
    exfalso. destruct (flush_ok env), (closeOutput_ok env), (closeInput_ok env);
      cbn in Hcase; destruct Hcase; discriminate.
Qed.

(** C1. For every point whose tag map has network:type = node_network
    and for which exactly one of the six categories has a reference key
    ([spec_requests] is the one request of category [label] with
    reference value [ref]), the synthesis writes exactly one derived
    node: its tags are exactly node_network = [label] and name = [ref],
    its identifier is the counter, and latitude, longitude and all other
    fields are those of the source.  This holds of
    [createNewNodeNetworkObject] called on the node that the scanner
    has delivered, and of the round of the scanner loop for the node
    when its statistics call [stats.Add] returns; when that call
    panics, the round is not entered and nothing is written. *)
Theorem C1_single_category_synthesis
    (growslice : nat -> nat -> nat) (elementID : object -> option ElementID)
    start pre v spare label ref stats :
  Tags_Map (Tags v) !! "network:type" = Some "node_network" ->
  spec_requests (Tags_Map (Tags v)) = [(label, ref)] ->
  let st := reach growslice start pre in
  let derived :=
    NodeElem (mkNode (newNodeID st) (Lat v) (Lon v) (User v) (UserID v) (Visible v)
                (Version v) (ChangesetID v) (Timestamp v)
                [mkTag "node_network" label; mkTag "name" ref] (Committed v)) in
  let s := scanNode v spare st in
  let r := processObjectStats growslice elementID (ObjNode v spare) stats st in
  writer (exec (createNewNodeNetworkObject growslice s.1) s.2) = writer st ++ [derived] /\
  (forall id, elementID (ObjNode v spare) = Some id ->
     r.1 = Some (elementStats_Add stats id (Tags v)) /\
     writer r.2 = writer st ++ [derived]) /\
  (elementID (ObjNode v spare) = None -> r = (None, st)).
Proof.
  intros Hnet Hone st derived s r.
  pose proof (reach_Inv growslice start pre) as HI. fold st in HI.
  split; [|split].
  - destruct (scanNode_lookup st v spare HI) as (HI1 & _ & _ & Hl & Hr). fold s in HI1, Hl, Hr.
    destruct (values_heap _ _ _ Hl) as (n & Hn & Hvn).
    destruct (createNewNodeNetworkObject_spec growslice s.2 s.1) as (_ & _ & _ & _ & _ & Hw).
    cbv zeta in Hw. rewrite Hw, Hn. cbn [default from_option id].
    assert (Htags : slice_read (arrays s.2) (Tags n) = Tags v) by (by rewrite Hvn).
    rewrite Htags, Hone. destruct Hr as (-> & -> & _). cbn [derivedItems]. unfold derived.
    do 3 f_equal. rewrite Hvn. by destruct n.
  - intros id Hid. unfold r. rewrite (processObjectStats_Some _ _ _ _ _ _ Hid).
    cbn [fst snd objectTags]. split; [done|].
    destruct (processNode_spec growslice st v spare HI) as (_ & _ & _ & _ & Hw & _).
    cbn [processObject]. rewrite Hw.
    unfold isNodeNetwork. rewrite bool_decide_eq_true_2 by done. rewrite Hone. done.
  - intros Hnone. unfold r. by apply processObjectStats_None.
Qed.

Lemma C1_single_category_synthesis_witness :
  Tags_Map (Tags junction53) !! "network:type" = Some "node_network" /\
  spec_requests (Tags_Map (Tags junction53)) = [("node_bicycle", "53")] /\
  exampleElementID (ObjNode junction53 0) = Some (mkElementID TypeNode 355939532 8) /\
  writer (processObjectStats growDouble exampleElementID (ObjNode junction53 0)
            newElementStats (reach growDouble 1000 [])).2
  = [XmlDecl; OsmOpen;
     NodeElem (exampleNode 1000 [mkTag "node_network" "node_bicycle"; mkTag "name" "53"])].
Proof.
  split; [reflexivity|]. split; [reflexivity|]. split; [reflexivity|].
  refine (proj2 (proj1 (proj2 (C1_single_category_synthesis growDouble exampleElementID
            1000 [] junction53 0 "node_bicycle" "53" newElementStats _ _)) _ _));
    reflexivity.
Defined.




(** X2. A point that is neither a node_network point nor a turning
    point passes through the output side of its round of the scanner
    loop: when [stats.Add] returns, the round gives nothing to the
    writer, derives no identifier and leaves the table, the counter of
    the highway types and every node read before as they are; what it
    changes is the statistics of the report ([stats.Add], whose result
    the round returns, and the counters and bounds of [scanReport] and
    [scanBounds]) and the heap, which gets the node object.  When
    [stats.Add] panics, the round is not entered. *)
Theorem X2_unmatched_point_passes_through
    (growslice : nat -> nat -> nat) (elementID : object -> option ElementID)
    start pre v spare stats :
  Tags_Map (Tags v) !! "network:type" <> Some "node_network" ->
  Tags_Map (Tags v) !! "highway" <> Some "turning_circle" ->
  Tags_Map (Tags v) !! "highway" <> Some "turning_loop" ->
  let st := reach growslice start pre in
  let r := processObjectStats growslice elementID (ObjNode v spare) stats st in
  let st' := r.2 in
  (forall id, elementID (ObjNode v spare) = Some id ->
     r.1 = Some (elementStats_Add stats id (Tags v)) /\
     writer st' = writer st /\
     newNodeID st' = newNodeID st /\
     turningCircleLoop st' = turningCircleLoop st /\
     turningCircleLoopModified st' = turningCircleLoopModified st /\
     values st' = values st ++ [v]) /\
  (elementID (ObjNode v spare) = None -> r = (None, st)).
Proof.
  intros Hnet Hc Hl st r st'.
  split; [|intros Hnone; unfold r; by apply processObjectStats_None].
  intros id Hid. subst st'. unfold r. rewrite (processObjectStats_Some _ _ _ _ _ _ Hid).
  cbn [fst snd objectTags processObject]. split; [done|].
  destruct (processNode_spec growslice st v spare (reach_Inv growslice start pre))
    as (_ & Hv & Hm & Hn & Hw & Ht).
  unfold isNodeNetwork in Hn, Hw. rewrite bool_decide_eq_false_2 in Hn, Hw by done.
  unfold isTurning in Ht. rewrite bool_decide_eq_false_2 in Ht by (intros [?|?]; done).
  cbn in Hn, Hw. rewrite app_nil_r in Hw. done.
Qed.

Lemma X2_unmatched_point_passes_through_witness :
  let v := exampleNode 12 [mkTag "highway" "crossing"; mkTag "network:type" "other"] in
  Tags_Map (Tags v) !! "network:type" <> Some "node_network" /\
  exampleElementID (ObjNode v 0) = Some (mkElementID TypeNode 12 8) /\
  writer (processObjectStats growDouble exampleElementID (ObjNode v 0) newElementStats
            (reach growDouble 1000 exampleRun)).2
  = writer (reach growDouble 1000 exampleRun).
Proof.
  cbv zeta.
  assert (H1 : Tags_Map (Tags (exampleNode 12 [mkTag "highway" "crossing";
                 mkTag "network:type" "other"])) !! "network:type" <> Some "node_network")
    by (vm_compute; discriminate).
  split; [exact H1|]. split; [reflexivity|].
  refine (proj1 (proj2 (proj1 (X2_unmatched_point_passes_through growDouble
            exampleElementID 1000 exampleRun _ 0 newElementStats H1 _ _) _ eq_refl)));
    vm_compute; discriminate.
Defined.

(** C4 (amended). [addHighwayTypeToTurningCircleLoop] appends the tag
    fzk_turning = highwayType to a node only if the node is referenced
    through the table and carries no tag with key fzk_turning; every
    other node keeps its tags.  Hence a node with at most one
    fzk_turning tag before the call has at most one after it, a second
    call with the same way and category changes nothing and returns 0,
    and a node that carries the tag keeps its tags in every later call
    (the first annotation wins).  Over the run, a point that was read
    with at most one fzk_turning tag has at most one at every moment of
    the scanner loop and after the final loop. *)
Theorem C4_annotation_append_once
    (growslice : nat -> nat -> nat) start objs e tags hw :
  let st := reach growslice start objs in
  let r := addHighwayTypeToTurningCircleLoop growslice e tags hw st in
  (forall p v, values st !! p = Some v ->
     values (snd r) !! p = Some v \/
     (annotated v = false /\
      referenced (turningCircleLoop st) (Nodes e) p = true /\
      values (snd r) !! p = Some (withTag (mkTag "fzk_turning" hw) v))) /\
  (forall p v v', values st !! p = Some v -> values (snd r) !! p = Some v' ->
     countFzk (Tags v) <= 1 -> countFzk (Tags v') <= 1) /\
  addHighwayTypeToTurningCircleLoop growslice e tags hw (snd r) = (0%Z, snd r) /\
  (forall e2 tags2 hw2 p v,
     values (snd r) !! p = Some v -> annotated v = true ->
     values (snd (addHighwayTypeToTurningCircleLoop growslice e2 tags2 hw2 (snd r))) !! p
     = Some v) /\
  (forall p v w, decodedNodes objs !! p = Some v -> values st !! p = Some w ->
     countFzk (Tags v) <= 1 -> countFzk (Tags w) <= 1) /\
  (forall (range_order : gmap Z nat -> list (Z * nat)) p v w,
     range_order (turningCircleLoop st) ≡ₚ map_to_list (turningCircleLoop st) ->
     decodedNodes objs !! p = Some v ->
     values (exec (drainPhase growslice range_order) st) !! p = Some w ->
     countFzk (Tags v) <= 1 -> countFzk (Tags w) <= 1).
Proof.
  intros st r. pose proof (reach_Inv growslice start objs) as HI. fold st in HI.
  assert (Hrun : forall p v w, decodedNodes objs !! p = Some v -> values st !! p = Some w ->
            countFzk (Tags v) <= 1 -> countFzk (Tags w) <= 1).
  { intros p v w Hp Hw Hc. destruct (reach_decoded growslice start objs) as [Hv _].
    fold st in Hv. destruct (Forall2_lookup_l _ _ _ _ _ Hv Hp) as (w' & Hw' & Hvw).
    assert (w' = w) as -> by congruence.
    destruct Hvw as [->|(_ & Ha & x & _ & ->)]; [done|].
    unfold withTag. rewrite Tags_set_Tags, countFzk_app.
    rewrite (countFzk_not_found (Tags v)) by exact Ha. done. }
  unfold addHighwayTypeToTurningCircleLoop in *.
  destruct (annotateLoop_values growslice (Nodes e) st hw 0%Z HI)
    as (HI' & Hr & Hlen & Hvals).
  fold r in HI', Hr, Hlen, Hvals.
  assert (H1 : forall p v, values st !! p = Some v ->
     values (snd r) !! p = Some v \/
     (annotated v = false /\
      referenced (turningCircleLoop st) (Nodes e) p = true /\
      values (snd r) !! p = Some (withTag (mkTag "fzk_turning" hw) v))).
  { intros p v Hv. specialize (Hvals p v Hv).
    destruct (annotated v) eqn:Ha; [by left|].
    destruct (referenced (turningCircleLoop st) (Nodes e) p) eqn:Hrf; [|by left].
    right. done. }
  split; [exact H1|]. split; [|split; [|split; [|split; [exact Hrun|]]]].
  - intros p v v' Hv Hv' Hc. destruct (H1 p v Hv) as [Hs|(Ha & _ & Hs)].
    + congruence.
    + assert (v' = withTag (mkTag "fzk_turning" hw) v) as -> by congruence.
      unfold withTag. rewrite Tags_set_Tags, countFzk_app.
      rewrite (countFzk_not_found (Tags v)) by exact Ha. done.
  - apply annotateLoop_settled. intros node Hin.
    by apply annotateLoop_then_settled.
  - intros e2 tags2 hw2 p v Hv Ha.
    destruct (annotateLoop_values growslice (Nodes e2) (snd r) hw2 0%Z HI')
      as (_ & _ & _ & Hvals2).
    rewrite (Hvals2 p v Hv). by rewrite Ha.
  - intros range_order p v w Hperm Hp Hw Hc.
    set (entries := range_order (turningCircleLoop st)) in *.
    assert (Hval : forall x, x ∈ entries -> is_Some (values st !! x.2)).
    { intros [k q] He. rewrite Hperm in He. apply elem_of_map_to_list in He.
      destruct (Inv_table_values _ _ _ HI He) as (u & Hu & _). by exists u. }
    destruct (drainLoop_spec growslice entries st HI Hval)
      as (_ & _ & _ & _ & _ & Hvals1 & _).
    assert (Hvs : values (exec (drainPhase growslice range_order) st)
                  = values (exec (drainLoop growslice entries) st)).
    { unfold drainPhase, drain. rewrite exec_seq. by rewrite exec_bind_gets. }
    rewrite Hvs in Hw.
    destruct (reach_decoded growslice start objs) as [Hv _]. fold st in Hv.
    destruct (Forall2_lookup_l _ _ _ _ _ Hv Hp) as (w0 & Hw0 & _).
    pose proof (Hrun p v w0 Hp Hw0 Hc) as Hc0.
    rewrite (Hvals1 p w0 Hw0) in Hw. injection Hw as <-.
    destruct (bool_decide _); [|done]. unfold finalValue.
    destruct (annotated w0) eqn:Ha; [done|].
    unfold withTag. rewrite Tags_set_Tags, countFzk_app.
    rewrite (countFzk_not_found (Tags w0)) by exact Ha. done.
Qed.

(** Claim C4 as stated fails for a point that the input delivers with
    two fzk_turning tags: it is tracked in the table, its tag sequence
    has two such tags, and so has the element written at the end. *)
Lemma C4_counterexample :
  let v := exampleNode 77 [mkTag "highway" "turning_circle";
                           mkTag "fzk_turning" "a"; mkTag "fzk_turning" "b"] in
  let st := reach growDouble 1000 [ObjNode v 0] in
  let r := main growDouble map_to_list exampleElementID
             (mkFlags "osmdata.pbf" "osmpp.xml" 1000)
             (mkEnv true true true true true true) [ObjNode v 0] in
  turningCircleLoop st !! 77%Z = Some 0 /\
  values st !! 0 = Some v /\
  countFzk (tagsAt st 0) = 2 /\
  ~ countFzk (tagsAt st 0) <= 1 /\
  r.1 = Done /\
  writer r.2 = [XmlDecl; OsmOpen; NodeElem v; OsmClose].
Proof.
  cbv zeta.
  assert (H : countFzk (tagsAt (reach growDouble 1000
                [ObjNode (exampleNode 77 [mkTag "highway" "turning_circle";
                   mkTag "fzk_turning" "a"; mkTag "fzk_turning" "b"]) 0]) 0) = 2)
    by (vm_compute; reflexivity).
  split; [vm_compute; reflexivity|]. split; [vm_compute; reflexivity|].
  split; [exact H|]. split; [rewrite H; lia|].
  split; vm_compute; reflexivity.
Qed.
